(** * Validation of persisted desktop state

    A shallow embedding of the validator module of the desktop client
    (the schema declarations, [cleanURL], the eleven [validate...] entry
    points and [validateAgainstSchema]) together with the part of the
    schema library the module relies on: the validation of booleans,
    strings, numbers, arrays and objects with the options the module passes
    ([stripUnknown: true], everything else at its default: conversion on,
    first error aborts).

    A validator is modelled by what it logs and what it returns or throws,
    the exceptions of the URL helper it calls included.
    The config validators also assign to the record they are given
    ([data.teams = teams], [delete data.spellCheckerURL]); the record as
    the caller sees it afterwards is not part of the model. *)

From Stdlib Require Import QArith ZArith Ascii String.
From stdpp Require Import gmap strings list fin_maps.

Set Warnings "-register-all,-clear-no-such-hyp".


(** ** JavaScript values *)

Module JS.

(** A number is an IEEE double: the finite ones are kept as rationals
    (every finite double is one), beside NaN and the two infinities.
    Negative zero is identified with zero. *)
Inductive number :=
| NaN
| PosInf
| NegInf
| Fin (q : Q).

Definition int (z : Z) : number := Fin (inject_Z z).

(** The values a persisted file or a caller can hand over: what JSON
    denotes, and [undefined].  Strings are sequences of code units below
    256 (the Latin-1 part of UTF-16); an object is a finite map from
    property names to values. *)
Inductive value :=
| VUndefined
| VNull
| VBool (b : bool)
| VNum (n : number)
| VStr (s : string)
| VArr (items : list value)
| VObj (props : gmap string value).

Definition MAX_SAFE_INTEGER : Q := inject_Z 9007199254740991.
Definition MIN_SAFE_INTEGER : Q := inject_Z (-9007199254740991).

(** [a < b] on numbers; every comparison with NaN is false. *)
Definition num_ltb (a b : number) : bool :=
  match a, b with
  | NaN, _ | _, NaN => false
  | _, NegInf => false
  | NegInf, _ => true
  | PosInf, _ => false
  | Fin _, PosInf => true
  | Fin p, Fin q => negb (Qle_bool q p)
  end.

(** [Math.trunc(q) - q === 0] *)
Definition is_integral (q : Q) : bool :=
  (Z.rem (Qnum q) (Z.pos (Qden q)) =? 0)%Z.

Definition typeof (v : value) : string :=
  match v with
  | VUndefined => "undefined"
  | VNull => "object"
  | VBool _ => "boolean"
  | VNum _ => "number"
  | VStr _ => "string"
  | VArr _ => "object"
  | VObj _ => "object"
  end.

(** ToBoolean, as [&&] and [if] apply it. *)
Definition truthy (v : value) : bool :=
  match v with
  | VUndefined | VNull => false
  | VBool b => b
  | VNum NaN => false
  | VNum (Fin q) => negb (Qeq_bool q 0)
  | VNum _ => true
  | VStr s => negb (String.eqb s "")
  | VArr _ | VObj _ => true
  end.

(** *** Strings *)

Definition backslash : ascii := ascii_of_N 92.
Definition slash : ascii := ascii_of_N 47.

(** [toLowerCase] on one code unit below 256: A-Z and the accented
    capitals U+00C0..U+00DE (the multiplication sign apart) move up by 32. *)
Definition lower_unit (c : ascii) : ascii :=
  let n := N_of_ascii c in
  if ((65 <=? n) && (n <=? 90) || (192 <=? n) && (n <=? 222) && negb (n =? 215))%N
  then ascii_of_N (n + 32) else c.

Fixpoint toLowerCase (s : string) : string :=
  match s with
  | EmptyString => EmptyString
  | String c r => String (lower_unit c) (toLowerCase r)
  end.

(** [s.includes('\\')] *)
Fixpoint includes_backslash (s : string) : bool :=
  match s with
  | EmptyString => false
  | String c r => Ascii.eqb c backslash || includes_backslash r
  end.

(** [s.replace(/\\/gi, '/')] *)
Fixpoint replace_backslashes (s : string) : string :=
  match s with
  | EmptyString => EmptyString
  | String c r =>
      String (if Ascii.eqb c backslash then slash else c) (replace_backslashes r)
  end.

(** *** Exceptions and the log *)

Inductive exn :=
| TypeError
| SyntaxError.

Inductive outcome (A : Type) :=
| Returned (a : A)
| Threw (e : exn).
Arguments Returned {A} a.
Arguments Threw {A} e.

End JS.
Export JS.

(** ** The schema library

    The fragment of the schema language the module uses, and its
    validation procedure with the preferences the module passes:
    [convert] on, [abortEarly] on, [stripUnknown] on for objects (not for
    arrays), [presence] optional by default. *)

Module Joi.

Inductive presence :=
| Optional
| Required.

(** The literals handed to [allow] and [valid]. *)
Inductive literal :=
| LNull
| LBool (b : bool)
| LNum (q : Q)
| LStr (s : string).

Record flags := Flags {
  f_presence : presence;
  f_default : option value;
  f_valids : list literal;
  f_only : bool;
}.

Definition no_flags : flags :=
  {| f_presence := Optional; f_default := None; f_valids := []; f_only := false |}.

Inductive string_rule :=
| RPattern (test : string → bool)
| RUri.

Inductive number_rule :=
| RInteger
| RMin (limit : Q).

Inductive schema :=
| SAny (f : flags)
| SBoolean (f : flags)
| SString (f : flags) (rules : list string_rule)
| SNumber (f : flags) (rules : list number_rule)
| SArray (f : flags) (items : option schema)
| SObject (f : flags) (keys : option (list (string * schema)))
          (pattern : option (schema * schema)).

Definition flags_of (s : schema) : flags :=
  match s with
  | SAny f | SBoolean f | SString f _ | SNumber f _ | SArray f _ | SObject f _ _ => f
  end.

Definition with_flags (g : flags → flags) (s : schema) : schema :=
  match s with
  | SAny f => SAny (g f)
  | SBoolean f => SBoolean (g f)
  | SString f r => SString (g f) r
  | SNumber f r => SNumber (g f) r
  | SArray f i => SArray (g f) i
  | SObject f k p => SObject (g f) k p
  end.

(** *** Errors *)

Inductive error_code :=
| any_required
| any_only
| boolean_base
| string_base
| string_empty
| string_pattern_base
| string_uri
| number_base
| number_infinity
| number_unsafe
| number_integer
| number_min
| array_base
| array_sparse
| object_base.

Inductive path_elem :=
| PKey (k : String.string)
| PIdx (i : nat).

Record error := Error { code : error_code; path : list path_elem }.

Inductive vresult :=
| Valid (v : value)
| Invalid (e : error).

(** What converting a string for a number schema can give: the string is
    not a decimal numeral (it stays a string), it denotes a number, or it
    denotes one that does not survive the round trip through a double. *)
Inductive coerced_number :=
| NotNumeric
| Converted (n : number)
| Unsafe.

Section Validate.

(** The RFC 3986 test behind [string().uri()]. *)
Variable uriRx : String.string → bool.
(** The reading of a decimal numeral as a double. *)
Variable numberOfString : String.string → coerced_number.

Definition literal_matches (l : literal) (v : value) : bool :=
  match l, v with
  | LNull, VNull => true
  | LBool a, VBool b => Bool.eqb a b
  | LNum p, VNum (Fin q) => Qeq_bool p q
  | LStr a, VStr b => String.eqb a b
  | _, _ => false
  end.

Definition in_valids (ls : list literal) (v : value) : bool :=
  existsb (λ l, literal_matches l v) ls.

(** Type coercion, run on a defined value before anything else. *)
Definition coerce (s : schema) (v : value) : error_code + value :=
  match s, v with
  | SBoolean _, VStr str =>
      let normalized := toLowerCase str in
      if String.eqb normalized "true" then inr (VBool true)
      else if String.eqb normalized "false" then inr (VBool false)
      else inr v
  | SNumber _ _, VStr str =>
      match numberOfString str with
      | NotNumeric => inr v
      | Converted n => inr (VNum n)
      | Unsafe => inl number_unsafe
      end
  | _, _ => inr v
  end.

Definition string_rule_ok (r : string_rule) (str : String.string) : option error_code :=
  match r with
  | RPattern test => if test str then None else Some string_pattern_base
  | RUri => if uriRx str then None else Some string_uri
  end.

Definition number_rule_ok (r : number_rule) (q : Q) : option error_code :=
  match r with
  | RInteger => if is_integral q then None else Some number_integer
  | RMin limit => if Qle_bool limit q then None else Some number_min
  end.

(** The rules of a schema run in the order they were declared; the
    first one that fails gives the error. *)
Fixpoint first_failure {A R} (check : R → A → option error_code)
    (rules : list R) (a : A) : option error_code :=
  match rules with
  | [] => None
  | r :: rest =>
      match check r a with
      | Some c => Some c
      | None => first_failure check rest a
      end
  end.

Definition string_base_check (rules : list string_rule) (v : value) : error_code + value :=
  match v with
  | VStr str =>
      if String.eqb str "" then inl string_empty
      else match first_failure string_rule_ok rules str with
           | Some c => inl c
           | None => inr v
           end
  | _ => inl string_base
  end.

Definition number_base_check (rules : list number_rule) (v : value) : error_code + value :=
  match v with
  | VNum PosInf | VNum NegInf => inl number_infinity
  | VNum (Fin q) =>
      if negb (Qle_bool q MAX_SAFE_INTEGER) || negb (Qle_bool MIN_SAFE_INTEGER q)
      then inl number_unsafe
      else match first_failure number_rule_ok rules q with
           | Some c => inl c
           | None => inr v
           end
  | _ => inl number_base
  end.

(** The steps every type shares, in the library's order: coercion of a
    defined value; presence (an undefined value is an error for a required
    schema, whatever default it declares, and otherwise becomes the
    default, if any); allowed values; then the type's own check [base]. *)
Definition run (s : schema) (p : list path_elem) (base : value → vresult)
    (v : value) : vresult :=
  let f := flags_of s in
  match (match v with VUndefined => inr v | _ => coerce s v end) with
  | inl c => Invalid (Error c p)
  | inr VUndefined =>
      match f_presence f with
      | Required => Invalid (Error any_required p)
      | Optional => Valid (default VUndefined (f_default f))
      end
  | inr v1 =>
      if in_valids (f_valids f) v1 then Valid v1
      else if f_only f then Invalid (Error any_only p)
      else base v1
  end.

Definition lift_check (p : list path_elem) (r : error_code + value) : vresult :=
  match r with
  | inl c => Invalid (Error c p)
  | inr v => Valid v
  end.

(** The items of an array, left to right from index [i]. *)
Fixpoint validate_items (item : list path_elem → value → vresult)
    (p : list path_elem) (i : nat) (l : list value) : error + list value :=
  match l with
  | [] => inr []
  | x :: rest =>
      match x with
      | VUndefined => inl (Error array_sparse (p ++ [PIdx i]))
      | _ =>
          match item (p ++ [PIdx i]) x with
          | Invalid e => inl e
          | Valid VUndefined => inl (Error array_sparse (p ++ [PIdx i]))
          | Valid x' =>
              match validate_items item p (S i) rest with
              | inl e => inl e
              | inr rest' => inr (x' :: rest')
              end
          end
      end
  end.

(** The result of a declared key is written back unless it is
    undefined. *)
Definition write_back (k : String.string) (r : value) (m : gmap String.string value)
    : gmap String.string value :=
  match r with
  | VUndefined => m
  | _ => <[k := r]> m
  end.

(** What becomes of an entry no declared key covers: it is validated
    against the pattern's rule when its name matches the pattern's key
    schema, and is stripped otherwise. *)
Definition pattern_entry (pat : option ((String.string → bool) * (String.string → value → vresult)))
    (k : String.string) (item : value) : option vresult :=
  match pat with
  | Some (matches, rule) => if matches k then Some (rule k item) else None
  | None => None
  end.

Definition entry_error (r : option vresult) : option error :=
  match r with Some (Invalid e) => Some e | _ => None end.

Definition entry_value (r : option vresult) : option value :=
  match r with Some (Valid v) => Some v | _ => None end.

(** The declared keys, in the order of the declaration; each reads its
    property from the copy being built and writes its result back. *)
Fixpoint validate_keys (ks : list (String.string * (list path_elem → value → vresult)))
    (p : list path_elem) (acc : gmap String.string value)
    : error + gmap String.string value :=
  match ks with
  | [] => inr acc
  | (k, child) :: rest =>
      match child (p ++ [PKey k]) (default VUndefined (acc !! k)) with
      | Invalid e => inl e
      | Valid r => validate_keys rest p (write_back k r acc)
      end
  end.

(** The properties no declared key covers: those the pattern takes are
    validated, the others are stripped.  (The entries are visited in the
    order of [map_to_list]; which of several failing entries is reported
    depends on it, whether one fails does not.) *)
Definition validate_unknown
    (pat : option ((String.string → bool) * (String.string → value → vresult)))
    (unprocessed : gmap String.string value) : error + gmap String.string value :=
  match omap (λ kv, entry_error (pattern_entry pat kv.1 kv.2))
             (map_to_list unprocessed) with
  | e :: _ => inl e
  | [] => inr (map_imap (λ k item, entry_value (pattern_entry pat k item)) unprocessed)
  end.

Definition validate_object
    (ks : list (String.string * (list path_elem → value → vresult)))
    (pat : option ((String.string → bool) * (String.string → value → vresult)))
    (p : list path_elem) (m : gmap String.string value) : vresult :=
  match validate_keys ks p m with
  | inl e => Invalid e
  | inr acc =>
      match validate_unknown pat (filter (λ kv, kv.1 ∉ ks.*1) acc) with
      | inl e => Invalid e
      | inr extra => Valid (VObj (filter (λ kv, kv.1 ∈ ks.*1) acc ∪ extra))
      end
  end.

Definition is_valid (r : vresult) : bool :=
  match r with Valid _ => true | Invalid _ => false end.

Fixpoint validate (s : schema) (p : list path_elem) (v : value) {struct s} : vresult :=
  run s p
    (λ v1,
      match s with
      | SAny _ => Valid v1
      | SBoolean _ =>
          match v1 with VBool _ => Valid v1 | _ => Invalid (Error boolean_base p) end
      | SString _ rules => lift_check p (string_base_check rules v1)
      | SNumber _ rules => lift_check p (number_base_check rules v1)
      | SArray _ its =>
          match v1 with
          | VArr l =>
              match its with
              | None => Valid v1
              | Some it =>
                  match validate_items (validate it) p 0 l with
                  | inl e => Invalid e
                  | inr l' => Valid (VArr l')
                  end
              end
          | _ => Invalid (Error array_base p)
          end
      | SObject _ None None =>
          match v1 with VObj _ => Valid v1 | _ => Invalid (Error object_base p) end
      | SObject _ ks pat =>
          match v1 with
          | VObj m =>
              validate_object
                (match ks with
                 | Some l => map (λ ksk, (ksk.1, validate ksk.2)) l
                 | None => []
                 end)
                (match pat with
                 | Some (sk, sr) =>
                     Some (λ k, is_valid (validate sk p (VStr k)),
                           λ k item, validate sr (p ++ [PKey k]) item)
                 | None => None
                 end) p m
          | _ => Invalid (Error object_base p)
          end
      end) v.

(** The value of a successful validation. *)
Definition vvalue (r : vresult) : option value :=
  match r with Valid v => Some v | Invalid _ => None end.

(** The top-level property names an object schema declares: its keys,
    and the names its pattern takes. *)
Definition declares (s : schema) (k : String.string) : bool :=
  match s with
  | SObject _ ks pat =>
      bool_decide (k ∈ (default [] ks).*1)
      || match pat with
         | Some (sk, _) => is_valid (validate sk [] (VStr k))
         | None => false
         end
  | _ => false
  end.

(** A schema is settled when it accepts each of its defaults unchanged
    and its objects declare every key once and have no pattern. *)
Definition default_ok (s : schema) : Prop :=
  match f_default (flags_of s) with
  | Some d => ∀ p, validate s p d = Valid d
  | None => True
  end.

Fixpoint settled (s : schema) : Prop :=
  default_ok s ∧
  match s with
  | SArray _ (Some it) => settled it
  | SObject _ (Some ks) None =>
      NoDup ks.*1 ∧ foldr (λ ksk rest, settled ksk.2 ∧ rest) True ks
  | SObject _ _ (Some _) => False
  | _ => True
  end.

End Validate.

(** *** The builders, named as in the library *)

Definition any : schema := SAny no_flags.
Definition boolean : schema := SBoolean no_flags.
Definition string : schema := SString no_flags [].
Definition number : schema := SNumber no_flags [].
Definition array : schema := SArray no_flags None.
Definition object (keys : option (list (String.string * schema))) : schema :=
  SObject no_flags keys None.

Definition required : schema → schema :=
  with_flags (λ f, Flags Required (f_default f) (f_valids f) (f_only f)).
Definition default (d : value) : schema → schema :=
  with_flags (λ f, Flags (f_presence f) (Some d) (f_valids f) (f_only f)).
Definition allow (ls : list literal) : schema → schema :=
  with_flags (λ f, Flags (f_presence f) (f_default f) (f_valids f ++ ls) (f_only f)).
Definition valid (ls : list literal) : schema → schema :=
  with_flags (λ f, Flags (f_presence f) (f_default f) (f_valids f ++ ls) true).

Definition regex (test : String.string → bool) (s : schema) : schema :=
  match s with SString f r => SString f (r ++ [RPattern test]) | _ => s end.
Definition uri (s : schema) : schema :=
  match s with SString f r => SString f (r ++ [RUri]) | _ => s end.
Definition integer (s : schema) : schema :=
  match s with SNumber f r => SNumber f (r ++ [RInteger]) | _ => s end.
Definition min (limit : Q) (s : schema) : schema :=
  match s with SNumber f r => SNumber f (r ++ [RMin limit]) | _ => s end.
Definition items (it : schema) (s : schema) : schema :=
  match s with SArray f _ => SArray f (Some it) | _ => s end.
Definition keys (ks : list (String.string * schema)) (s : schema) : schema :=
  match s with
  | SObject f None p => SObject f (Some ks) p
  | SObject f (Some ks0) p => SObject f (Some (ks0 ++ ks)) p
  | _ => s
  end.
Definition pattern (key rule : schema) (s : schema) : schema :=
  match s with SObject f k _ => SObject f k (Some (key, rule)) | _ => s end.

End Joi.

(** ** The validator module *)

Module Validator.

(** What the module writes to the error log. *)
Inductive diagnostic :=
| NotAnObject (type : string)
| NoSchema
| ValidationFailed (e : Joi.error)
| InvalidSpellCheckerURL.

(** A call logs, and returns or throws. *)
Definition M (A : Type) : Type := list diagnostic * outcome A.

#[export] Instance M_ret : MRet M := λ A a, ([], Returned a).
#[export] Instance M_bind : MBind M := λ A B f m,
  match m with
  | (l, Returned a) => let '(l', r) := f a in (l ++ l', r)
  | (l, Threw e) => (l, Threw e)
  end.

Definition throw {A} (e : exn) : M A := ([], Threw e).
Definition log_error (d : diagnostic) : M unit := ([d], Returned ()).

Fixpoint mapM {A B} (f : A → M B) (l : list A) : M (list B) :=
  match l with
  | [] => mret []
  | x :: rest => y ← f x; ys ← mapM f rest; mret (y :: ys)
  end.

(** [v.k] for the property names the module reads ([teams],
    [spellCheckerURL], [name], [url]): none of them is defined on a
    built-in prototype, so only an object can have one. *)
Definition get (v : value) (k : string) : M value :=
  match v with
  | VUndefined | VNull => throw TypeError
  | VObj m => mret (default VUndefined (m !! k))
  | _ => mret VUndefined
  end.

(** [v.k = x] and [delete v.k], only ever reached with an object. *)
Definition set (v : value) (k : string) (x : value) : value :=
  match v with VObj m => VObj (<[k := x]> m) | _ => v end.

Definition remove (v : value) (k : string) : value :=
  match v with VObj m => VObj (delete k m) | _ => v end.

(** [url.includes('\\')]: strings and arrays have the method, nothing
    else in a persisted file does. *)
Definition includes (url : value) : M bool :=
  match url with
  | VStr s => mret (includes_backslash s)
  | VArr l => mret (existsb (λ x, match x with
                                  | VStr s => String.eqb s (String backslash EmptyString)
                                  | _ => false
                                  end) l)
  | _ => throw TypeError
  end.

(** [url.toLowerCase().replace(/\\/gi, '/')] *)
Definition lowered (url : value) : M value :=
  match url with
  | VStr s => mret (VStr (replace_backslashes (toLowerCase s)))
  | _ => throw TypeError
  end.

Definition minWindowWidth : Q := 400.
Definition minWindowHeight : Q := 240.
Definition defaultWindowWidth : Z := 1000.
Definition defaultWindowHeight : Z := 700.

(** [/^[a-z]{2}-[A-Z]{2}$/] *)
Definition is_lower (c : ascii) : bool :=
  let n := N_of_ascii c in ((97 <=? n) && (n <=? 122))%N.
Definition is_upper (c : ascii) : bool :=
  let n := N_of_ascii c in ((65 <=? n) && (n <=? 90))%N.
Definition localeRx (s : string) : bool :=
  match s with
  | String a (String b (String c (String d (String e EmptyString)))) =>
      is_lower a && is_lower b && Ascii.eqb c "-" && is_upper d && is_upper e
  | _ => false
  end.

(** [/^[a-z-]+:$/i] *)
Definition is_scheme_unit (c : ascii) : bool :=
  is_lower c || is_upper c || Ascii.eqb c "-".
Fixpoint protocolRx_rest (s : string) : bool :=
  match s with
  | EmptyString => false
  | String c r =>
      Ascii.eqb c ":" && String.eqb r "" || is_scheme_unit c && protocolRx_rest r
  end.
Definition protocolRx (s : string) : bool :=
  match s with
  | String c r => is_scheme_unit c && protocolRx_rest r
  | EmptyString => false
  end.

Notation "s ▷ f" := (f s) (at level 45, left associativity, only parsing).

(** *** The schemas

    The source writes the schema of a team, of a tab, of [notifications],
    [trayIconTheme] and [spellCheckerLocale] out again in every version;
    they are named here and used where the source repeats them. *)

Definition argsSchema : Joi.schema :=
  Joi.object (Some [
    ("hidden", Joi.boolean);
    ("disableDevMode", Joi.boolean);
    ("dataDir", Joi.string);
    ("version", Joi.boolean)]).

Definition boundsInfoSchema : Joi.schema :=
  Joi.object (Some [
    ("x", Joi.number ▷ Joi.integer ▷ Joi.default (VNum (int 0)));
    ("y", Joi.number ▷ Joi.integer ▷ Joi.default (VNum (int 0)));
    ("width", Joi.number ▷ Joi.integer ▷ Joi.min minWindowWidth ▷ Joi.required
                ▷ Joi.default (VNum (int defaultWindowWidth)));
    ("height", Joi.number ▷ Joi.integer ▷ Joi.min minWindowHeight ▷ Joi.required
                ▷ Joi.default (VNum (int defaultWindowHeight)));
    ("maximized", Joi.boolean ▷ Joi.default (VBool false));
    ("fullscreen", Joi.boolean ▷ Joi.default (VBool false))]).

Definition appStateSchema : Joi.schema :=
  Joi.object (Some [
    ("lastAppVersion", Joi.string);
    ("skippedVersion", Joi.string);
    ("updateCheckedDate", Joi.string)]).

Definition configDataSchemaV0 : Joi.schema :=
  Joi.object (Some [("url", Joi.string ▷ Joi.required)]).

Definition notificationsSchema : Joi.schema :=
  Joi.object (Some [
    ("flashWindow", Joi.any ▷ Joi.valid [Joi.LNum 0; Joi.LNum 2] ▷ Joi.default (VNum (int 0)));
    ("bounceIcon", Joi.boolean ▷ Joi.default (VBool false));
    ("bounceIconType", Joi.any ▷ Joi.allow [Joi.LStr ""]
        ▷ Joi.valid [Joi.LStr "informational"; Joi.LStr "critical"]
        ▷ Joi.default (VStr "informational"))]).

Definition trayIconThemeSchema : Joi.schema :=
  Joi.any ▷ Joi.allow [Joi.LStr ""] ▷ Joi.valid [Joi.LStr "light"; Joi.LStr "dark"]
    ▷ Joi.default (VStr "light").

Definition spellCheckerLocaleSchema : Joi.schema :=
  Joi.string ▷ Joi.regex localeRx ▷ Joi.default (VStr "en-US").

Definition teamSchemaV1 : Joi.schema :=
  Joi.object (Some [
    ("name", Joi.string ▷ Joi.required);
    ("url", Joi.string ▷ Joi.required)]).

Definition configDataSchemaV1 : Joi.schema :=
  Joi.object (Some [
    ("version", Joi.number ▷ Joi.min 1 ▷ Joi.default (VNum (int 1)));
    ("teams", Joi.array ▷ Joi.items teamSchemaV1 ▷ Joi.default (VArr []));
    ("showTrayIcon", Joi.boolean ▷ Joi.default (VBool false));
    ("trayIconTheme", trayIconThemeSchema);
    ("minimizeToTray", Joi.boolean ▷ Joi.default (VBool false));
    ("notifications", notificationsSchema);
    ("showUnreadBadge", Joi.boolean ▷ Joi.default (VBool true));
    ("useSpellChecker", Joi.boolean ▷ Joi.default (VBool true));
    ("enableHardwareAcceleration", Joi.boolean ▷ Joi.default (VBool true));
    ("autostart", Joi.boolean ▷ Joi.default (VBool true));
    ("spellCheckerLocale", spellCheckerLocaleSchema)]).

Definition teamSchemaV2 : Joi.schema :=
  Joi.object (Some [
    ("name", Joi.string ▷ Joi.required);
    ("url", Joi.string ▷ Joi.required);
    ("order", Joi.number ▷ Joi.integer ▷ Joi.min 0)]).

Definition configDataSchemaV2 : Joi.schema :=
  Joi.object (Some [
    ("version", Joi.number ▷ Joi.min 2 ▷ Joi.default (VNum (int 2)));
    ("teams", Joi.array ▷ Joi.items teamSchemaV2 ▷ Joi.default (VArr []));
    ("showTrayIcon", Joi.boolean ▷ Joi.default (VBool false));
    ("trayIconTheme", trayIconThemeSchema);
    ("minimizeToTray", Joi.boolean ▷ Joi.default (VBool false));
    ("notifications", notificationsSchema);
    ("showUnreadBadge", Joi.boolean ▷ Joi.default (VBool true));
    ("useSpellChecker", Joi.boolean ▷ Joi.default (VBool true));
    ("enableHardwareAcceleration", Joi.boolean ▷ Joi.default (VBool true));
    ("autostart", Joi.boolean ▷ Joi.default (VBool true));
    ("spellCheckerLocale", spellCheckerLocaleSchema);
    ("spellCheckerURL", Joi.string ▷ Joi.allow [Joi.LNull]);
    ("darkMode", Joi.boolean ▷ Joi.default (VBool false));
    ("downloadLocation", Joi.string)]).

Definition tabSchema : Joi.schema :=
  Joi.object (Some [
    ("name", Joi.string ▷ Joi.required);
    ("order", Joi.number ▷ Joi.integer ▷ Joi.min 0);
    ("isClosed", Joi.boolean ▷ Joi.default (VBool false))]).

Definition teamSchemaV3 : Joi.schema :=
  Joi.object (Some [
    ("name", Joi.string ▷ Joi.required);
    ("url", Joi.string ▷ Joi.required);
    ("order", Joi.number ▷ Joi.integer ▷ Joi.min 0);
    ("lastActiveTab", Joi.number ▷ Joi.integer ▷ Joi.min 0 ▷ Joi.default (VNum (int 0)));
    ("tabs", Joi.array ▷ Joi.items tabSchema ▷ Joi.default (VArr []))]).

Definition configDataSchemaV3 : Joi.schema :=
  Joi.object (Some [
    ("version", Joi.number ▷ Joi.min 2 ▷ Joi.default (VNum (int 2)));
    ("teams", Joi.array ▷ Joi.items teamSchemaV3 ▷ Joi.default (VArr []));
    ("showTrayIcon", Joi.boolean ▷ Joi.default (VBool false));
    ("trayIconTheme", trayIconThemeSchema);
    ("minimizeToTray", Joi.boolean ▷ Joi.default (VBool false));
    ("notifications", notificationsSchema);
    ("showUnreadBadge", Joi.boolean ▷ Joi.default (VBool true));
    ("useSpellChecker", Joi.boolean ▷ Joi.default (VBool true));
    ("enableHardwareAcceleration", Joi.boolean ▷ Joi.default (VBool true));
    ("autostart", Joi.boolean ▷ Joi.default (VBool true));
    ("spellCheckerLocale", spellCheckerLocaleSchema);
    ("spellCheckerURL", Joi.string ▷ Joi.allow [Joi.LNull]);
    ("darkMode", Joi.boolean ▷ Joi.default (VBool false));
    ("downloadLocation", Joi.string);
    ("lastActiveTeam", Joi.number ▷ Joi.integer ▷ Joi.min 0 ▷ Joi.default (VNum (int 0)))]).

Definition certificateStoreSchema : Joi.schema :=
  Joi.object None ▷ Joi.pattern (Joi.string ▷ Joi.uri)
    (Joi.object (Some [("data", Joi.string); ("issuerName", Joi.string)])).

Definition originPermissionsSchema : Joi.schema :=
  Joi.object None ▷ Joi.keys [("canBasicAuth", Joi.boolean ▷ Joi.default (VBool false))].

Definition trustedOriginsSchema : Joi.schema :=
  Joi.object (Some []) ▷ Joi.pattern (Joi.string ▷ Joi.uri)
    (Joi.object None ▷ Joi.keys [("canBasicAuth", Joi.boolean ▷ Joi.default (VBool false))]).

Definition allowedProtocolsSchema : Joi.schema :=
  Joi.array ▷ Joi.items (Joi.string ▷ Joi.regex protocolRx).

(** What the module takes from its surroundings. *)
Class Platform := {
  (** [urlUtils.isValidURL], of [common/utils/url]: the module is not part
      of the sources at hand and the predicate is left open: what it
      answers, and on which values other than strings it throws instead
      (it applies string methods to its argument). *)
  isValidURL : value → bool;
  isValidURL_throws : value → bool;
  (** The RFC 3986 test of the schema library and its reading of a decimal
      numeral as a double. *)
  uriRx : string → bool;
  numberOfString : string → Joi.coerced_number;
  (** [JSON.parse]; [None] when it throws a SyntaxError. *)
  JSON_parse : string → option value;
}.

Section Validators.

Context `{Platform}.

(** [schema.validate(data, defaultOptions)] *)
Definition schema_validate (schema : Joi.schema) (data : value) : Joi.vresult :=
  Joi.validate uriRx numberOfString schema [] data.

Definition validateAgainstSchema (data : value) (schema : option Joi.schema) : M value :=
  if negb (String.eqb (typeof data) "object") then
    _ ← log_error (NotAnObject (typeof data));
    mret VNull
  else
    match schema with
    | None =>
        _ ← log_error NoSchema;
        mret VNull
    | Some schema =>
        match schema_validate schema data with
        | Joi.Invalid error =>
            _ ← log_error (ValidationFailed error);
            mret VNull
        | Joi.Valid value => mret value
        end
    end.

Definition validateArgs (data : value) : M value :=
  validateAgainstSchema data (Some argsSchema).

Definition validateBoundsInfo (data : value) : M value :=
  validateAgainstSchema data (Some boundsInfoSchema).

Definition validateAppState (data : value) : M value :=
  validateAgainstSchema data (Some appStateSchema).

Definition validateV0ConfigData (data : value) : M value :=
  validateAgainstSchema data (Some configDataSchemaV0).

(** [Array.isArray(data.teams) && data.teams.length] *)
Definition nonempty_array (teams : value) : option (list value) :=
  match teams with
  | VArr (t :: l) => Some (t :: l)
  | _ => None
  end.

(** [teams.filter(({url}) => urlUtils.isValidURL(url))], on the objects
    the map before it has built. *)
Definition url_of (team : value) : value :=
  match team with
  | VObj m => default VUndefined (m !! "url")
  | _ => VUndefined
  end.

(** Modelled from the spec: the helper is not among the sources; the
    specification gives it as "a generic 'is syntactically valid URL'
    predicate (scheme + host present, parseable)", so on a string it
    answers.  On any other value it answers or throws a TypeError, as the
    platform has it. *)
Definition helper_throws (v : value) : bool :=
  match v with
  | VStr _ => false
  | _ => isValidURL_throws v
  end.

(** [urlUtils.isValidURL(v)] *)
Definition validURL (v : value) : M bool :=
  if helper_throws v then throw TypeError else mret (isValidURL v).

(** [l.filter(f)], left to right. *)
Fixpoint filterM {A} (f : A → M bool) (l : list A) : M (list A) :=
  match l with
  | [] => mret []
  | x :: rest =>
      keep ← f x;
      ys ← filterM f rest;
      mret (if keep : bool then x :: ys else ys)
  end.

(** The teams the filter keeps where the helper answers on each. *)
Definition keep_valid (teams : list value) : list value :=
  filter (λ team, isValidURL (url_of team) = true) teams.

(** [data.spellCheckerURL && !urlUtils.isValidURL(data.spellCheckerURL)]:
    the helper is called on a truthy value only. *)
Definition invalid_spellCheckerURL (spellCheckerURL : value) : M bool :=
  if truthy spellCheckerURL then
    valid ← validURL spellCheckerURL;
    mret (negb valid)
  else mret false.

Definition validateV1ConfigData (data : value) : M value :=
  data_teams ← get data "teams";
  data ← match nonempty_array data_teams with
         | Some teams =>
             teams ← mapM (λ team,
               name ← get team "name";
               url ← get team "url";
               has ← includes url;
               updatedURL ← (if has : bool then lowered url else mret url);
               mret (VObj (<["url" := updatedURL]> (<["name" := name]> ∅)))) teams;
             teams ← filterM (λ team, validURL (url_of team)) teams;
             mret (set data "teams" (VArr teams))
         | None => mret data
         end;
  validateAgainstSchema data (Some configDataSchemaV1).

Definition cleanURL (url : value) : M value :=
  has ← includes url;
  if has : bool then lowered url else mret url.

(** [{...team, url: cleanURL(team.url)}]: spreading copies the
    properties of an object; of the other values only strings and arrays
    have any, and reading their [url] has thrown before. *)
Definition spread_with_url (team : value) (url : value) : value :=
  match team with
  | VObj m => VObj (<["url" := url]> m)
  | _ => VObj (<["url" := url]> ∅)
  end.

Definition validateV2ConfigData (data : value) : M value :=
  data_teams ← get data "teams";
  data ← match nonempty_array data_teams with
         | Some teams =>
             teams ← mapM (λ team,
               team_url ← get team "url";
               url ← cleanURL team_url;
               mret (spread_with_url team url)) teams;
             teams ← filterM (λ team, validURL (url_of team)) teams;
             mret (set data "teams" (VArr teams))
         | None => mret data
         end;
  spellCheckerURL ← get data "spellCheckerURL";
  invalid ← invalid_spellCheckerURL spellCheckerURL;
  data ← (if invalid : bool then
            _ ← log_error InvalidSpellCheckerURL;
            mret (remove data "spellCheckerURL")
          else mret data);
  validateAgainstSchema data (Some configDataSchemaV2).

Definition validateV3ConfigData (data : value) : M value :=
  data_teams ← get data "teams";
  data ← match nonempty_array data_teams with
         | Some teams =>
             teams ← mapM (λ team,
               team_url ← get team "url";
               url ← cleanURL team_url;
               mret (spread_with_url team url)) teams;
             teams ← filterM (λ team, validURL (url_of team)) teams;
             mret (set data "teams" (VArr teams))
         | None => mret data
         end;
  spellCheckerURL ← get data "spellCheckerURL";
  invalid ← invalid_spellCheckerURL spellCheckerURL;
  data ← (if invalid : bool then
            _ ← log_error InvalidSpellCheckerURL;
            mret (remove data "spellCheckerURL")
          else mret data);
  validateAgainstSchema data (Some configDataSchemaV3).

(** [typeof data === 'object' ? data : JSON.parse(data)]; [JSON.parse]
    first turns its argument into a string, and the text of a finite
    number or of a boolean parses back to it. *)
Definition parse_unless_object (data : value) : M value :=
  match data with
  | VNull | VArr _ | VObj _ => mret data
  | VStr s =>
      match JSON_parse s with
      | Some v => mret v
      | None => throw SyntaxError
      end
  | VBool _ | VNum (Fin _) => mret data
  | VUndefined | VNum _ => throw SyntaxError
  end.

Definition validateCertificateStore (data : value) : M value :=
  jsonData ← parse_unless_object data;
  validateAgainstSchema jsonData (Some certificateStoreSchema).

Definition validateAllowedProtocols (data : value) : M value :=
  validateAgainstSchema data (Some allowedProtocolsSchema).

Definition validateTrustedOriginsStore (data : value) : M value :=
  jsonData ← parse_unless_object data;
  validateAgainstSchema jsonData (Some trustedOriginsSchema).

Definition validateOriginPermissions (data : value) : M value :=
  jsonData ← parse_unless_object data;
  validateAgainstSchema jsonData (Some originPermissionsSchema).

(** The steps of the three config validators, named for the statements
    about them: the rewriting of one team, the replacement of [teams], and
    the removal of a bad [spellCheckerURL]. *)
Definition rewriteTeamV1 (team : value) : M value :=
  name ← get team "name";
  url ← get team "url";
  has ← includes url;
  updatedURL ← (if has : bool then lowered url else mret url);
  mret (VObj (<["url" := updatedURL]> (<["name" := name]> ∅))).

Definition rewriteTeam (team : value) : M value :=
  team_url ← get team "url";
  url ← cleanURL team_url;
  mret (spread_with_url team url).

Definition replaceTeams (rewrite : value → M value) (data : value) : M value :=
  data_teams ← get data "teams";
  match nonempty_array data_teams with
  | Some teams =>
      teams ← mapM rewrite teams;
      teams ← filterM (λ team, validURL (url_of team)) teams;
      mret (set data "teams" (VArr teams))
  | None => mret data
  end.

Definition dropSpellCheckerURL (data : value) : M value :=
  spellCheckerURL ← get data "spellCheckerURL";
  invalid ← invalid_spellCheckerURL spellCheckerURL;
  if invalid : bool then
    _ ← log_error InvalidSpellCheckerURL;
    mret (remove data "spellCheckerURL")
  else mret data.

(** The validators by the kind of record they take. *)
Inductive kind :=
| Args
| BoundsInfo
| AppState
| V0ConfigData
| V1ConfigData
| V2ConfigData
| V3ConfigData
| CertificateStore
| AllowedProtocols
| TrustedOriginsStore
| OriginPermissions.

#[export] Instance kind_eq_dec : EqDecision kind.
Proof. solve_decision. Defined.

Definition schema_of (k : kind) : Joi.schema :=
  match k with
  | Args => argsSchema
  | BoundsInfo => boundsInfoSchema
  | AppState => appStateSchema
  | V0ConfigData => configDataSchemaV0
  | V1ConfigData => configDataSchemaV1
  | V2ConfigData => configDataSchemaV2
  | V3ConfigData => configDataSchemaV3
  | CertificateStore => certificateStoreSchema
  | AllowedProtocols => allowedProtocolsSchema
  | TrustedOriginsStore => trustedOriginsSchema
  | OriginPermissions => originPermissionsSchema
  end.

Definition validator (k : kind) : value → M value :=
  match k with
  | Args => validateArgs
  | BoundsInfo => validateBoundsInfo
  | AppState => validateAppState
  | V0ConfigData => validateV0ConfigData
  | V1ConfigData => validateV1ConfigData
  | V2ConfigData => validateV2ConfigData
  | V3ConfigData => validateV3ConfigData
  | CertificateStore => validateCertificateStore
  | AllowedProtocols => validateAllowedProtocols
  | TrustedOriginsStore => validateTrustedOriginsStore
  | OriginPermissions => validateOriginPermissions
  end.

(** What a validator does to its argument before it hands it to
    [validateAgainstSchema]. *)
Definition sanitize (k : kind) (data : value) : M value :=
  match k with
  | V1ConfigData => replaceTeams rewriteTeamV1 data
  | V2ConfigData | V3ConfigData =>
      data ← replaceTeams rewriteTeam data;
      dropSpellCheckerURL data
  | CertificateStore | TrustedOriginsStore | OriginPermissions =>
      parse_unless_object data
  | _ => mret data
  end.

(** The inputs of the declared types: a config object whose [teams], when
    it is an array, holds objects with a string for [url], and whose
    [spellCheckerURL], from V2 on, is a string if it is there and not [null]
    or undefined; for the three stores an object, or a text that
    [JSON.parse] accepts. *)
Definition team_typed (team : value) : Prop :=
  ∃ m u, team = VObj m ∧ m !! "url" = Some (VStr u).

Definition url_typed (v : value) : Prop :=
  v = VUndefined ∨ v = VNull ∨ ∃ s, v = VStr s.

Definition typed (k : kind) (data : value) : Prop :=
  match k with
  | V1ConfigData =>
      ∃ m, data = VObj m ∧
           ∀ teams, m !! "teams" = Some (VArr teams) → Forall team_typed teams
  | V2ConfigData | V3ConfigData =>
      ∃ m, data = VObj m ∧
           (∀ teams, m !! "teams" = Some (VArr teams) → Forall team_typed teams) ∧
           (∀ x, m !! "spellCheckerURL" = Some x → url_typed x)
  | CertificateStore | TrustedOriginsStore | OriginPermissions =>
      match data with
      | VStr s => is_Some (JSON_parse s)
      | VNull | VArr _ | VObj _ => True
      | _ => False
      end
  | _ => True
  end.

(** The rewriting of a team and the schema of a team, by the version of
    the config record. *)
Definition rewrite_of (k : kind) : value → M value :=
  match k with
  | V1ConfigData => rewriteTeamV1
  | _ => rewriteTeam
  end.

Definition teamSchema_of (k : kind) : Joi.schema :=
  match k with
  | V1ConfigData => teamSchemaV1
  | V2ConfigData => teamSchemaV2
  | _ => teamSchemaV3
  end.

(** The names a kind of record declares at its top level. *)
Definition declared (k : kind) (name : string) : bool :=
  Joi.declares uriRx numberOfString (schema_of k) name.

End Validators.

(** *** Notions for the statements about the validators *)

(** A team the rewriting goes through without throwing: an object whose
    [url] is a string, or an array that does not hold the one-character
    string of a backslash. *)
Definition can_rewrite (team : value) : bool :=
  match team with
  | VObj m =>
      match default VUndefined (m !! "url") with
      | VStr _ => true
      | VArr l =>
          negb (existsb (λ x, match x with
                              | VStr s => String.eqb s (String backslash EmptyString)
                              | _ => false
                              end) l)
      | _ => false
      end
  | _ => false
  end.

(** A team the rewriting and the filter go through without throwing:
    one that can be rewritten and on whose URL the helper answers (a string,
    or an array on which it does). *)
Definition team_passes `{Platform} (team : value) : bool :=
  can_rewrite team && negb (helper_throws (url_of team)).



(** Whether the filter of the teams throws: the helper does on the URL
    of one of them. *)
Definition teams_throw `{Platform} (teams : list value) : bool :=
  existsb (λ team, helper_throws (url_of team)) teams.

(** Whether the test of the spell-checker URL throws: the value is truthy
    and the helper throws on it. *)
Definition guard_throws `{Platform} (spellCheckerURL : value) : bool :=
  truthy spellCheckerURL && helper_throws spellCheckerURL.

(** Whether the preparation of a config record throws: one of the teams
    of a non-empty array does not pass, or, from V2 on, the test of the
    spell-checker URL throws. *)
Definition preparation_throws `{Platform} (k : kind) (m : gmap string value) : bool :=
  match nonempty_array (default VUndefined (m !! "teams")) with
  | Some teams => negb (forallb team_passes teams)
  | None => false
  end
  || match k with
     | V1ConfigData => false
     | _ => guard_throws (default VUndefined (m !! "spellCheckerURL"))
     end.

(** The minimum a config schema sets for [version]. *)
Definition min_version (k : kind) : Q :=
  match k with
  | V1ConfigData => 1
  | _ => 2
  end.

(** The values a config schema allows for [trayIconTheme]. *)
Definition is_theme (v : value) : bool :=
  match v with
  | VStr s => String.eqb s "" || String.eqb s "light" || String.eqb s "dark"
  | _ => false
  end.

(** The items [validateAllowedProtocols] lets through. *)
Definition is_protocol (v : value) : bool :=
  match v with
  | VStr s => protocolRx s
  | _ => false
  end.

(** A string of letters and hyphens. *)
Fixpoint scheme_units (s : string) : bool :=
  match s with
  | EmptyString => true
  | String c r => is_scheme_unit c && scheme_units r
  end.

(** The keys a kind of record declares, with their schemas; none for
    the stores, whose names come under a pattern. *)
Definition keys_of (k : kind) : list (string * Joi.schema) :=
  match schema_of k with
  | Joi.SObject _ (Some l) None => l
  | _ => []
  end.

(** The fields the schema of a team declares. *)
Definition team_fields (k : kind) : list string :=
  match teamSchema_of k with
  | Joi.SObject _ (Some l) _ => l.*1
  | _ => []
  end.

(** A field of the state of the app that passes: left out, or a text
    that is not empty. *)
Definition text_or_absent (v : value) : bool :=
  match v with
  | VUndefined => true
  | VStr s => negb (String.eqb s "")
  | _ => false
  end.

(** A number within the safe integers. *)
Definition safe (q : Q) : Prop :=
  (MIN_SAFE_INTEGER <= q)%Q ∧ (q <= MAX_SAFE_INTEGER)%Q.

(** The diagnostics with which [validateAgainstSchema] gives up. *)
Definition is_failure (d : diagnostic) : bool :=
  match d with
  | NotAnObject _ | NoSchema | ValidationFailed _ => true
  | InvalidSpellCheckerURL => false
  end.

(** Modelled from the spec: [urlUtils.isValidURL] of [common/utils/url]
    is not among the sources; the specification gives it as a syntactic
    test, "scheme + host present, parseable".  The examples take for a URL
    a string that starts with [http://] or [https://] and goes on. *)
Definition sampleIsValidURL (v : value) : bool :=
  match v with
  | VStr s =>
      String.prefix "http://" s && (7 <? String.length s)%nat
      || String.prefix "https://" s && (8 <? String.length s)%nat
  | _ => false
  end.

(** A scheme, up to its colon. *)
Fixpoint after_scheme (s : string) : bool :=
  match s with
  | EmptyString => false
  | String c r => Ascii.eqb c ":" || is_scheme_unit c && after_scheme r
  end.

(** The number a string of decimal digits denotes. *)
Fixpoint digits (s : string) (acc : Z) : option Z :=
  match s with
  | EmptyString => Some acc
  | String c r =>
      let n := N_of_ascii c in
      if ((48 <=? n) && (n <=? 57))%N
      then digits r (10 * acc + Z.of_N (n - 48))%Z
      else None
  end.

(** A platform to run the examples on; the statements themselves hold for
    every platform.  Its URL helper throws on the truthy numbers, booleans
    and arrays.  It takes for a URI a string with a scheme in front,
    reads the numerals of at most fifteen digits as numbers, and parses
    the three shortest JSON texts (no other text of the examples is
    JSON). *)
Definition examplePlatform : Platform := {|
  isValidURL := sampleIsValidURL;
  isValidURL_throws := λ v,
    match v with
    | VBool _ | VNum _ | VArr _ => truthy v
    | _ => false
    end;
  uriRx := λ s,
    match s with
    | String c r => (is_lower c || is_upper c) && after_scheme r
    | EmptyString => false
    end;
  numberOfString := λ s,
    if (0 <? String.length s)%nat && (String.length s <=? 15)%nat
    then match digits s 0 with
         | Some z => Joi.Converted (int z)
         | None => Joi.NotNumeric
         end
    else Joi.NotNumeric;
  JSON_parse := λ s,
    if String.eqb s "{}" then Some (VObj ∅)
    else if String.eqb s "[]" then Some (VArr [])
    else if String.eqb s "null" then Some VNull
    else None;
|}.

(** Records for the examples. *)
Definition record (l : list (string * value)) : value := VObj (list_to_map l).

Definition v2Defaults : list (string * value) :=
  [("version", VNum (int 2)); ("showTrayIcon", VBool false);
   ("trayIconTheme", VStr "light"); ("minimizeToTray", VBool false);
   ("showUnreadBadge", VBool true); ("useSpellChecker", VBool true);
   ("enableHardwareAcceleration", VBool true); ("autostart", VBool true);
   ("spellCheckerLocale", VStr "en-US"); ("darkMode", VBool false)].


Definition threeTeams : list value :=
  [record [("name", VStr "a"); ("url", VStr "HTTP:\\Foo.COM\x")];
   record [("name", VStr "b"); ("url", VStr "bad url")];
   record [("name", VStr "c"); ("url", VStr "https://c.example")]].

Definition twoTeamsKept : list value :=
  [record [("name", VStr "a"); ("url", VStr "http://foo.com/x")];
   record [("name", VStr "c"); ("url", VStr "https://c.example")]].

End Validator.

(** * Properties *)

(** ** The schema library *)

Lemma lookup_write_back k r (m : gmap string value) j :
  Joi.write_back k r m !! j =
    if decide (k = j)
    then match r with VUndefined => m !! k | _ => Some r end
    else m !! j.
Proof.
  unfold Joi.write_back. case_decide; subst.
  - destruct r; by rewrite ?lookup_insert_eq.
  - destruct r; by rewrite ?lookup_insert_ne.
Qed.

Lemma in_valids_obj ls m : Joi.in_valids ls (VObj m) = false.
Proof. induction ls as [|[] ls IH]; simpl; auto. Qed.

Lemma in_valids_arr ls l : Joi.in_valids ls (VArr l) = false.
Proof. induction ls as [|[] ls IH]; simpl; auto. Qed.

Lemma validate_unknown_None (m : gmap string value) :
  Joi.validate_unknown None m = inr ∅.
Proof.
  unfold Joi.validate_unknown. simpl.
  assert (∀ l : list (string * value),
    omap (λ kv, Joi.entry_error (Joi.pattern_entry None kv.1 kv.2)) l = []) as ->.
  { intros l. induction l as [|x l IH]; simpl; auto. }
  f_equal. apply map_eq. intros i.
  rewrite map_lookup_imap, lookup_empty. by destruct (m !! i).
Qed.

Lemma validate_object_keys_only ks p m :
  Joi.validate_object ks None p m =
    match Joi.validate_keys ks p m with
    | inl e => Joi.Invalid e
    | inr acc => Joi.Valid (VObj (filter (λ kv, kv.1 ∈ ks.*1) acc))
    end.
Proof.
  unfold Joi.validate_object. destruct (Joi.validate_keys ks p m); auto.
  rewrite validate_unknown_None. by rewrite (right_id_L ∅ (∪)).
Qed.

(** A key whose value its schema refuses makes the keys fail. *)
Lemma validate_keys_reject ks1 k child ks2 p (m : gmap string value) :
  k ∉ ks1.*1 →
  Joi.is_valid (child (p ++ [Joi.PKey k]) (default VUndefined (m !! k))) = false →
  ∃ e, Joi.validate_keys (ks1 ++ (k, child) :: ks2) p m = inl e.
Proof.
  revert m. induction ks1 as [|[k1 c1] ks1 IH]; intros m Hk Hbad; simpl.
  - destruct (child _ _); [done | eauto].
  - destruct (c1 _ _) as [r|e]; [|eauto].
    apply IH.
    + set_solver.
    + rewrite lookup_write_back. case_decide; [set_solver | done].
Qed.

(** What the keys give when they all pass. *)
Lemma validate_keys_inr ks p (m acc : gmap string value) :
  NoDup ks.*1 →
  Joi.validate_keys ks p m = inr acc →
  (∀ j, j ∉ ks.*1 → acc !! j = m !! j) ∧
  (∀ k child, (k, child) ∈ ks →
     ∃ r, child (p ++ [Joi.PKey k]) (default VUndefined (m !! k)) = Joi.Valid r
          ∧ acc !! k = match r with VUndefined => m !! k | _ => Some r end).
Proof.
  revert m. induction ks as [|[k0 c0] ks IH]; intros m Hnd Hrun; simpl in *.
  - simplify_eq. split; [done | set_solver].
  - apply NoDup_cons in Hnd as [Hk0 Hnd].
    destruct (c0 _ _) as [r0|e] eqn:Hc0; [|done].
    destruct (IH _ Hnd Hrun) as [Hout Hin]. split.
    + intros j Hj. rewrite Hout by set_solver.
      rewrite lookup_write_back. case_decide; [set_solver | done].
    + intros k child Hel. apply elem_of_cons in Hel as [Heq | Hel].
      * simplify_eq. exists r0. split; [done|].
        rewrite Hout by done. rewrite lookup_write_back. by case_decide.
      * destruct (Hin _ _ Hel) as [r [Hr Hacc]].
        assert (k0 ≠ k).
        { intros ->. apply Hk0. apply list_elem_of_fmap. by exists (k, child). }
        rewrite lookup_write_back in Hr, Hacc. case_decide; [done|]. eauto.
Qed.

(** Two objects that differ at one undeclared name go through the keys
    alike. *)
Lemma validate_keys_agree ks p (m1 m2 : gmap string value) k :
  k ∉ ks.*1 →
  (∀ j, j ≠ k → m1 !! j = m2 !! j) →
  match Joi.validate_keys ks p m1, Joi.validate_keys ks p m2 with
  | inl e1, inl e2 => e1 = e2
  | inr a1, inr a2 =>
      (∀ j, j ≠ k → a1 !! j = a2 !! j) ∧ a1 !! k = m1 !! k ∧ a2 !! k = m2 !! k
  | _, _ => False
  end.
Proof.
  revert m1 m2. induction ks as [|[k0 c0] ks IH]; intros m1 m2 Hk Hag; simpl.
  - done.
  - apply not_elem_of_cons in Hk as [Hne Hk].
    rewrite <- (Hag k0) by done.
    destruct (c0 _ _) as [r0|e]; [|done].
    specialize (IH (Joi.write_back k0 r0 m1) (Joi.write_back k0 r0 m2) Hk).
    rewrite !lookup_write_back in IH.
    destruct (decide (k0 = k)) as [->|_]; [done|].
    apply IH. intros j Hj. rewrite !lookup_write_back.
    case_decide; [subst j; by rewrite (Hag k0) | auto].
Qed.

Lemma NoDup_fst_functional {A B} (l : list (A * B)) k x y :
  NoDup l.*1 → (k, x) ∈ l → (k, y) ∈ l → x = y.
Proof.
  induction l as [|[k0 z] l IH]; simpl; intros Hnd Hx Hy.
  - by apply elem_of_nil in Hx.
  - apply NoDup_cons in Hnd as [Hk0 Hnd].
    apply elem_of_cons in Hx as [Hx|Hx], Hy as [Hy|Hy]; simplify_eq; auto.
    + exfalso. apply Hk0. apply list_elem_of_fmap. by exists (k0, y).
    + exfalso. apply Hk0. apply list_elem_of_fmap. by exists (k0, x).
Qed.

Lemma lookup_filter_keys (ks : list string) (m : gmap string value) j :
  filter (λ kv : string * value, kv.1 ∈ ks) m !! j =
    if decide (j ∈ ks) then m !! j else None.
Proof.
  apply option_eq. intros x. rewrite map_lookup_filter_Some. simpl.
  case_decide; naive_solver.
Qed.

(** Removing a property the pattern does not take changes nothing for the
    properties left over. *)
Lemma validate_unknown_delete pat (m : gmap string value) j :
  (∀ x, Joi.pattern_entry pat j x = None) →
  match Joi.validate_unknown pat (delete j m), Joi.validate_unknown pat m with
  | inr a, inr b => a = b
  | inl _, inl _ => True
  | _, _ => False
  end.
Proof.
  intros Hj. destruct (m !! j) as [x|] eqn:Hm.
  - unfold Joi.validate_unknown.
    assert (omap (λ kv, Joi.entry_error (Joi.pattern_entry pat kv.1 kv.2))
                 (map_to_list (delete j m))
            ≡ₚ omap (λ kv, Joi.entry_error (Joi.pattern_entry pat kv.1 kv.2))
                 (map_to_list m)) as Hperm.
    { rewrite <- (map_to_list_delete m j x Hm). simpl. by rewrite Hj. }
    destruct (omap _ (map_to_list (delete j m))) as [|e1 l1],
             (omap _ (map_to_list m)) as [|e2 l2]; try done.
    + apply map_eq. intros i. rewrite !map_lookup_imap.
      destruct (decide (i = j)) as [->|Hne].
      * rewrite lookup_delete_eq, Hm. simpl. by rewrite Hj.
      * by rewrite lookup_delete_ne.
    + by apply Permutation_nil_cons in Hperm.
    + symmetry in Hperm. by apply Permutation_nil_cons in Hperm.
  - rewrite delete_id by done. by destruct (Joi.validate_unknown pat m).
Qed.

Lemma validate_object_delete ks pat p (m : gmap string value) j :
  j ∉ ks.*1 → (∀ x, Joi.pattern_entry pat j x = None) →
  Joi.vvalue (Joi.validate_object ks pat p (delete j m))
    = Joi.vvalue (Joi.validate_object ks pat p m).
Proof.
  intros Hk Hj. unfold Joi.validate_object.
  pose proof (validate_keys_agree ks p (delete j m) m j Hk) as Hag.
  destruct (Joi.validate_keys ks p (delete j m)) as [e1|a1],
           (Joi.validate_keys ks p m) as [e2|a2]; try done.
  - exfalso. apply Hag. intros i Hi. by rewrite lookup_delete_ne.
  - exfalso. apply Hag. intros i Hi. by rewrite lookup_delete_ne.
  - destruct Hag as (Hoff & Hj1 & _); [intros i Hi; by rewrite lookup_delete_ne|].
    rewrite lookup_delete_eq in Hj1.
    assert (a1 = delete j a2) as ->.
    { apply map_eq. intros i. destruct (decide (i = j)) as [->|Hne].
      - by rewrite lookup_delete_eq.
      - rewrite lookup_delete_ne by done. by apply Hoff. }
    rewrite !map_filter_delete.
    pose proof (validate_unknown_delete pat
                  (filter (λ kv : string * value, kv.1 ∉ ks.*1) a2) j Hj) as Hun.
    destruct (Joi.validate_unknown pat (delete j _)) as [e|x1],
             (Joi.validate_unknown pat (filter _ a2)) as [e'|x2]; try done.
    subst. simpl. do 3 f_equal. apply delete_id.
    rewrite lookup_filter_keys. by case_decide.
Qed.

(** A property that is neither a declared key nor taken by the pattern is
    not in the result. *)
Lemma validate_object_strip ks pat p (m o : gmap string value) j :
  j ∉ ks.*1 → (∀ x, Joi.pattern_entry pat j x = None) →
  Joi.validate_object ks pat p m = Joi.Valid (VObj o) → o !! j = None.
Proof.
  intros Hk Hj. unfold Joi.validate_object.
  destruct (Joi.validate_keys ks p m) as [|acc]; [done|].
  unfold Joi.validate_unknown.
  destruct (omap _ _); [|done]. intros [= <-].
  apply lookup_union_None. split.
  - rewrite lookup_filter_keys. by case_decide.
  - rewrite map_lookup_imap. destruct (filter _ acc !! j); simpl; [|done].
    by rewrite Hj.
Qed.

(** Two objects that differ at one declared name, whose schema accepts
    both values, go through the other keys alike. *)
Lemma validate_keys_agree_in ks p (m1 m2 : gmap string value) k :
  NoDup ks.*1 →
  (∀ j, j ≠ k → m1 !! j = m2 !! j) →
  (∀ child, (k, child) ∈ ks →
     Joi.is_valid (child (p ++ [Joi.PKey k]) (default VUndefined (m1 !! k))) = true ∧
     Joi.is_valid (child (p ++ [Joi.PKey k]) (default VUndefined (m2 !! k))) = true) →
  match Joi.validate_keys ks p m1, Joi.validate_keys ks p m2 with
  | inl e1, inl e2 => e1 = e2
  | inr a1, inr a2 => ∀ j, j ≠ k → a1 !! j = a2 !! j
  | _, _ => False
  end.
Proof.
  revert m1 m2. induction ks as [|[k0 c0] ks IH]; intros m1 m2 Hnd Hag Hok; simpl.
  - done.
  - simpl in Hnd. apply NoDup_cons in Hnd as [Hk0 Hnd].
    destruct (decide (k0 = k)) as [->|Hne].
    + destruct (Hok c0) as [H1 H2]; [apply list_elem_of_here|].
      destruct (c0 _ (default VUndefined (m1 !! k))) as [r1|]; [|done].
      destruct (c0 _ (default VUndefined (m2 !! k))) as [r2|]; [|done].
      pose proof (validate_keys_agree ks p (Joi.write_back k r1 m1)
                    (Joi.write_back k r2 m2) k Hk0) as Hrest.
      destruct (Joi.validate_keys ks p (Joi.write_back k r1 m1)),
               (Joi.validate_keys ks p (Joi.write_back k r2 m2));
        try apply Hrest; try (intros j Hj; rewrite !lookup_write_back;
                              case_decide; [done | by apply Hag]).
    + rewrite <- (Hag k0) by done.
      destruct (c0 _ _) as [r0|e]; [|done].
      apply IH; [done | |].
      * intros j Hj. rewrite !lookup_write_back.
        case_decide; [subst j; by rewrite (Hag k0) | by apply Hag].
      * intros child Hin. rewrite !lookup_write_back.
        case_decide; [done|]. apply Hok. by apply list_elem_of_further.
Qed.

(** Induction on schemas, through the keys of an object. *)
Lemma schema_ind' (P : Joi.schema → Prop) :
  (∀ f, P (Joi.SAny f)) →
  (∀ f, P (Joi.SBoolean f)) →
  (∀ f r, P (Joi.SString f r)) →
  (∀ f r, P (Joi.SNumber f r)) →
  (∀ f, P (Joi.SArray f None)) →
  (∀ f it, P it → P (Joi.SArray f (Some it))) →
  (∀ f ks pat,
     match ks with Some l => Forall (λ x, P x.2) l | None => True end →
     match pat with Some (a, b) => P a ∧ P b | None => True end →
     P (Joi.SObject f ks pat)) →
  ∀ s, P s.
Proof.
  intros Hany Hbool Hstr Hnum Harr0 Harr Hobj.
  fix IH 1. intros [f|f|f r|f r|f [it|]|f [l|] [[a b]|]].
  - apply Hany.
  - apply Hbool.
  - apply Hstr.
  - apply Hnum.
  - apply Harr, IH.
  - apply Harr0.
  - apply Hobj.
    + induction l as [|[k s] l IHl]; constructor; [apply IH | exact IHl].
    + split; apply IH.
  - apply Hobj; [|exact I].
    induction l as [|[k s] l IHl]; constructor; [apply IH | exact IHl].
  - apply Hobj; [exact I|]. split; apply IH.
  - by apply Hobj.
Qed.

(** The items of an array: what passes, item by item. *)
Lemma validate_items_inr item p i (l l' : list value) :
  Joi.validate_items item p i l = inr l' →
  Forall2 (λ x y, ∃ j, item (p ++ [Joi.PIdx j]) x = Joi.Valid y
                       ∧ x ≠ VUndefined ∧ y ≠ VUndefined) l l'.
Proof.
  revert i l'. induction l as [|x l IH]; simpl; intros i l'.
  - intros [= <-]. constructor.
  - destruct x; try done;
      (destruct (item _ _) as [y|] eqn:Hy; [|done]);
      (destruct y; try done);
      (destruct (Joi.validate_items item p (S i) l) as [|rest] eqn:Hrest; [done|]);
      intros [= <-]; (constructor; [by eauto | by eauto]).
Qed.

(** Items that pass again unchanged make the array pass again
    unchanged. *)
Lemma validate_items_fixed item p i (l : list value) :
  Forall (λ y, y ≠ VUndefined ∧ ∀ q, item q y = Joi.Valid y) l →
  Joi.validate_items item p i l = inr l.
Proof.
  revert i. induction l as [|y l IH]; simpl; intros i Hall; [done|].
  apply Forall_cons in Hall as [[Hy Hfix] Hall].
  rewrite Hfix, IH by done. by destruct y.
Qed.

(** When every key passes, the keys pass. *)
Lemma validate_keys_intro ks p (m : gmap string value) :
  NoDup ks.*1 →
  (∀ k child, (k, child) ∈ ks →
     Joi.is_valid (child (p ++ [Joi.PKey k]) (default VUndefined (m !! k))) = true) →
  ∃ acc, Joi.validate_keys ks p m = inr acc.
Proof.
  revert m. induction ks as [|[k0 c0] ks IH]; simpl; intros m Hnd Hall; [eauto|].
  apply NoDup_cons in Hnd as [Hk0 Hnd].
  pose proof (Hall k0 c0 ltac:(apply list_elem_of_here)) as H0.
  destruct (c0 _ _) as [r0|]; [|done].
  apply IH; [done|]. intros k child Hin.
  rewrite lookup_write_back. case_decide as Hk.
  - subst. exfalso. apply Hk0. apply list_elem_of_fmap. by exists (k, child).
  - apply Hall. by apply list_elem_of_further.
Qed.

(** Keys whose results pass again unchanged make the result of the keys
    pass again unchanged. *)
Lemma validate_keys_twice ks p q (m acc : gmap string value) :
  NoDup ks.*1 →
  Joi.validate_keys ks p m = inr acc →
  (∀ k child v r, (k, child) ∈ ks →
     child (p ++ [Joi.PKey k]) v = Joi.Valid r →
     child (q ++ [Joi.PKey k]) r = Joi.Valid r
     ∧ (v ≠ VUndefined → r ≠ VUndefined)) →
  ∃ acc', Joi.validate_keys ks q (filter (λ kv, kv.1 ∈ ks.*1) acc) = inr acc'
          ∧ filter (λ kv, kv.1 ∈ ks.*1) acc' = filter (λ kv, kv.1 ∈ ks.*1) acc.
Proof.
  intros Hnd Hrun Hchild.
  destruct (validate_keys_inr _ _ _ _ Hnd Hrun) as [_ Hin].
  set (o := filter (λ kv : string * value, kv.1 ∈ ks.*1) acc).
  assert (∀ k child, (k, child) ∈ ks →
            ∃ r, child (q ++ [Joi.PKey k]) (default VUndefined (o !! k)) = Joi.Valid r
                 ∧ o !! k = match r with VUndefined => o !! k | _ => Some r end) as Hsnd.
  { intros k child Hel. destruct (Hin k child Hel) as (r & Hr & Hacc).
    destruct (Hchild _ _ _ _ Hel Hr) as [Hfix Hdef].
    assert (o !! k = acc !! k) as Hok.
    { unfold o. rewrite lookup_filter_keys. case_decide as Hk; [done|].
      exfalso. apply Hk. apply list_elem_of_fmap. by exists (k, child). }
    assert (default VUndefined (o !! k) = r) as Hor.
    { rewrite Hok, Hacc. destruct r; try done.
      destruct (m !! k) as [v|]; [|done]. simpl in *.
      destruct v; try done; exfalso; by apply Hdef. }
    exists r. rewrite Hor. split; [done|].
    rewrite Hok, Hacc. by destruct r. }
  destruct (validate_keys_intro ks q o Hnd) as [acc' Hrun'].
  { intros k child Hel. by destruct (Hsnd k child Hel) as (r & -> & _). }
  exists acc'. split; [exact Hrun'|].
  destruct (validate_keys_inr _ _ _ _ Hnd Hrun') as [_ Hin'].
  subst o. apply map_eq. intros j. rewrite !lookup_filter_keys.
  case_decide as Hj; [|done].
  apply list_elem_of_fmap in Hj as [[k child] [-> Hel]]. simpl.
  destruct (Hin' k child Hel) as (r' & Hr' & ->).
  destruct (Hsnd k child Hel) as (r & Hr & Ho).
  rewrite Hr in Hr'. injection Hr' as <-.
  rewrite <- Ho, lookup_filter_keys. case_decide as Hk; [done|].
  exfalso. apply Hk. apply list_elem_of_fmap. by exists (k, child).
Qed.

Section JoiFacts.

Variable uriRx : string → bool.
Variable numberOfString : string → Joi.coerced_number.

Local Abbreviation validate := (Joi.validate uriRx numberOfString).
Local Abbreviation children :=
  (map (λ ksk : string * Joi.schema, (ksk.1, Joi.validate uriRx numberOfString ksk.2))).

Lemma children_keys (l : list (string * Joi.schema)) : (children l).*1 = l.*1.
Proof. induction l as [|[k s] l IH]; simpl; by f_equal. Qed.

Lemma elem_of_children k child (l : list (string * Joi.schema)) :
  (k, child) ∈ children l ↔ ∃ s, child = validate s ∧ (k, s) ∈ l.
Proof.
  rewrite list_elem_of_fmap. split.
  - intros [[k' s] [Heq Hin]]. simpl in Heq. simplify_eq. eauto.
  - intros [s [-> Hin]]. by exists (k, s).
Qed.

(** An object schema with declared keys and no pattern, on an object. *)
Lemma validate_object_eq f l p m :
  Joi.f_only f = false →
  validate (Joi.SObject f (Some l) None) p (VObj m) =
    match Joi.validate_keys (children l) p m with
    | inl e => Joi.Invalid e
    | inr acc => Joi.Valid (VObj (filter (λ kv, kv.1 ∈ l.*1) acc))
    end.
Proof.
  intros Hf. simpl. unfold Joi.run. simpl.
  rewrite in_valids_obj, Hf, validate_object_keys_only.
  by rewrite children_keys.
Qed.

(** Such a schema refuses an object as soon as one of its keys does. *)
Lemma validate_object_rejects f l k s p (m : gmap string value) :
  Joi.f_only f = false → NoDup l.*1 → (k, s) ∈ l →
  Joi.is_valid (validate s (p ++ [Joi.PKey k]) (default VUndefined (m !! k))) = false →
  ∃ e, validate (Joi.SObject f (Some l) None) p (VObj m) = Joi.Invalid e.
Proof.
  intros Hf Hnd Hin Hbad. rewrite validate_object_eq by done.
  apply list_elem_of_split in Hin as (l1 & l2 & ->).
  rewrite fmap_app, fmap_cons in Hnd. apply NoDup_app in Hnd as (_ & Hdis & _).
  destruct (validate_keys_reject (children l1) k (validate s) (children l2) p m)
    as [e He]; [| done |].
  - rewrite children_keys. intros Hk. apply (Hdis _ Hk). simpl. apply list_elem_of_here.
  - exists e. rewrite map_app. simpl. by rewrite He.
Qed.

(** What it returns when it accepts: the declared keys only, each with
    the result of its schema (the property as it was when the result is
    undefined). *)
Lemma validate_object_accepts f l p (m : gmap string value) out :
  Joi.f_only f = false → NoDup l.*1 →
  validate (Joi.SObject f (Some l) None) p (VObj m) = Joi.Valid out →
  ∃ o, out = VObj o ∧
    (∀ j, j ∉ l.*1 → o !! j = None) ∧
    (∀ k s, (k, s) ∈ l →
       ∃ r, validate s (p ++ [Joi.PKey k]) (default VUndefined (m !! k)) = Joi.Valid r
            ∧ o !! k = match r with VUndefined => m !! k | _ => Some r end).
Proof.
  intros Hf Hnd. rewrite validate_object_eq by done.
  destruct (Joi.validate_keys _ _ _) as [e|acc] eqn:Hk; [done|].
  intros [= <-]. eexists; split; [done|].
  apply validate_keys_inr in Hk as [Hout Hin]; [|by rewrite children_keys].
  split.
  - intros j Hj. rewrite lookup_filter_keys. by case_decide.
  - intros k s Hel.
    destruct (Hin k (validate s)) as [r [Hr Hacc]]; [apply elem_of_children; eauto|].
    exists r. split; [done|]. rewrite lookup_filter_keys.
    case_decide as Hk'; [done|]. exfalso. apply Hk'.
    apply list_elem_of_fmap. by exists (k, s).
Qed.

Local Abbreviation pattern_tests p pat :=
  (match pat with
   | Some (sk, sr) =>
       Some (λ k : string, Joi.is_valid (validate sk p (VStr k)),
             λ (k : string) (item : value), validate sr (p ++ [Joi.PKey k]) item)
   | None => None
   end).

(** An object schema with keys or a pattern, on an object. *)
Lemma validate_object_general f ks pat p m :
  Joi.f_only f = false → is_Some ks ∨ is_Some pat →
  validate (Joi.SObject f ks pat) p (VObj m) =
    Joi.validate_object (children (default [] ks)) (pattern_tests p pat) p m.
Proof.
  intros Hf Hsome. simpl. unfold Joi.run. simpl. rewrite in_valids_obj, Hf.
  destruct ks as [l|], pat as [[sk sr]|]; try done.
  destruct Hsome as [[? [=]]|[? [=]]].
Qed.

Lemma undeclared_inv f ks pat j :
  Joi.declares uriRx numberOfString (Joi.SObject f ks pat) j = false →
  (j ∉ (children (default [] ks)).*1) ∧
  (∀ x, Joi.pattern_entry (pattern_tests [] pat) j x = None).
Proof.
  simpl. intros Hd. apply orb_false_iff in Hd as [Hk Hp]. split.
  - rewrite children_keys. by apply bool_decide_eq_false in Hk.
  - intros x. destruct pat as [[sk sr]|]; simpl; [|done]. by rewrite Hp.
Qed.

(** At the top level, a property the schema does not declare can be
    removed from the input without changing the value returned, and is
    never in that value. *)
Lemma validate_delete_undeclared f ks pat (m : gmap string value) j :
  Joi.f_only f = false → is_Some ks ∨ is_Some pat →
  Joi.declares uriRx numberOfString (Joi.SObject f ks pat) j = false →
  Joi.vvalue (validate (Joi.SObject f ks pat) [] (VObj (delete j m)))
    = Joi.vvalue (validate (Joi.SObject f ks pat) [] (VObj m)).
Proof.
  intros Hf Hsome Hd. apply undeclared_inv in Hd as [Hk Hp].
  rewrite !validate_object_general by done.
  by apply validate_object_delete.
Qed.

Lemma validate_strips_undeclared f ks pat (m o : gmap string value) j :
  Joi.f_only f = false → is_Some ks ∨ is_Some pat →
  Joi.declares uriRx numberOfString (Joi.SObject f ks pat) j = false →
  validate (Joi.SObject f ks pat) [] (VObj m) = Joi.Valid (VObj o) →
  o !! j = None.
Proof.
  intros Hf Hsome Hd. apply undeclared_inv in Hd as [Hk Hp].
  rewrite validate_object_general by done.
  by apply validate_object_strip.
Qed.

(** Changing the value of one declared key, from one its schema accepts
    to another, changes that key of the result and nothing else. *)
Lemma validate_object_change f l p (m1 m2 o2 : gmap string value) k s r1 :
  Joi.f_only f = false → NoDup l.*1 → (k, s) ∈ l →
  (∀ j, j ≠ k → m1 !! j = m2 !! j) →
  validate (Joi.SObject f (Some l) None) p (VObj m2) = Joi.Valid (VObj o2) →
  validate s (p ++ [Joi.PKey k]) (default VUndefined (m1 !! k)) = Joi.Valid r1 →
  r1 ≠ VUndefined →
  validate (Joi.SObject f (Some l) None) p (VObj m1)
    = Joi.Valid (VObj (<[k := r1]> o2)).
Proof.
  intros Hf Hnd Hin Hag H2 Hr1 Hdef.
  assert (k ∈ l.*1) as Hkl by (apply list_elem_of_fmap; by exists (k, s)).
  rewrite validate_object_eq in H2 |- * by done.
  destruct (Joi.validate_keys (children l) p m2) as [|a2] eqn:Hk2; [done|].
  injection H2 as <-.
  pose proof (validate_keys_agree_in (children l) p m1 m2 k) as Hrel.
  rewrite Hk2 in Hrel.
  destruct (validate_keys_inr _ _ _ _ ltac:(by rewrite children_keys) Hk2)
    as [_ Hin2].
  destruct (Joi.validate_keys (children l) p m1) as [|a1] eqn:Hk1.
  - exfalso. apply Hrel; [by rewrite children_keys | done |].
    intros child Hc. apply elem_of_children in Hc as (s' & -> & Hs').
    assert (s' = s) as ->.
    { eapply (NoDup_fst_functional l k); eauto. }
    rewrite Hr1. split; [done|].
    destruct (Hin2 k (validate s)) as (r & -> & _); [|done].
    apply elem_of_children. eauto.
  - destruct (validate_keys_inr _ _ _ _ ltac:(by rewrite children_keys) Hk1)
      as [_ Hin1].
    destruct (Hin1 k (validate s)) as (r & Hr & Ha1); [apply elem_of_children; eauto|].
    rewrite Hr1 in Hr. injection Hr as <-.
    assert (∀ j, j ≠ k → a1 !! j = a2 !! j) as Hoff.
    { apply Hrel; [by rewrite children_keys | done |].
      intros child Hc. apply elem_of_children in Hc as (s' & -> & Hs').
      assert (s' = s) as -> by (eapply (NoDup_fst_functional l k); eauto).
      rewrite Hr1. split; [done|].
      destruct (Hin2 k (validate s)) as (r & -> & _); [|done].
      apply elem_of_children. eauto. }
    do 2 f_equal. apply map_eq. intros j.
    rewrite lookup_insert, !lookup_filter_keys.
    destruct (decide (k = j)) as [<-|Hne].
    + rewrite decide_True by done. rewrite Ha1. by destruct r1.
    + case_decide; [|done]. by apply Hoff.
Qed.

(** *** Validating twice *)

Lemma coerce_defined s v v1 :
  v ≠ VUndefined → Joi.coerce numberOfString s v = inr v1 → v1 ≠ VUndefined.
Proof.
  intros Hv. destruct s, v; simpl; try (by intros [= <-]).
  - destruct (String.eqb _ "true"); [by intros [= <-]|].
    destruct (String.eqb _ "false"); by intros [= <-].
  - destruct (numberOfString s); by intros [= <-].
Qed.

Lemma coerce_twice s v v1 :
  Joi.coerce numberOfString s v = inr v1 → Joi.coerce numberOfString s v1 = inr v1.
Proof.
  destruct s, v; simpl; try (by intros [= <-]).
  - destruct (String.eqb _ "true") eqn:Ht; [by intros [= <-]|].
    destruct (String.eqb _ "false") eqn:Hf; intros [= <-]; [done|].
    simpl. by rewrite Ht, Hf.
  - destruct (numberOfString s) eqn:Hn; intros [= <-]; [|done].
    simpl. by rewrite Hn.
Qed.

(** What [run] does with a defined value. *)
Lemma run_defined s p base v :
  v ≠ VUndefined →
  Joi.run numberOfString s p base v =
    match Joi.coerce numberOfString s v with
    | inl c => Joi.Invalid (Joi.Error c p)
    | inr v1 =>
        if Joi.in_valids (Joi.f_valids (Joi.flags_of s)) v1 then Joi.Valid v1
        else if Joi.f_only (Joi.flags_of s) then Joi.Invalid (Joi.Error Joi.any_only p)
        else base v1
    end.
Proof.
  intros Hv. unfold Joi.run.
  replace (match v with VUndefined => inr v | _ => Joi.coerce numberOfString s v end)
    with (Joi.coerce numberOfString s v) by by destruct v.
  destruct (Joi.coerce numberOfString s v) as [c|v1] eqn:Hc; [done|].
  apply coerce_defined in Hc; [|done]. by destruct v1.
Qed.

Lemma run_undefined s p base :
  Joi.run numberOfString s p base VUndefined =
    match Joi.f_presence (Joi.flags_of s) with
    | Joi.Required => Joi.Invalid (Joi.Error Joi.any_required p)
    | Joi.Optional => Joi.Valid (default VUndefined (Joi.f_default (Joi.flags_of s)))
    end.
Proof. reflexivity. Qed.

Lemma validate_undefined s p :
  validate s p VUndefined =
    match Joi.f_presence (Joi.flags_of s) with
    | Joi.Required => Joi.Invalid (Joi.Error Joi.any_required p)
    | Joi.Optional => Joi.Valid (default VUndefined (Joi.f_default (Joi.flags_of s)))
    end.
Proof. by destruct s. Qed.

(** A default, or the absence of one, passes again. *)
Lemma validate_undefined_twice s p r :
  Joi.default_ok uriRx numberOfString s →
  validate s p VUndefined = Joi.Valid r → validate s p r = Joi.Valid r.
Proof.
  intros Hd. rewrite validate_undefined.
  destruct (Joi.f_presence _) eqn:Hp; [|done].
  unfold Joi.default_ok in Hd.
  destruct (Joi.f_default _) as [d|] eqn:Hdf; simpl; intros [= <-]; [done|].
  by rewrite validate_undefined, Hp, Hdf.
Qed.

(** Only the undefined value gives an undefined result. *)
Lemma valid_defined s p v r :
  v ≠ VUndefined → validate s p v = Joi.Valid r → r ≠ VUndefined.
Proof.
  intros Hv.
  assert (∀ base, (∀ v1 r, v1 ≠ VUndefined → base v1 = Joi.Valid r → r ≠ VUndefined) →
            Joi.run numberOfString s p base v = Joi.Valid r → r ≠ VUndefined) as Hrun.
  { intros base Hbase. rewrite run_defined by done.
    destruct (Joi.coerce numberOfString s v) as [|v1] eqn:Hc; [done|].
    apply coerce_defined in Hc; [|done].
    destruct (Joi.in_valids _ _); [by intros [= <-]|].
    destruct (Joi.f_only _); [done|]. by apply Hbase. }
  destruct s as [f|f|f rules|f rules|f its|f ks pat]; simpl; apply Hrun; clear Hrun.
  - by intros v1 r' ? [= <-].
  - intros v1 r' ?. destruct v1; try done; by intros [= <-].
  - intros v1 r' ?. unfold Joi.string_base_check. destruct v1; try done. simpl.
    destruct (String.eqb s ""); [done|].
    destruct (Joi.first_failure _ _ _); [done|]. by intros [= <-].
  - intros v1 r' ?. unfold Joi.number_base_check. destruct v1 as [| | |[| | |q]| | |]; try done.
    simpl. destruct (_ || _); [done|].
    destruct (Joi.first_failure _ _ _); [done|]. by intros [= <-].
  - intros v1 r' ?. destruct v1; try done. destruct its; [|by intros [= <-]].
    destruct (Joi.validate_items _ _ _ _); [done|]. by intros [= <-].
  - intros v1 r' ?. destruct ks, pat; (destruct v1; try done);
      try (by intros [= <-]);
      unfold Joi.validate_object; destruct (Joi.validate_keys _ _ _); try done;
      destruct (Joi.validate_unknown _ _); try done; by intros [= <-].
Qed.

Lemma run_twice s p q base base' v r :
  v ≠ VUndefined →
  (∀ v1 r, v1 ≠ VUndefined → Joi.coerce numberOfString s v1 = inr v1 →
     base v1 = Joi.Valid r →
     Joi.coerce numberOfString s r = inr r ∧ base' r = Joi.Valid r ∧ r ≠ VUndefined) →
  Joi.run numberOfString s p base v = Joi.Valid r →
  Joi.run numberOfString s q base' r = Joi.Valid r.
Proof.
  intros Hv Hbase. rewrite run_defined by done.
  destruct (Joi.coerce numberOfString s v) as [|v1] eqn:Hc; [done|].
  pose proof (coerce_defined _ _ _ Hv Hc) as Hv1.
  apply coerce_twice in Hc.
  destruct (Joi.in_valids _ v1) eqn:Hin.
  - intros [= <-]. by rewrite run_defined, Hc, Hin.
  - destruct (Joi.f_only _) eqn:Ho; [done|]. intros Hb.
    destruct (Hbase _ _ Hv1 Hc Hb) as (Hcr & Hbr & Hr).
    rewrite run_defined, Hcr, Ho by done. by destruct (Joi.in_valids _ r).
Qed.

Lemma settled_keys l :
  foldr (λ (ksk : string * Joi.schema) rest,
           Joi.settled uriRx numberOfString ksk.2 ∧ rest) True l →
  Forall (λ ksk, Joi.settled uriRx numberOfString ksk.2) l.
Proof. induction l as [|x l IH]; simpl; [constructor|]. intros [? ?]. constructor; auto. Qed.

(** What a settled schema returns, it returns again when given it, at
    whatever place. *)
Lemma validate_twice s :
  Joi.settled uriRx numberOfString s →
  ∀ p v r, validate s p v = Joi.Valid r → ∀ q, validate s q r = Joi.Valid r.
Proof.
  induction s as [f|f|f rules|f rules|f|f it IH|f ks pat IHks IHpat] using schema_ind';
    intros Hset p v r Hv q;
    (assert (Joi.default_ok uriRx numberOfString _) as Hdef by apply Hset);
    (assert (v = VUndefined ∨ v ≠ VUndefined) as [->|Hdefined]
       by (destruct v; auto));
    try (rewrite validate_undefined in Hv;
         destruct (Joi.f_presence _) eqn:Hp; [|done];
         unfold Joi.default_ok in Hdef;
         destruct (Joi.f_default _) as [d|] eqn:Hdf; simpl in Hv;
         injection Hv as <-; [by apply Hdef | by rewrite validate_undefined, Hp, Hdf]).
  - simpl in *. eapply run_twice; [done| |exact Hv].
    intros v1 r1 ? ? [= <-]. done.
  - simpl in *. eapply run_twice; [done| |exact Hv].
    intros v1 r1 ? ?. destruct v1; try done; by intros [= <-].
  - simpl in *. eapply run_twice; [done| |exact Hv].
    intros v1 r1 ? ?. unfold Joi.lift_check.
    destruct (Joi.string_base_check uriRx rules v1) as [|v'] eqn:Hb; [done|].
    intros [= <-].
    assert (v' = v1) as ->.
    { unfold Joi.string_base_check in Hb. destruct v1; try done.
      destruct (String.eqb s ""); [done|].
      destruct (Joi.first_failure _ _ _); [done|]. by injection Hb as <-. }
    by rewrite Hb.
  - simpl in *. eapply run_twice; [done| |exact Hv].
    intros v1 r1 ? ?. unfold Joi.lift_check.
    destruct (Joi.number_base_check rules v1) as [|v'] eqn:Hb; [done|].
    intros [= <-].
    assert (v' = v1) as ->.
    { unfold Joi.number_base_check in Hb. destruct v1 as [| | |[| | |x]| | |]; try done.
      destruct (_ || _); [done|].
      destruct (Joi.first_failure _ _ _); [done|]. by injection Hb as <-. }
    by rewrite Hb.
  - simpl in *. eapply run_twice; [done| |exact Hv].
    intros v1 r1 ? ?. destruct v1; try done. by intros [= <-].
  - simpl in *. eapply run_twice; [done| |exact Hv].
    intros v1 r1 ? ?. destruct v1 as [| | | | |l|]; try done.
    destruct (Joi.validate_items _ p 0 l) as [|l'] eqn:Hitems; [done|].
    intros [= <-]. split; [done|]. split; [|done].
    rewrite validate_items_fixed; [done|].
    apply validate_items_inr in Hitems.
    destruct Hset as [_ Hit].
    clear -Hitems IH Hit.
    induction Hitems as [|x y l l' (j & Hj & _ & Hy) _ IHl]; [constructor|].
    constructor; [|exact IHl].
    split; [done|]. intros q'. by eapply IH.
  - destruct ks as [l|], pat as [[sk sr]|]; try (by destruct Hset as [_ []]).
    + destruct Hset as (_ & Hnd & Hall). apply settled_keys in Hall.
      simpl in Hv |- *. eapply run_twice; [done| |exact Hv].
      intros v1 r1 ? ?. destruct v1 as [| | | | | |m]; try done.
      rewrite validate_object_keys_only.
      destruct (Joi.validate_keys _ p m) as [|acc] eqn:Hk; [done|].
      intros [= <-]. split; [done|]. split; [|done].
      rewrite validate_object_keys_only.
      destruct (validate_keys_twice (children l) p q m acc) as (acc' & -> & ->);
        [by rewrite children_keys | done | | done].
      intros k child v' r' Hel Hr.
      apply elem_of_children in Hel as (s & -> & Hs).
      rewrite Forall_forall in IHks, Hall.
      split.
      * eapply (IHks (k, s)); [done | by apply (Hall (k, s)) | exact Hr].
      * intros Hv'. by eapply valid_defined.
    + simpl in Hv |- *. eapply run_twice; [done| |exact Hv].
      intros v1 r1 ? ?. destruct v1; try done. by intros [= <-].
Qed.

(** *** Arrays, objects and required strings that pass *)

Lemma validate_array_defined f it p v r :
  Joi.f_valids f = [] → Joi.f_only f = false → v ≠ VUndefined →
  validate (Joi.SArray f (Some it)) p v = Joi.Valid r →
  ∃ l l', v = VArr l ∧ r = VArr l'
          ∧ Joi.validate_items (validate it) p 0 l = inr l'.
Proof.
  intros Hv Ho Hdef. simpl. rewrite run_defined by done. simpl. rewrite Hv, Ho. simpl.
  destruct v as [| | | | |l|]; try done.
  destruct (Joi.validate_items _ _ _ _) as [|l'] eqn:Hl; [done|].
  intros [= <-]. eauto.
Qed.

Lemma validate_object_defined f l p v r :
  Joi.f_valids f = [] → Joi.f_only f = false → v ≠ VUndefined →
  validate (Joi.SObject f (Some l) None) p v = Joi.Valid r →
  ∃ m, v = VObj m.
Proof.
  intros Hv Ho Hdef. simpl. rewrite run_defined by done. simpl. rewrite Hv, Ho. simpl.
  destruct v; try done. eauto.
Qed.

Lemma validate_required_string p v r :
  validate (Joi.required Joi.string) p v = Joi.Valid r →
  ∃ u, v = VStr u ∧ r = VStr u.
Proof.
  destruct v; try done. simpl. unfold Joi.run. simpl.
  destruct (String.eqb s ""); [done|]. intros [= <-]. eauto.
Qed.

Lemma validate_array_eq f it p l :
  Joi.f_only f = false →
  validate (Joi.SArray f (Some it)) p (VArr l) =
    match Joi.validate_items (validate it) p 0 l with
    | inl e => Joi.Invalid e
    | inr l' => Joi.Valid (VArr l')
    end.
Proof. intros Hf. simpl. unfold Joi.run. simpl. by rewrite in_valids_arr, Hf. Qed.

End JoiFacts.

(** ** The validators *)

Section ValidatorFacts.

Import Validator.
Context `{Platform}.

Local Abbreviation validate := (Joi.validate uriRx numberOfString).

Lemma validateAgainstSchema_object (m : gmap string value) (s : Joi.schema) :
  validateAgainstSchema (VObj m) (Some s) =
    match schema_validate s (VObj m) with
    | Joi.Invalid e => ([ValidationFailed e], Returned VNull)
    | Joi.Valid v => ([], Returned v)
    end.
Proof. unfold validateAgainstSchema. simpl. by destruct (schema_validate s (VObj m)). Qed.

Lemma first_failure_app {A R} (check : R → A → option Joi.error_code) r1 r2 a :
  Joi.first_failure check (r1 ++ r2) a =
    match Joi.first_failure check r1 a with
    | Some c => Some c
    | None => Joi.first_failure check r2 a
    end.
Proof. induction r1 as [|r r1 IH]; simpl; [done|]. by destruct (check r a). Qed.

(** A number below the minimum of a number schema is refused, whatever
    the other rules. *)
Lemma number_min_rejects f rules1 limit rules2 p n :
  Joi.f_valids f = [] →
  num_ltb n (Fin limit) = true →
  Joi.is_valid (validate (Joi.SNumber f (rules1 ++ Joi.RMin limit :: rules2)) p (VNum n))
    = false.
Proof.
  intros Hv Hlt. simpl. unfold Joi.run. simpl. rewrite Hv. simpl.
  destruct (Joi.f_only f); [done|].
  destruct n as [| | |q]; simpl in *; try done.
  destruct (negb (Qle_bool q MAX_SAFE_INTEGER) || negb (Qle_bool MIN_SAFE_INTEGER q));
    [done|].
  rewrite first_failure_app.
  destruct (Joi.first_failure _ rules1 q); [done|]. simpl.
  apply negb_true_iff in Hlt. by rewrite Hlt.
Qed.

(** A required key that is missing is refused, default or not. *)
Lemma required_rejects_undefined s p :
  Joi.f_presence (Joi.flags_of s) = Joi.Required →
  Joi.is_valid (validate s p VUndefined) = false.
Proof. intros Hp. destruct s; simpl in *; unfold Joi.run; simpl; by rewrite Hp. Qed.

Lemma bounds_keys_NoDup :
  NoDup (match boundsInfoSchema with
         | Joi.SObject _ (Some l) _ => l.*1
         | _ => []
         end).
Proof. apply (bool_decide_unpack _). by vm_compute. Qed.

Lemma validateBoundsInfo_rejects k s (m : gmap string value) :
  (k, s) ∈ match boundsInfoSchema with Joi.SObject _ (Some l) _ => l | _ => [] end →
  Joi.is_valid (validate s [Joi.PKey k] (default VUndefined (m !! k))) = false →
  ∃ e, validateBoundsInfo (VObj m) = ([ValidationFailed e], Returned VNull).
Proof.
  intros Hin Hbad. unfold validateBoundsInfo.
  rewrite validateAgainstSchema_object. unfold schema_validate.
  destruct (validate_object_rejects uriRx numberOfString Joi.no_flags _ k s [] m
              eq_refl bounds_keys_NoDup Hin Hbad) as [e He].
  exists e. unfold boundsInfoSchema, Joi.object. by rewrite He.
Qed.

(** C3: a record handed to [validateBoundsInfo] whose [width] is a number
    below 400, or whose [height] is a number below 240, is rejected as a
    whole: the result is [null] (with the validation failure logged), never
    a record with the value clamped or replaced by the default. *)
Theorem C3_bounds_below_minimum_is_null (m : gmap string value) (n : number) :
  (m !! "width" = Some (VNum n) ∧ num_ltb n (Fin minWindowWidth) = true) ∨
  (m !! "height" = Some (VNum n) ∧ num_ltb n (Fin minWindowHeight) = true) →
  ∃ e, validateBoundsInfo (VObj m) = ([ValidationFailed e], Returned VNull).
Proof.
  intros [[Hm Hlt] | [Hm Hlt]].
  - apply (validateBoundsInfo_rejects "width"
      (Joi.default (VNum (int defaultWindowWidth))
         (Joi.required (Joi.min minWindowWidth (Joi.integer Joi.number))))).
    + apply list_elem_of_In. simpl. tauto.
    + rewrite Hm. simpl default.
      by apply (number_min_rejects _ [Joi.RInteger] minWindowWidth []).
  - apply (validateBoundsInfo_rejects "height"
      (Joi.default (VNum (int defaultWindowHeight))
         (Joi.required (Joi.min minWindowHeight (Joi.integer Joi.number))))).
    + apply list_elem_of_In. simpl. tauto.
    + rewrite Hm. simpl default.
      by apply (number_min_rejects _ [Joi.RInteger] minWindowHeight []).
Qed.

(** C7, as the code has it: a record without [width], or without
    [height], is rejected; the declared default of a required key is never
    filled in.  In particular [validateBoundsInfo({})] is [null]. *)
Theorem C7_bounds_missing_size_is_null (m : gmap string value) :
  m !! "width" = None ∨ m !! "height" = None →
  ∃ e, validateBoundsInfo (VObj m) = ([ValidationFailed e], Returned VNull).
Proof.
  intros [Hm | Hm].
  - apply (validateBoundsInfo_rejects "width"
      (Joi.default (VNum (int defaultWindowWidth))
         (Joi.required (Joi.min minWindowWidth (Joi.integer Joi.number))))).
    + apply list_elem_of_In. simpl. tauto.
    + rewrite Hm. by apply required_rejects_undefined.
  - apply (validateBoundsInfo_rejects "height"
      (Joi.default (VNum (int defaultWindowHeight))
         (Joi.required (Joi.min minWindowHeight (Joi.integer Joi.number))))).
    + apply list_elem_of_In. simpl. tauto.
    + rewrite Hm. by apply required_rejects_undefined.
Qed.

Lemma bounds_empty_record_is_null :
  validateBoundsInfo (VObj ∅) =
    ([ValidationFailed (Joi.Error Joi.any_required [Joi.PKey "width"])], Returned VNull).
Proof. reflexivity. Qed.

(** C2: on a string, [cleanURL] returns it lowercased with every backslash
    turned into a slash when it contains a backslash, and returns it
    unchanged (not lowercased) when it contains none. *)
Theorem C2_cleanURL (url : string) :
  cleanURL (VStr url) =
    mret (VStr (if includes_backslash url
                then replace_backslashes (toLowerCase url)
                else url))
  ∧ cleanURL (VStr "HTTPS://Foo.COM\bar") = mret (VStr "https://foo.com/bar")
  ∧ cleanURL (VStr "https://Foo.com/bar") = mret (VStr "https://Foo.com/bar").
Proof.
  split; [|split; reflexivity].
  unfold cleanURL. simpl. by destruct (includes_backslash url).
Qed.

(** C8: every field of [Args] is optional, so [validateArgs({})] returns
    the (empty) normalized record; an input that is not an object, such as
    a string, gives [null] with the received type logged, and so do the two
    objects that are not records, [null] itself and an array. *)
Theorem C8_validateArgs :
  validateArgs (VObj ∅) = ([], Returned (VObj ∅))
  ∧ validateArgs (VStr "not an object") = ([NotAnObject "string"], Returned VNull)
  ∧ (∀ s, validateArgs (VStr s) = ([NotAnObject "string"], Returned VNull))
  ∧ (∀ n, validateArgs (VNum n) = ([NotAnObject "number"], Returned VNull))
  ∧ (∀ b, validateArgs (VBool b) = ([NotAnObject "boolean"], Returned VNull))
  ∧ validateArgs VUndefined = ([NotAnObject "undefined"], Returned VNull)
  ∧ validateArgs VNull =
      ([ValidationFailed (Joi.Error Joi.object_base [])], Returned VNull)
  ∧ (∀ l, validateArgs (VArr l) =
      ([ValidationFailed (Joi.Error Joi.object_base [])], Returned VNull)).
Proof. repeat split; try reflexivity. Qed.

(** *** The shape of the validators *)

Lemma M_bind_assoc {A B C} (m : M A) (f : A → M B) (g : B → M C) :
  (m ≫= f) ≫= g = m ≫= (λ a, f a ≫= g).
Proof.
  destruct m as [l [a|e]]; simpl; [|done].
  destruct (f a) as [l1 [b|e]]; simpl; [|done].
  destruct (g b) as [l2 r]. by rewrite app_assoc.
Qed.

Lemma M_bind_ext {A B} (m : M A) (f g : A → M B) :
  (∀ a, f a = g a) → m ≫= f = m ≫= g.
Proof. intros Hfg. destruct m as [l [a|e]]; simpl; [|done]. by rewrite Hfg. Qed.

Lemma M_bind_ret {A B} (a : A) (f : A → M B) : mret a ≫= f = f a.
Proof. simpl. by destruct (f a). Qed.

Lemma M_bind_returned {A B} (m : M A) (f : A → M B) log b :
  m ≫= f = (log, Returned b) →
  ∃ l1 a l2, m = (l1, Returned a) ∧ f a = (l2, Returned b) ∧ log = l1 ++ l2.
Proof.
  destruct m as [l1 [a|e]]; simpl; [|done].
  destruct (f a) as [l2 r] eqn:Hf. intros [= <- ->]. eauto 10.
Qed.

(** Every validator is its preparation followed by
    [validateAgainstSchema] with the schema of its kind. *)
Lemma validator_eq k data :
  validator k data =
    sanitize k data ≫= λ d, validateAgainstSchema d (Some (schema_of k)).
Proof.
  destruct k; simpl validator; simpl sanitize; simpl schema_of;
    try (symmetry; apply M_bind_ret); try reflexivity.
  - unfold validateV1ConfigData, replaceTeams, rewriteTeamV1.
    symmetry. apply M_bind_assoc.
  - unfold validateV2ConfigData, replaceTeams, dropSpellCheckerURL, rewriteTeam.
    symmetry. rewrite !M_bind_assoc.
    apply M_bind_ext; intros dt. apply M_bind_ext; intros d.
    rewrite M_bind_assoc. apply M_bind_ext; intros sp. apply M_bind_assoc.
  - unfold validateV3ConfigData, replaceTeams, dropSpellCheckerURL, rewriteTeam.
    symmetry. rewrite !M_bind_assoc.
    apply M_bind_ext; intros dt. apply M_bind_ext; intros d.
    rewrite M_bind_assoc. apply M_bind_ext; intros sp. apply M_bind_assoc.
Qed.

(** *** The preparation of a config record *)

Lemma cleanURL_silent u : ∃ r, cleanURL u = ([], r).
Proof.
  unfold cleanURL. destruct u; simpl; eauto.
  - destruct (includes_backslash s); simpl; eauto.
  - destruct (existsb _ items); simpl; eauto.
Qed.

Lemma rewriteTeam_silent t : ∃ r, rewriteTeam t = ([], r).
Proof.
  unfold rewriteTeam. destruct t; simpl; eauto;
    try (destruct (cleanURL _) as [l [u|e]] eqn:Hc;
         destruct (cleanURL_silent VUndefined) as [r Hr];
         rewrite Hr in Hc; simplify_eq; simpl; eauto).
  destruct (cleanURL_silent (default VUndefined (props !! "url"))) as [r ->].
  destruct r; simpl; eauto.
Qed.

Lemma rewriteTeamV1_silent t : ∃ r, rewriteTeamV1 t = ([], r).
Proof.
  unfold rewriteTeamV1. destruct t; simpl; eauto.
  destruct (default VUndefined (props !! "url")) as [| | | |u|l|]; simpl; eauto.
  - destruct (includes_backslash u); simpl; eauto.
  - destruct (existsb _ l); simpl; eauto.
Qed.

Lemma mapM_silent {A B} (f : A → M B) l :
  (∀ a, ∃ r, f a = ([], r)) → ∃ r, mapM f l = ([], r).
Proof.
  intros Hf. induction l as [|a l [r IH]]; simpl; [eauto|].
  destruct (Hf a) as [[b|e] ->]; simpl; [|eauto].
  rewrite IH. destruct r; simpl; eauto.
Qed.

Lemma validURL_eq v :
  validURL v =
    if helper_throws v then ([], Threw TypeError) else ([], Returned (isValidURL v)).
Proof. unfold validURL. by destruct (helper_throws v). Qed.

(** The filter throws where the helper throws on a team, and keeps the
    teams with a valid URL otherwise. *)
Lemma filterM_keep_valid ts :
  filterM (λ team, validURL (url_of team)) ts =
    if teams_throw ts then ([], Threw TypeError) else ([], Returned (keep_valid ts)).
Proof.
  unfold teams_throw, keep_valid. induction ts as [|t ts IH]; [done|].
  cbn [filterM existsb]. rewrite (validURL_eq (url_of t)).
  destruct (helper_throws (url_of t)); [done|]. simpl. rewrite IH.
  destruct (existsb _ ts); [done|]. simpl. rewrite filter_cons.
  by destruct (isValidURL (url_of t)).
Qed.

Lemma replaceTeams_object rw (m : gmap string value) :
  (∀ t, ∃ r, rw t = ([], r)) →
  replaceTeams rw (VObj m) =
    match nonempty_array (default VUndefined (m !! "teams")) with
    | Some teams =>
        match (mapM rw teams).2 with
        | Returned ts =>
            if teams_throw ts then ([], Threw TypeError)
            else ([], Returned (VObj (<["teams" := VArr (keep_valid ts)]> m)))
        | Threw e => ([], Threw e)
        end
    | None => ([], Returned (VObj m))
    end.
Proof.
  intros Hrw. unfold replaceTeams. simpl.
  destruct (nonempty_array _) as [teams|]; [|done].
  destruct (mapM_silent rw teams Hrw) as [r ->]. destruct r as [ts|e]; [|done].
  simpl. rewrite filterM_keep_valid. by destruct (teams_throw ts).
Qed.

Lemma dropSpellCheckerURL_object (m : gmap string value) :
  dropSpellCheckerURL (VObj m) =
    if guard_throws (default VUndefined (m !! "spellCheckerURL"))
    then ([], Threw TypeError)
    else if truthy (default VUndefined (m !! "spellCheckerURL"))
            && negb (isValidURL (default VUndefined (m !! "spellCheckerURL")))
    then ([InvalidSpellCheckerURL], Returned (VObj (delete "spellCheckerURL" m)))
    else ([], Returned (VObj m)).
Proof.
  unfold dropSpellCheckerURL, invalid_spellCheckerURL, guard_throws, validURL. simpl.
  destruct (truthy _); [|done]. destruct (helper_throws _); [done|]. simpl.
  by destruct (isValidURL _).
Qed.

(** The preparation turns an object into an object, or throws. *)
Lemma sanitize_object k (m : gmap string value) log d :
  sanitize k (VObj m) = (log, Returned d) → ∃ m', d = VObj m'.
Proof.
  destruct k; simpl; try (intros [= <- <-]; eauto).
  - rewrite (replaceTeams_object _ _ rewriteTeamV1_silent).
    destruct (nonempty_array _); [destruct (mapM _ _).2; [destruct (teams_throw _)|]|];
      intros [= <- <-]; eauto.
  - rewrite (replaceTeams_object _ _ rewriteTeam_silent).
    destruct (nonempty_array _); [destruct (mapM _ _).2; [destruct (teams_throw _)|]|];
      simpl; rewrite ?dropSpellCheckerURL_object;
      try destruct (guard_throws _); try destruct (_ && _);
      intros [= <- <-]; eauto.
  - rewrite (replaceTeams_object _ _ rewriteTeam_silent).
    destruct (nonempty_array _); [destruct (mapM _ _).2; [destruct (teams_throw _)|]|];
      simpl; rewrite ?dropSpellCheckerURL_object;
      try destruct (guard_throws _); try destruct (_ && _);
      intros [= <- <-]; eauto.
Qed.

Lemma validateAgainstSchema_value (m : gmap string value) (s : Joi.schema) :
  (validateAgainstSchema (VObj m) (Some s)).2
    = Returned (default VNull (Joi.vvalue (schema_validate s (VObj m)))).
Proof.
  rewrite validateAgainstSchema_object. by destruct (schema_validate s (VObj m)).
Qed.

Lemma schema_of_object k :
  k ≠ AllowedProtocols →
  ∃ f ks pat, schema_of k = Joi.SObject f ks pat ∧ Joi.f_only f = false
              ∧ (is_Some ks ∨ is_Some pat).
Proof.
  intros Hk. destruct k; try done;
    (eexists _, _, _; split; [reflexivity|]; split; [reflexivity|]);
    first [left; by eexists | right; by eexists].
Qed.

Lemma declared_teams k :
  k ∈ [V1ConfigData; V2ConfigData; V3ConfigData] → declared k "teams" = true.
Proof. intros Hk. repeat (apply elem_of_cons in Hk as [->|Hk]; [done|]). by apply elem_of_nil in Hk. Qed.

Lemma declared_spellCheckerURL k :
  k ∈ [V2ConfigData; V3ConfigData] → declared k "spellCheckerURL" = true.
Proof. intros Hk. repeat (apply elem_of_cons in Hk as [->|Hk]; [done|]). by apply elem_of_nil in Hk. Qed.

(** Removing from the input a property other than [teams] removes it from
    the output of [replaceTeams], and changes nothing else. *)
Lemma replaceTeams_delete rw (m : gmap string value) j :
  (∀ t, ∃ r, rw t = ([], r)) → j ≠ "teams" →
  replaceTeams rw (VObj (delete j m))
    = replaceTeams rw (VObj m) ≫= λ d, mret (remove d j).
Proof.
  intros Hrw Hj. rewrite !replaceTeams_object by done.
  rewrite lookup_delete_ne by done.
  destruct (nonempty_array _); [destruct (mapM _ _).2; [destruct (teams_throw _)|]|];
    simpl; try done.
  by rewrite delete_insert_ne.
Qed.

Lemma dropSpellCheckerURL_delete (m : gmap string value) j :
  j ≠ "spellCheckerURL" →
  dropSpellCheckerURL (VObj (delete j m))
    = dropSpellCheckerURL (VObj m) ≫= λ d, mret (remove d j).
Proof.
  intros Hj. rewrite !dropSpellCheckerURL_object.
  rewrite lookup_delete_ne by done.
  destruct (guard_throws _); [done|].
  destruct (_ && _); simpl; [|done]. by rewrite (delete_delete m).
Qed.

Lemma sanitize_delete k (m : gmap string value) j :
  declared k j = false →
  sanitize k (VObj (delete j m)) = sanitize k (VObj m) ≫= λ d, mret (remove d j).
Proof.
  intros Hj. destruct k; simpl; try done.
  - apply replaceTeams_delete; [apply rewriteTeamV1_silent|].
    intros ->. by rewrite (declared_teams V1ConfigData) in Hj by set_solver.
  - assert (j ≠ "teams") as Ht.
    { intros ->. by rewrite (declared_teams V2ConfigData) in Hj by set_solver. }
    assert (j ≠ "spellCheckerURL") as Hs.
    { intros ->. by rewrite (declared_spellCheckerURL V2ConfigData) in Hj by set_solver. }
    rewrite replaceTeams_delete by (done || apply rewriteTeam_silent).
    rewrite !M_bind_assoc. apply M_bind_ext. intros d.
    rewrite M_bind_ret. destruct d; try done.
    by apply dropSpellCheckerURL_delete.
  - assert (j ≠ "teams") as Ht.
    { intros ->. by rewrite (declared_teams V3ConfigData) in Hj by set_solver. }
    assert (j ≠ "spellCheckerURL") as Hs.
    { intros ->. by rewrite (declared_spellCheckerURL V3ConfigData) in Hj by set_solver. }
    rewrite replaceTeams_delete by (done || apply rewriteTeam_silent).
    rewrite !M_bind_assoc. apply M_bind_ext. intros d.
    rewrite M_bind_ret. destruct d; try done.
    by apply dropSpellCheckerURL_delete.
Qed.

Lemma M_bind_outcome {A B} (m : M A) (f : A → M B) :
  (m ≫= f).2 = match m.2 with Returned a => (f a).2 | Threw e => Threw e end.
Proof. destruct m as [l [a|e]]; simpl; [|done]. by destruct (f a). Qed.

Lemma validator_outcome k data :
  (validator k data).2 =
    match (sanitize k data).2 with
    | Returned d => (validateAgainstSchema d (Some (schema_of k))).2
    | Threw e => Threw e
    end.
Proof. by rewrite validator_eq, M_bind_outcome. Qed.

Lemma sanitize_object_outcome k (m : gmap string value) d :
  (sanitize k (VObj m)).2 = Returned d → ∃ m', d = VObj m'.
Proof.
  destruct (sanitize k (VObj m)) as [log r] eqn:Hs. simpl. intros ->.
  by eapply sanitize_object.
Qed.

(** C6: for every validator and every record, a top-level field that the
    schema of the validator does not declare is absent from the record
    returned, and its presence in the input changes nothing in what the
    validator returns (so it never turns a record into [null]): the result
    with the field [j] set to any value [x] is the result without it. *)
Theorem C6_undeclared_fields_stripped k (m : gmap string value) j :
  declared k j = false →
  (∀ o, (validator k (VObj m)).2 = Returned (VObj o) → o !! j = None)
  ∧ (∀ x, (validator k (VObj (<[j := x]> m))).2
          = (validator k (VObj (delete j m))).2).
Proof.
  intros Hj. split.
  - intros o. rewrite validator_outcome.
    destruct (sanitize k (VObj m)).2 as [d|e] eqn:Hs; [|done].
    apply sanitize_object_outcome in Hs as [m' ->].
    rewrite validateAgainstSchema_value. intros [= Ho].
    destruct (decide (k = AllowedProtocols)) as [->|Hk]; [done|].
    destruct (schema_of_object k Hk) as (f & ks & pat & Hsch & Hf & Hsome).
    unfold declared, schema_validate in *. rewrite Hsch in *.
    destruct (Joi.validate _ _ _ _ _) as [v|] eqn:Hv; [|done].
    simpl in Ho. subst v.
    by eapply validate_strips_undeclared.
  - intros x. rewrite <- (delete_insert_eq m j x).
    generalize (<[j:=x]> m). clear m. intros m.
    rewrite !validator_outcome, sanitize_delete, M_bind_outcome by done.
    destruct (sanitize k (VObj m)).2 as [d|e] eqn:Hs; [|done].
    apply sanitize_object_outcome in Hs as [m' ->]. simpl.
    rewrite !validateAgainstSchema_value. do 2 f_equal.
    destruct (decide (k = AllowedProtocols)) as [->|Hk]; [done|].
    destruct (schema_of_object k Hk) as (f & ks & pat & Hsch & Hf & Hsome).
    unfold declared, schema_validate in *. rewrite Hsch in *.
    symmetry. by apply validate_delete_undeclared.
Qed.

(** *** A bad [spellCheckerURL] *)

Lemma optional_undefined s p :
  Joi.f_presence (Joi.flags_of s) = Joi.Optional →
  validate s p VUndefined = Joi.Valid (default VUndefined (Joi.f_default (Joi.flags_of s))).
Proof. intros Hp. destruct s; simpl in *; unfold Joi.run; simpl; by rewrite Hp. Qed.

Lemma sanitize_bad_spellCheckerURL k (m : gmap string value) x :
  k ∈ [V2ConfigData; V3ConfigData] →
  m !! "spellCheckerURL" = Some x → truthy x = true → isValidURL x = false →
  guard_throws x = false →
  (∃ e, sanitize k (VObj m) = ([], Threw e)
        ∧ sanitize k (VObj (delete "spellCheckerURL" m)) = ([], Threw e))
  ∨ (∃ d, sanitize k (VObj m) = ([InvalidSpellCheckerURL], Returned (VObj d))
          ∧ sanitize k (VObj (delete "spellCheckerURL" m)) = ([], Returned (VObj d))
          ∧ d !! "spellCheckerURL" = None).
Proof.
  intros Hk Hm Ht Hv Hg.
  assert (sanitize k = λ data, data ← replaceTeams rewriteTeam data;
                               dropSpellCheckerURL data) as ->.
  { repeat (apply elem_of_cons in Hk as [->|Hk]; [done|]). by apply elem_of_nil in Hk. }
  rewrite !(replaceTeams_object _ _ rewriteTeam_silent).
  rewrite lookup_delete_ne by done.
  destruct (nonempty_array _) as [teams|];
    [destruct (mapM _ _).2 as [ts|e]; [destruct (teams_throw ts)|]|]; simpl.
  - left. eauto.
  - right. eexists. rewrite !dropSpellCheckerURL_object.
    rewrite lookup_insert_ne, Hm by done. simpl. rewrite Hg, Ht, Hv. simpl.
    rewrite lookup_insert_ne, lookup_delete_eq by done. simpl.
    split; [done|]. split; [by rewrite delete_insert_ne | apply lookup_delete_eq].
  - left. eauto.
  - right. eexists. rewrite !dropSpellCheckerURL_object.
    rewrite Hm. simpl. rewrite Hg, Ht, Hv. simpl. rewrite lookup_delete_eq. simpl.
    split; [done|]. split; [done | apply lookup_delete_eq].
Qed.

Lemma config_keys_NoDup k :
  NoDup (match schema_of k with
         | Joi.SObject _ (Some l) _ => l.*1
         | _ => []
         end).
Proof. destruct k; apply (bool_decide_unpack _); by vm_compute. Qed.

(** A record without [spellCheckerURL] comes out of the schema of V2 and
    of V3 without it. *)
Lemma no_spellCheckerURL_out k (d o : gmap string value) :
  k ∈ [V2ConfigData; V3ConfigData] →
  d !! "spellCheckerURL" = None →
  schema_validate (schema_of k) (VObj d) = Joi.Valid (VObj o) →
  o !! "spellCheckerURL" = None.
Proof.
  intros Hk Hd Hv. pose proof (config_keys_NoDup k) as Hnd.
  unfold schema_validate in Hv.
  repeat (apply elem_of_cons in Hk as [->|Hk]);
    [| |by apply elem_of_nil in Hk];
    (apply validate_object_accepts in Hv as (o' & [= <-] & _ & Hin);
     [|done|exact Hnd];
     destruct (Hin "spellCheckerURL" (Joi.allow [Joi.LNull] Joi.string)) as (r & Hr & ->);
     [apply list_elem_of_In; simpl; tauto|];
     rewrite Hd in Hr |- *; rewrite optional_undefined in Hr by done;
     by injection Hr as <-).
Qed.

(** C5, as the code has it: when [spellCheckerURL] holds a string that
    is not empty and is not a valid URL, [validateV2ConfigData] and
    [validateV3ConfigData] return what they return for the record without
    the field, the field is absent from the record returned, and, unless
    the preparation of [teams] has thrown before, the diagnostic is logged
    in front of what that other call logs. *)
Theorem C5_bad_spellCheckerURL_removed k (m : gmap string value) (url : string) :
  k ∈ [V2ConfigData; V3ConfigData] →
  m !! "spellCheckerURL" = Some (VStr url) → url ≠ "" →
  isValidURL (VStr url) = false →
  (validator k (VObj m)).2 = (validator k (VObj (delete "spellCheckerURL" m))).2
  ∧ (∀ o, (validator k (VObj m)).2 = Returned (VObj o) → o !! "spellCheckerURL" = None)
  ∧ ((∀ e, (validator k (VObj m)).2 ≠ Threw e) →
       (validator k (VObj m)).1
         = InvalidSpellCheckerURL :: (validator k (VObj (delete "spellCheckerURL" m))).1).
Proof.
  intros Hk Hm Ht Hv. rewrite !validator_eq.
  assert (truthy (VStr url) = true) as Htruthy.
  { simpl. apply negb_true_iff. by apply String.eqb_neq. }
  assert (guard_throws (VStr url) = false) as Hg.
  { unfold guard_throws. simpl. apply andb_false_r. }
  destruct (sanitize_bad_spellCheckerURL k m (VStr url) Hk Hm Htruthy Hv Hg)
    as [(e & -> & ->) | (d & -> & -> & Hd)]; simpl.
  - split; [done|]. split; [done|]. intros Hne. by destruct (Hne e).
  - rewrite validateAgainstSchema_object.
    destruct (schema_validate (schema_of k) (VObj d)) as [v|e] eqn:Hsv; simpl.
    + split; [done|]. split; [|done].
      intros o [= ->]. by eapply no_spellCheckerURL_out.
    + split; [done|]. split; done.
Qed.

(** *** The [version] of a V3 record *)

Lemma validator_returned k (m : gmap string value) log v :
  validator k (VObj m) = (log, Returned v) →
  ∃ l1 d l2, sanitize k (VObj m) = (l1, Returned (VObj d))
             ∧ validateAgainstSchema (VObj d) (Some (schema_of k)) = (l2, Returned v)
             ∧ log = l1 ++ l2.
Proof.
  rewrite validator_eq.
  destruct (sanitize k (VObj m)) as [l1 [d|e]] eqn:Hs; simpl; [|done].
  destruct (sanitize_object _ _ _ _ Hs) as [m' ->].
  destruct (validateAgainstSchema _ _) as [l2 r] eqn:Hv. intros [= <- ->].
  by eexists _, _, _.
Qed.

Lemma replaceTeams_insert rw (m : gmap string value) j x :
  (∀ t, ∃ r, rw t = ([], r)) → j ≠ "teams" →
  replaceTeams rw (VObj (<[j := x]> m))
    = replaceTeams rw (VObj m) ≫= λ d, mret (set d j x).
Proof.
  intros Hrw Hj. rewrite !replaceTeams_object by done.
  rewrite lookup_insert_ne by done.
  destruct (nonempty_array _); [destruct (mapM _ _).2; [destruct (teams_throw _)|]|]; simpl; try done.
  by rewrite insert_insert_ne.
Qed.

Lemma dropSpellCheckerURL_insert (m : gmap string value) j x :
  j ≠ "spellCheckerURL" →
  dropSpellCheckerURL (VObj (<[j := x]> m))
    = dropSpellCheckerURL (VObj m) ≫= λ d, mret (set d j x).
Proof.
  intros Hj. rewrite !dropSpellCheckerURL_object.
  rewrite lookup_insert_ne by done.
  destruct (guard_throws _); [done|].
  destruct (_ && _); simpl; [|done]. by rewrite delete_insert_ne.
Qed.

(** The preparation of a V2 or V3 record leaves every property but
    [teams] and [spellCheckerURL] as it is. *)
Lemma sanitize_insert k (m : gmap string value) j x :
  k ∈ [V2ConfigData; V3ConfigData] → j ≠ "teams" → j ≠ "spellCheckerURL" →
  sanitize k (VObj (<[j := x]> m)) = sanitize k (VObj m) ≫= λ d, mret (set d j x).
Proof.
  intros Hk Ht Hs.
  assert (sanitize k = λ data, data ← replaceTeams rewriteTeam data;
                               dropSpellCheckerURL data) as ->.
  { repeat (apply elem_of_cons in Hk as [->|Hk]; [done|]). by apply elem_of_nil in Hk. }
  rewrite replaceTeams_insert by (done || apply rewriteTeam_silent).
  rewrite !M_bind_assoc. apply M_bind_ext. intros d.
  rewrite M_bind_ret. destruct d; try done.
  by apply dropSpellCheckerURL_insert.
Qed.

Lemma sanitize_lookup k (m d : gmap string value) log j :
  j ≠ "teams" → j ≠ "spellCheckerURL" →
  sanitize k (VObj m) = (log, Returned (VObj d)) → d !! j = m !! j.
Proof.
  intros Ht Hs. destruct k; simpl; try (by intros [= <- <-]).
  - rewrite (replaceTeams_object _ _ rewriteTeamV1_silent).
    destruct (nonempty_array _); [destruct (mapM _ _).2; [destruct (teams_throw _)|]|]; intros [= <- <-];
      by rewrite ?lookup_insert_ne.
  - rewrite (replaceTeams_object _ _ rewriteTeam_silent).
    destruct (nonempty_array _); [destruct (mapM _ _).2; [destruct (teams_throw _)|]|]; simpl;
      rewrite ?dropSpellCheckerURL_object; try destruct (guard_throws _); try destruct (_ && _);
      intros [= <- <-]; by rewrite ?lookup_delete_ne, ?lookup_insert_ne.
  - rewrite (replaceTeams_object _ _ rewriteTeam_silent).
    destruct (nonempty_array _); [destruct (mapM _ _).2; [destruct (teams_throw _)|]|]; simpl;
      rewrite ?dropSpellCheckerURL_object; try destruct (guard_throws _); try destruct (_ && _);
      intros [= <- <-]; by rewrite ?lookup_delete_ne, ?lookup_insert_ne.
Qed.

(** On an object, the preparation of a config record throws nothing but
    a TypeError. *)
Lemma cleanURL_throws u log e : cleanURL u = (log, Threw e) → e = TypeError.
Proof.
  unfold cleanURL. destruct u; simpl; try by intros [= <- <-].
  - destruct (includes_backslash s); simpl; by intros [=].
  - destruct (existsb _ items); simpl; intros [=]; done.
Qed.

Lemma rewriteTeam_throws t log e : rewriteTeam t = (log, Threw e) → e = TypeError.
Proof.
  unfold rewriteTeam. destruct t; simpl; try by intros [= <- <-].
  destruct (cleanURL _) as [l [u|e']] eqn:Hc; simpl; [done|].
  intros [= <- <-]. by eapply cleanURL_throws.
Qed.

Lemma rewriteTeamV1_throws t log e : rewriteTeamV1 t = (log, Threw e) → e = TypeError.
Proof.
  unfold rewriteTeamV1. destruct t; simpl; try by intros [= <- <-].
  destruct (default VUndefined (props !! "url")) as [| | | |u|l|]; simpl;
    try by intros [= <- <-].
  - destruct (includes_backslash u); simpl; by intros [=].
  - destruct (existsb _ l); simpl; intros [=]; done.
Qed.

Lemma mapM_throws {A B} (f : A → M B) l log e :
  (∀ a log e, f a = (log, Threw e) → e = TypeError) →
  mapM f l = (log, Threw e) → e = TypeError.
Proof.
  intros Hf. revert log. induction l as [|a l IH]; simpl; intros log; [done|].
  destruct (f a) as [l1 [b|e1]] eqn:Hfa; simpl.
  - destruct (mapM f l) as [l2 [bs|e2]] eqn:Hm; simpl; [done|].
    intros [= <- <-]. by eapply IH.
  - intros [= <- <-]. by eapply Hf.
Qed.

Lemma sanitize_config_throws k (m : gmap string value) log e :
  k ∈ [V1ConfigData; V2ConfigData; V3ConfigData] →
  sanitize k (VObj m) = (log, Threw e) → e = TypeError.
Proof.
  intros Hk.
  repeat (apply elem_of_cons in Hk as [->|Hk]);
    [| | |by apply elem_of_nil in Hk]; simpl;
    unfold replaceTeams; simpl;
    (destruct (nonempty_array _) as [teams|]; simpl;
     [destruct (mapM _ teams) as [l [ts|e']] eqn:Hm; simpl;
      [rewrite filterM_keep_valid; destruct (teams_throw ts); simpl|]|]);
    rewrite ?dropSpellCheckerURL_object;
    try destruct (guard_throws _); try destruct (_ && _); try done;
    intros [= <- <-]; try done;
    (eapply mapM_throws; [|exact Hm]);
    eauto using rewriteTeam_throws, rewriteTeamV1_throws.
Qed.

Lemma number_min_accepts limit p q d :
  (limit <= q)%Q → (MIN_SAFE_INTEGER <= limit)%Q → (q <= MAX_SAFE_INTEGER)%Q →
  validate (Joi.default d (Joi.min limit Joi.number)) p (VNum (Fin q))
    = Joi.Valid (VNum (Fin q)).
Proof.
  intros Hlo Hmin Hhi. simpl. unfold Joi.run. simpl.
  assert (Qle_bool q MAX_SAFE_INTEGER = true) as -> by by apply Qle_bool_iff.
  assert (Qle_bool MIN_SAFE_INTEGER q = true) as ->.
  { apply Qle_bool_iff. by eapply Qle_trans. }
  simpl. by assert (Qle_bool limit q = true) as -> by by apply Qle_bool_iff.
Qed.

Lemma v3_version_in :
  ("version", Joi.default (VNum (int 2)) (Joi.min 2 Joi.number))
    ∈ match configDataSchemaV3 with Joi.SObject _ (Some l) _ => l | _ => [] end.
Proof. apply list_elem_of_In. simpl. tauto. Qed.

(** C10, as the code has it: the V3 schema takes for [version] a number
    from 2 (2 included) up to the largest safe integer, and fills in 2
    when there is none.  With such a version a record is accepted whenever
    it is accepted without one, and comes out with that version; with a
    version below 2 no record is returned ([null], or the TypeError of the
    rewriting of [teams]); a record accepted without [version] comes out
    with version 2. *)
Theorem C10_v3_version_from_2 (m : gmap string value) :
  (∀ q log o,
     (2 <= q)%Q → (q <= MAX_SAFE_INTEGER)%Q →
     validateV3ConfigData (VObj (delete "version" m)) = (log, Returned (VObj o)) →
     validateV3ConfigData (VObj (<["version" := VNum (Fin q)]> m))
       = (log, Returned (VObj (<["version" := VNum (Fin q)]> o))))
  ∧ (∀ n, m !! "version" = Some (VNum n) → num_ltb n (Fin 2) = true →
       (validateV3ConfigData (VObj m)).2 = Returned VNull
       ∨ (validateV3ConfigData (VObj m)).2 = Threw TypeError)
  ∧ (∀ log o, m !! "version" = None →
       validateV3ConfigData (VObj m) = (log, Returned (VObj o)) →
       o !! "version" = Some (VNum (int 2))).
Proof.
  pose proof (config_keys_NoDup V3ConfigData) as Hnd.
  pose proof v3_version_in as Hin.
  split; [|split].
  - intros q log o Hlo Hhi Hrun.
    change validateV3ConfigData with (validator V3ConfigData) in *.
    apply validator_returned in Hrun as (l1 & d & l2 & Hs & Hv & ->).
    rewrite <- (insert_delete_eq m), validator_eq.
    rewrite sanitize_insert, Hs by (done || set_solver). simpl.
    rewrite validateAgainstSchema_object in Hv |- *.
    destruct (schema_validate _ (VObj d)) as [v|] eqn:Hd; [|done].
    injection Hv as <- ->. unfold schema_validate in *.
    erewrite (validate_object_change _ _ Joi.no_flags _ _ (<["version" := VNum (Fin q)]> d) d o
                "version" _ (VNum (Fin q)) eq_refl Hnd Hin); try done.
    + by rewrite !app_nil_r.
    + intros j Hj. by rewrite lookup_insert_ne.
    + rewrite lookup_insert_eq. by apply number_min_accepts.
  - intros n Hm Hlt.
    change validateV3ConfigData with (validator V3ConfigData).
    rewrite validator_outcome.
    destruct (sanitize V3ConfigData (VObj m)) as [l [d|e]] eqn:Hs; simpl.
    + left. destruct (sanitize_object _ _ _ _ Hs) as [m' ->].
      rewrite validateAgainstSchema_value. do 2 f_equal.
      destruct (validate_object_rejects uriRx numberOfString Joi.no_flags _ _ _ [] m'
                  eq_refl Hnd Hin) as [e He].
      * rewrite (sanitize_lookup _ _ _ _ "version" ltac:(done) ltac:(done) Hs), Hm.
        by apply (number_min_rejects _ [] 2 []).
      * unfold schema_validate. simpl schema_of.
        unfold configDataSchemaV3, Joi.object. by rewrite He.
    + right. f_equal. eapply sanitize_config_throws; [|exact Hs]. set_solver.
  - intros log o Hm Hrun.
    change validateV3ConfigData with (validator V3ConfigData) in *.
    apply validator_returned in Hrun as (l1 & d & l2 & Hs & Hv & ->).
    rewrite validateAgainstSchema_object in Hv.
    destruct (schema_validate _ (VObj d)) as [v|] eqn:Hd; [|done].
    injection Hv as <- ->. unfold schema_validate in Hd.
    apply validate_object_accepts in Hd as (o' & [= <-] & _ & Hall); [|done|exact Hnd].
    destruct (Hall _ _ Hin) as (r & Hr & ->).
    rewrite (sanitize_lookup _ _ _ _ "version" ltac:(done) ltac:(done) Hs), Hm in Hr.
    rewrite optional_undefined in Hr by done. by injection Hr as <-.
Qed.

(** *** The teams of a config record *)

Lemma mapM_returned {A B} (f : A → M B) l log l' :
  mapM f l = (log, Returned l') →
  Forall2 (λ a b, ∃ lg, f a = (lg, Returned b)) l l'.
Proof.
  revert log l'. induction l as [|a l IH]; simpl; intros log l'.
  - intros [= <- <-]. constructor.
  - destruct (f a) as [l1 [b|e]] eqn:Hfa; simpl; [|done].
    destruct (mapM f l) as [l2 [bs|e]] eqn:Hm; simpl; [|done].
    intros [= <- <-]. constructor; eauto.
Qed.

Lemma cleanURL_string u :
  cleanURL (VStr u) =
    mret (VStr (if includes_backslash u
                then replace_backslashes (toLowerCase u) else u)).
Proof. unfold cleanURL. simpl. by destruct (includes_backslash u). Qed.

Lemma replace_backslashes_clean s : includes_backslash (replace_backslashes s) = false.
Proof.
  induction s as [|c s IH]; simpl; [done|]. rewrite IH.
  destruct (Ascii.eqb c backslash) eqn:Hc; [done|]. by rewrite Hc.
Qed.

(** A string that [cleanURL] returns holds no backslash, and [cleanURL]
    returns it as it is. *)
Lemma cleanURL_returned v log u :
  cleanURL v = (log, Returned (VStr u)) →
  includes_backslash u = false ∧ cleanURL (VStr u) = mret (VStr u).
Proof.
  intros Hc. assert (includes_backslash u = false) as Hu.
  { destruct v; try done.
    - rewrite cleanURL_string in Hc. injection Hc as _ <-.
      destruct (includes_backslash s) eqn:Hs; [apply replace_backslashes_clean | done].
    - unfold cleanURL in Hc. simpl in Hc. destruct (existsb _ items); done. }
  split; [done|]. by rewrite cleanURL_string, Hu.
Qed.

Lemma rewriteTeam_returned t log t' :
  rewriteTeam t = (log, Returned t') →
  ∃ tm u, t = VObj tm ∧ cleanURL (url_of t) = ([], Returned u)
          ∧ t' = VObj (<["url" := u]> tm).
Proof.
  unfold rewriteTeam. destruct t; simpl; try done;
    try (destruct (cleanURL_silent VUndefined) as [r Hr];
         unfold cleanURL in *; simpl in *; done).
  destruct (cleanURL_silent (default VUndefined (props !! "url"))) as [[u|e] Hr];
    rewrite Hr; simpl; [|done].
  intros [= <- <-]. eauto.
Qed.

Lemma rewriteTeamV1_returned t log t' :
  rewriteTeamV1 t = (log, Returned t') →
  ∃ tm u, t = VObj tm ∧ cleanURL (url_of t) = ([], Returned u)
          ∧ t' = VObj (<["url" := u]> (<["name" := default VUndefined (tm !! "name")]> ∅)).
Proof.
  unfold rewriteTeamV1. destruct t; simpl; try done.
  unfold cleanURL.
  destruct (default VUndefined (props !! "url")) as [| | | |u|l|]; simpl; try done.
  - destruct (includes_backslash u); simpl; intros [= <- <-]; eauto.
  - destruct (existsb _ l); simpl; [done|]. intros [= <- <-]. eauto.
Qed.

Lemma rewrite_of_silent k t : ∃ r, rewrite_of k t = ([], r).
Proof. destruct k; apply rewriteTeam_silent || apply rewriteTeamV1_silent. Qed.

(** Every rewritten team carries the cleaned URL of the team it comes
    from. *)
Lemma rewrite_of_returned k t log t' :
  rewrite_of k t = (log, Returned t') →
  ∃ u, cleanURL (url_of t) = ([], Returned u) ∧ url_of t' = u.
Proof.
  intros Hr.
  assert (∃ tm u m', t = VObj tm ∧ cleanURL (url_of t) = ([], Returned u)
                     ∧ t' = VObj (<["url" := u]> m')) as (tm & u & m' & -> & Hc & ->).
  { destruct k; simpl in Hr;
      (apply rewriteTeam_returned in Hr || apply rewriteTeamV1_returned in Hr);
      destruct Hr as (tm & u & -> & Hc & ->); eauto 10. }
  exists u. split; [done|]. simpl. by rewrite lookup_insert_eq.
Qed.

Lemma sanitize_config k :
  k ∈ [V1ConfigData; V2ConfigData; V3ConfigData] →
  sanitize k = (λ data, replaceTeams (rewrite_of k) data)
  ∨ sanitize k = (λ data, data ← replaceTeams (rewrite_of k) data;
                          dropSpellCheckerURL data).
Proof.
  intros Hk.
  repeat (apply elem_of_cons in Hk as [->|Hk]); [| | |by apply elem_of_nil in Hk];
    [left | right | right]; done.
Qed.

(** What the preparation leaves in [teams]: the rewritten teams with a
    valid URL when [teams] was a non-empty array, and [teams] as it was
    otherwise. *)
Lemma sanitize_teams k (m d : gmap string value) log :
  k ∈ [V1ConfigData; V2ConfigData; V3ConfigData] →
  sanitize k (VObj m) = (log, Returned (VObj d)) →
  match nonempty_array (default VUndefined (m !! "teams")) with
  | Some teams =>
      ∃ rewritten, mapM (rewrite_of k) teams = ([], Returned rewritten)
                   ∧ teams_throw rewritten = false
                   ∧ d !! "teams" = Some (VArr (keep_valid rewritten))
  | None => d !! "teams" = m !! "teams"
  end.
Proof.
  intros Hk Hs.
  assert (∃ l1 d1, replaceTeams (rewrite_of k) (VObj m) = (l1, Returned (VObj d1))
                   ∧ d !! "teams" = d1 !! "teams") as (l1 & d1 & Hr & ->).
  { destruct (sanitize_config k Hk) as [Heq|Heq]; rewrite Heq in Hs.
    - eauto.
    - simpl in Hs.
      destruct (replaceTeams _ _) as [l1 [d1|]] eqn:Hr; simpl in Hs; [|done].
      rewrite (replaceTeams_object _ _ (rewrite_of_silent k)) in Hr.
      assert (∃ m1, d1 = VObj m1) as [m1 ->].
      { destruct (nonempty_array _); [destruct (mapM _ _).2; [destruct (teams_throw _)|]|]; simplify_eq; eauto. }
      rewrite dropSpellCheckerURL_object in Hs.
      exists l1, m1. split; [done|].
      destruct (guard_throws _); [done|].
      destruct (_ && _); simpl in Hs; injection Hs as _ <-;
        by rewrite ?lookup_delete_ne. }
  rewrite (replaceTeams_object _ _ (rewrite_of_silent k)) in Hr.
  destruct (nonempty_array _) as [teams|]; [|by injection Hr as _ <-].
  destruct (mapM_silent (rewrite_of k) teams (rewrite_of_silent k)) as [r Hm].
  rewrite Hm in Hr |- *. simpl in Hr. destruct r as [ts|]; [|done].
  destruct (teams_throw ts) eqn:Hthrow; [done|].
  injection Hr as _ <-. exists ts. by rewrite lookup_insert_eq.
Qed.

Lemma config_teams_in k :
  k ∈ [V1ConfigData; V2ConfigData; V3ConfigData] →
  ("teams", Joi.default (VArr []) (Joi.items (teamSchema_of k) Joi.array))
    ∈ match schema_of k with Joi.SObject _ (Some l) _ => l | _ => [] end.
Proof.
  intros Hk.
  repeat (apply elem_of_cons in Hk as [->|Hk]); [| | |by apply elem_of_nil in Hk];
    apply list_elem_of_In; simpl; tauto.
Qed.

Lemma config_schema k :
  k ∈ [V1ConfigData; V2ConfigData; V3ConfigData] →
  ∃ l, schema_of k = Joi.SObject Joi.no_flags (Some l) None.
Proof.
  intros Hk.
  repeat (apply elem_of_cons in Hk as [->|Hk]); [| | |by apply elem_of_nil in Hk];
    by eexists.
Qed.

(** What the schema of a config record makes of [teams]: the items of the
    array, validated one by one as teams; the empty array when there is
    none. *)
Lemma config_teams_out k (d o : gmap string value) :
  k ∈ [V1ConfigData; V2ConfigData; V3ConfigData] →
  schema_validate (schema_of k) (VObj d) = Joi.Valid (VObj o) →
  ∃ kept outs,
    (d !! "teams" = Some (VArr kept)
     ∨ default VUndefined (d !! "teams") = VUndefined ∧ kept = [])
    ∧ o !! "teams" = Some (VArr outs)
    ∧ Joi.validate_items (validate (teamSchema_of k)) [Joi.PKey "teams"] 0 kept
        = inr outs.
Proof.
  intros Hk Hv. pose proof (config_keys_NoDup k) as Hnd.
  pose proof (config_teams_in k Hk) as Hin.
  destruct (config_schema k Hk) as [l Hl]. unfold schema_validate in Hv.
  rewrite Hl in *.
  apply validate_object_accepts in Hv as (o' & [= <-] & _ & Hall); [|done|exact Hnd].
  destruct (Hall _ _ Hin) as (r & Hr & Ho).
  assert (∃ v, default VUndefined (d !! "teams") = v) as [v Hd] by eauto.
  rewrite Hd in Hr.
  assert (v = VUndefined ∨ v ≠ VUndefined) as [->|Hdef] by (destruct v; auto).
  - exists [], []. rewrite validate_undefined in Hr. simpl in Hr.
    injection Hr as <-. split; [by right|]. split; [|done].
    rewrite Ho. by destruct (d !! "teams").
  - apply validate_array_defined in Hr as (kept & outs & -> & -> & Hitems);
      try done.
    exists kept, outs. split; [|by split].
    left. destruct (d !! "teams"); simpl in Hd; by subst.
Qed.

Lemma team_keys_NoDup k :
  NoDup (match teamSchema_of k with
         | Joi.SObject _ (Some l) _ => l.*1
         | _ => []
         end).
Proof. destruct k; apply (bool_decide_unpack _); by vm_compute. Qed.

Lemma team_schema k : ∃ l, teamSchema_of k = Joi.SObject Joi.no_flags (Some l) None
                           ∧ ("name", Joi.required Joi.string) ∈ l
                           ∧ ("url", Joi.required Joi.string) ∈ l.
Proof.
  destruct k; eexists; (split; [reflexivity|]);
    split; apply list_elem_of_In; simpl; tauto.
Qed.

(** A team that passes is an object with strings for [name] and [url],
    which it keeps. *)
Lemma team_out k p t out :
  t ≠ VUndefined →
  validate (teamSchema_of k) p t = Joi.Valid out →
  ∃ tm om (n u : string),
    t = VObj tm ∧ out = VObj om
    ∧ tm !! "name" = Some (VStr n) ∧ om !! "name" = Some (VStr n)
    ∧ tm !! "url" = Some (VStr u) ∧ om !! "url" = Some (VStr u).
Proof.
  intros Hdef Hv. pose proof (team_keys_NoDup k) as Hnd.
  destruct (team_schema k) as (l & Hl & Hname & Hurl). rewrite Hl in *.
  destruct (validate_object_defined _ _ Joi.no_flags _ _ _ _ eq_refl eq_refl Hdef Hv)
    as [tm ->].
  apply validate_object_accepts in Hv as (om & -> & _ & Hall); [|done|exact Hnd].
  destruct (Hall _ _ Hname) as (rn & Hrn & Hon).
  destruct (Hall _ _ Hurl) as (ru & Hru & Hou).
  apply validate_required_string in Hrn as (n & Hn & ->).
  apply validate_required_string in Hru as (u & Hu & ->).
  exists tm, om, n, u.
  destruct (tm !! "name") as [vn|]; [|done].
  destruct (tm !! "url") as [vu|]; [|done].
  simpl in *. by subst.
Qed.






(** *** Validating a config record twice *)

Lemma config_settled k :
  k ∈ [V1ConfigData; V2ConfigData; V3ConfigData] →
  Joi.settled uriRx numberOfString (schema_of k).
Proof.
  intros Hk.
  repeat (apply elem_of_cons in Hk as [->|Hk]); [| | |by apply elem_of_nil in Hk];
    simpl; unfold Joi.default_ok; simpl;
    repeat split; try (intros ?; reflexivity);
    apply (bool_decide_unpack _); by vm_compute.
Qed.

(** A config validator returns a record only for a record. *)
Lemma config_returns_record k data log out :
  k ∈ [V1ConfigData; V2ConfigData; V3ConfigData] →
  validator k data = (log, Returned out) → out ≠ VNull →
  ∃ m o, data = VObj m ∧ out = VObj o.
Proof.
  intros Hk Hrun Hout.
  assert (∃ m, data = VObj m) as [m ->].
  { destruct data; eauto; exfalso;
      repeat (apply elem_of_cons in Hk as [->|Hk]);
      try (by apply elem_of_nil in Hk);
      vm_compute in Hrun; by simplify_eq. }
  exists m. apply validator_returned in Hrun as (l1 & d & l2 & Hs & Hv & ->).
  rewrite validateAgainstSchema_object in Hv.
  destruct (schema_validate _ _) as [v|] eqn:Hsv; [|by simplify_eq].
  injection Hv as _ ->. destruct (config_schema k Hk) as [l Hl].
  pose proof (config_keys_NoDup k) as Hnd.
  unfold schema_validate in Hsv. rewrite Hl in Hsv, Hnd.
  apply validate_object_accepts in Hsv as (o & -> & _); eauto.
Qed.

Lemma mapM_fixed (f : value → M value) l :
  Forall (λ x, f x = ([], Returned x)) l → mapM f l = ([], Returned l).
Proof.
  induction 1 as [|x l Hx _ IH]; simpl; [done|]. by rewrite Hx, IH.
Qed.

Lemma teams_throw_false l :
  Forall (λ x, helper_throws (url_of x) = false) l → teams_throw l = false.
Proof.
  unfold teams_throw. induction 1 as [|x l Hx _ IH]; [done|]. simpl. by rewrite Hx.
Qed.

Lemma keep_valid_all l :
  Forall (λ x, isValidURL (url_of x) = true) l → keep_valid l = l.
Proof.
  unfold keep_valid. induction 1 as [|x l Hx _ IH]; [done|].
  rewrite filter_cons_True by done. by rewrite IH.
Qed.

Lemma Forall2_Forall_right {A B} (R : A → B → Prop) (Q : B → Prop) l l' :
  Forall2 R l l' → (∀ x y, R x y → Q y) → Forall Q l'.
Proof. induction 1; constructor; eauto. Qed.

Lemma Forall2_Forall_transfer {A B} (R : A → B → Prop) (Q : A → Prop)
    (Q' : B → Prop) l l' :
  Forall2 R l l' → Forall Q l → (∀ x y, R x y → Q x → Q' y) → Forall Q' l'.
Proof.
  induction 1 as [|x y l l' Hxy _ IH]; intros Hall Himp; constructor.
  - apply Forall_cons in Hall as [Hx _]. eauto.
  - apply Forall_cons in Hall as [_ Hl]. eauto.
Qed.

(** A team that has passed, with a URL already cleaned, is rewritten
    into itself. *)
Lemma team_fixed k p t' out u :
  url_of t' = VStr u → includes_backslash u = false → t' ≠ VUndefined →
  validate (teamSchema_of k) p t' = Joi.Valid out →
  rewrite_of k out = ([], Returned out) ∧ url_of out = VStr u.
Proof.
  intros Hu Hclean Hdef Hv.
  destruct (team_out k p t' out Hdef Hv)
    as (tm & om & n & u' & -> & -> & Hn & Hon & Hurl & Hourl).
  simpl in Hu. rewrite Hurl in Hu. injection Hu as ->.
  split; [|simpl; by rewrite Hourl].
  assert (rewriteTeam (VObj om) = ([], Returned (VObj om))) as Hrw.
  { unfold rewriteTeam. simpl. rewrite Hourl. simpl.
    rewrite cleanURL_string, Hclean. simpl. by rewrite insert_id. }
  destruct k; try exact Hrw. simpl.
  unfold rewriteTeamV1. simpl. rewrite Hon, Hourl. simpl. rewrite Hclean. simpl.
  do 3 f_equal. apply map_eq. intros j.
  destruct (decide (j = "url")) as [->|Hj1]; [by rewrite lookup_insert_eq|].
  rewrite lookup_insert_ne by done.
  destruct (decide (j = "name")) as [->|Hj2]; [by rewrite lookup_insert_eq|].
  rewrite lookup_insert_ne, lookup_empty by done.
  apply (validate_object_accepts _ _ Joi.no_flags) in Hv as (om' & [= <-] & Hnone & _);
    [|done|apply (team_keys_NoDup V1ConfigData)].
  symmetry. apply Hnone. simpl. set_solver.
Qed.

Lemma dropSpellCheckerURL_settled (d1 d : gmap string value) log :
  dropSpellCheckerURL (VObj d1) = (log, Returned (VObj d)) →
  guard_throws (default VUndefined (d !! "spellCheckerURL")) = false
  ∧ truthy (default VUndefined (d !! "spellCheckerURL"))
    && negb (isValidURL (default VUndefined (d !! "spellCheckerURL"))) = false.
Proof.
  rewrite dropSpellCheckerURL_object.
  destruct (guard_throws _) eqn:Hg; [done|].
  destruct (_ && _) eqn:Hc; intros [= <- <-]; [|done].
  by rewrite lookup_delete_eq.
Qed.

Lemma validate_nullable_string p v r :
  validate (Joi.allow [Joi.LNull] Joi.string) p v = Joi.Valid r → r = v.
Proof.
  destruct v; simpl; unfold Joi.run; simpl; try done; try by intros [= <-].
  destruct (String.eqb s ""); [done|]. by intros [= <-].
Qed.

Lemma config_spellCheckerURL_in k :
  k ∈ [V2ConfigData; V3ConfigData] →
  ("spellCheckerURL", Joi.allow [Joi.LNull] Joi.string)
    ∈ match schema_of k with Joi.SObject _ (Some l) _ => l | _ => [] end.
Proof.
  intros Hk.
  repeat (apply elem_of_cons in Hk as [->|Hk]); [| |by apply elem_of_nil in Hk];
    apply list_elem_of_In; simpl; tauto.
Qed.

(** The schema of V2 and of V3 hands [spellCheckerURL] on as it is. *)
Lemma config_spellCheckerURL_out k (d o : gmap string value) :
  k ∈ [V2ConfigData; V3ConfigData] →
  schema_validate (schema_of k) (VObj d) = Joi.Valid (VObj o) →
  default VUndefined (o !! "spellCheckerURL")
    = default VUndefined (d !! "spellCheckerURL").
Proof.
  intros Hk Hv. pose proof (config_keys_NoDup k) as Hnd.
  pose proof (config_spellCheckerURL_in k Hk) as Hin.
  destruct (config_schema k ltac:(set_solver)) as [l Hl].
  unfold schema_validate in Hv. rewrite Hl in *.
  apply validate_object_accepts in Hv as (o' & [= <-] & _ & Hall); [|done|exact Hnd].
  destruct (Hall _ _ Hin) as (r & Hr & ->).
  apply validate_nullable_string in Hr. rewrite Hr.
  by destruct (d !! "spellCheckerURL") as [[]|].
Qed.

(** The teams of a record returned are rewritten into themselves and
    all kept. *)
Lemma config_teams_fixed k (m o : gmap string value) log :
  k ∈ [V1ConfigData; V2ConfigData; V3ConfigData] →
  validator k (VObj m) = (log, Returned (VObj o)) →
  ∃ outs, o !! "teams" = Some (VArr outs)
          ∧ Forall (λ out, rewrite_of k out = ([], Returned out)
                           ∧ isValidURL (url_of out) = true
                           ∧ helper_throws (url_of out) = false) outs.
Proof.
  intros Hk Hrun.
  apply validator_returned in Hrun as (l1 & d & l2 & Hs & Hv & ->).
  rewrite validateAgainstSchema_object in Hv.
  destruct (schema_validate _ _) as [v|] eqn:Hsv; [|done]. injection Hv as _ ->.
  destruct (config_teams_out k d o Hk Hsv) as (kept & outs & Hkept & Ho & Hitems).
  exists outs. split; [done|].
  pose proof (sanitize_teams k m d l1 Hk Hs) as Hteams.
  destruct (nonempty_array _) as [teams|] eqn:Hne.
  - destruct Hteams as (rewritten & Hmap & Hthrow & Hd).
    assert (kept = keep_valid rewritten) as ->.
    { destruct Hkept as [Hkept | [Hkept _]]; rewrite Hd in Hkept;
        [by injection Hkept | done]. }
    apply validate_items_inr in Hitems.
    eapply (Forall2_Forall_transfer _
              (λ t', isValidURL (url_of t') = true
                     ∧ ∃ v lg, cleanURL v = (lg, Returned (url_of t')))); [exact Hitems| |].
    + unfold keep_valid. apply Forall_forall. intros t' Ht'.
      apply list_elem_of_filter in Ht' as [Hvalid Ht']. split; [done|].
      apply mapM_returned in Hmap.
      assert (Forall (λ t', ∃ v lg, cleanURL v = (lg, Returned (url_of t'))) rewritten)
        as Hall.
      { eapply Forall2_Forall_right; [exact Hmap|]. simpl.
        intros t t'' [lg Hr]. apply rewrite_of_returned in Hr as (u & Hc & <-). eauto. }
      rewrite Forall_forall in Hall. by apply Hall.
    + simpl. intros t' out (j & Hj & Hdef & _) (Hvalid & v & lg & Hc).
      destruct (team_out k _ t' out Hdef Hj)
        as (tm & om & n & u & -> & -> & _ & _ & Hurl & _).
      assert (url_of (VObj tm) = VStr u) as Hu by (simpl; by rewrite Hurl).
      rewrite Hu in Hc, Hvalid. apply cleanURL_returned in Hc as [Hclean _].
      destruct (team_fixed k _ (VObj tm) (VObj om) u Hu Hclean Hdef Hj) as [Hfix Hou].
      split; [done|]. rewrite Hou. by split.
  - assert (kept = []) as ->.
    { destruct Hkept as [Hkept | [_ ->]]; [|done].
      rewrite Hteams in Hkept. rewrite Hkept in Hne. simpl in Hne.
      by destruct kept. }
    simpl in Hitems. injection Hitems as <-. constructor.
Qed.

(** The preparation leaves a record returned as it is, and logs
    nothing. *)
Lemma sanitize_output k (m o : gmap string value) log :
  k ∈ [V1ConfigData; V2ConfigData; V3ConfigData] →
  validator k (VObj m) = (log, Returned (VObj o)) →
  sanitize k (VObj o) = ([], Returned (VObj o)).
Proof.
  intros Hk Hrun.
  assert (replaceTeams (rewrite_of k) (VObj o) = ([], Returned (VObj o))) as Hteams.
  { destruct (config_teams_fixed k m o log Hk Hrun) as (outs & Ho & Hall).
    rewrite (replaceTeams_object _ _ (rewrite_of_silent k)), Ho. simpl.
    destruct outs as [|out outs]; [done|]. simpl nonempty_array. cbv iota.
    rewrite (mapM_fixed (rewrite_of k) (out :: outs)).
    - assert (teams_throw (out :: outs) = false) as Hthrow.
      { apply teams_throw_false.
        eapply Forall_impl; [exact Hall|]. by intros ? (_ & _ & ?). }
      simpl snd. cbv iota. rewrite Hthrow, keep_valid_all, insert_id; [done..|].
      eapply Forall_impl; [exact Hall|]. by intros ? (_ & ? & _).
    - eapply Forall_impl; [exact Hall|]. by intros ? [? _]. }
  destruct (decide (k = V1ConfigData)) as [->|Hk1]; [exact Hteams|].
  assert (k ∈ [V2ConfigData; V3ConfigData]) as Hk23 by set_solver.
  assert (sanitize k = λ data, data ← replaceTeams (rewrite_of k) data;
                               dropSpellCheckerURL data) as Heq.
  { clear -Hk23. repeat (apply elem_of_cons in Hk23 as [->|Hk23]; [done|]).
    by apply elem_of_nil in Hk23. }
  rewrite Heq, Hteams. simpl. rewrite dropSpellCheckerURL_object.
  apply validator_returned in Hrun as (l1 & d & l2 & Hs & Hv & ->).
  rewrite validateAgainstSchema_object in Hv.
  destruct (schema_validate _ _) as [v|] eqn:Hsv; [|done]. injection Hv as _ ->.
  rewrite (config_spellCheckerURL_out k d o Hk23 Hsv).
  assert (∃ l0 d1, dropSpellCheckerURL (VObj d1) = (l0, Returned (VObj d)))
    as (l0 & d1 & Hdrop).
  { rewrite Heq in Hs. simpl in Hs.
    destruct (replaceTeams _ _) as [l0 [d1|]] eqn:Hr; simpl in Hs; [|done].
    rewrite (replaceTeams_object _ _ (rewrite_of_silent k)) in Hr.
    assert (∃ m1, d1 = VObj m1) as [m1 ->].
    { destruct (nonempty_array _); [destruct (mapM _ _).2; [destruct (teams_throw _)|]|]; simplify_eq; eauto. }
    destruct (dropSpellCheckerURL (VObj m1)) as [l3 r3] eqn:Hd3.
    injection Hs as _ ->. eauto. }
  destruct (dropSpellCheckerURL_settled _ _ _ Hdrop) as [-> ->]. done.
Qed.

(** C4: a config validator that returns a record for some input returns
    that record again, with nothing logged, when it is given the record. *)
Theorem C4_config_validators_idempotent k data log out :
  k ∈ [V1ConfigData; V2ConfigData; V3ConfigData] →
  validator k data = (log, Returned out) → out ≠ VNull →
  validator k out = ([], Returned out).
Proof.
  intros Hk Hrun Hout.
  destruct (config_returns_record k data log out Hk Hrun Hout) as (m & o & -> & ->).
  rewrite validator_eq, (sanitize_output k m o log Hk Hrun). simpl.
  rewrite validateAgainstSchema_object.
  apply validator_returned in Hrun as (l1 & d & l2 & Hs & Hv & ->).
  rewrite validateAgainstSchema_object in Hv.
  destruct (schema_validate _ (VObj d)) as [v|] eqn:Hsv; [|by simplify_eq].
  injection Hv as _ ->. unfold schema_validate in *.
  by rewrite (validate_twice _ _ _ (config_settled k Hk) _ _ _ Hsv []).
Qed.

(** *** Returning and throwing *)

(** [validateAgainstSchema] never throws: it returns [null] or the value
    the schema makes of its argument. *)
Lemma validateAgainstSchema_returns data s :
  ∃ log v, validateAgainstSchema data (Some s) = (log, Returned v)
           ∧ (v = VNull ∨ schema_validate s data = Joi.Valid v).
Proof.
  unfold validateAgainstSchema.
  destruct (negb _); simpl; [eauto|].
  destruct (schema_validate s data); simpl; eauto.
Qed.

Lemma rewrite_of_typed k t :
  team_typed t → ∃ t' u, rewrite_of k t = ([], Returned t') ∧ url_of t' = VStr u.
Proof.
  intros (tm & u & -> & Hu).
  destruct k; simpl; unfold rewriteTeam, rewriteTeamV1; simpl; rewrite Hu; simpl;
    try rewrite cleanURL_string; simpl;
    destruct (includes_backslash u); simpl;
    eexists _, _; (split; [reflexivity|]); simpl; by rewrite lookup_insert_eq.
Qed.

Lemma mapM_typed k teams :
  Forall team_typed teams →
  ∃ ts, mapM (rewrite_of k) teams = ([], Returned ts) ∧ teams_throw ts = false.
Proof.
  induction 1 as [|t teams Ht _ (ts & IH & Hts)]; simpl; [eauto|].
  destruct (rewrite_of_typed k t Ht) as (t' & u & -> & Hu). simpl. rewrite IH. simpl.
  eexists. split; [done|]. unfold teams_throw in *. simpl. by rewrite Hu, Hts.
Qed.

Lemma url_typed_guard x : url_typed x → guard_throws x = false.
Proof.
  unfold guard_throws. intros [->|[->|[s ->]]]; [done..|]. simpl. apply andb_false_r.
Qed.

Lemma sanitize_typed k data :
  typed k data → ∃ log d, sanitize k data = (log, Returned d).
Proof.
  intros Ht.
  assert (∀ m, (∀ teams, m !! "teams" = Some (VArr teams) → Forall team_typed teams) →
               ∃ d, replaceTeams (rewrite_of k) (VObj m) = ([], Returned (VObj d))
                    ∧ d !! "spellCheckerURL" = m !! "spellCheckerURL")
    as Hteams.
  { intros m Hm. rewrite (replaceTeams_object _ _ (rewrite_of_silent k)).
    destruct (m !! "teams") as [v|] eqn:Hv; simpl; [|eauto].
    destruct (nonempty_array v) as [teams|] eqn:Hne; [|eauto].
    assert (v = VArr teams) as ->
      by (destruct v as [| | | | |[|]|]; simpl in Hne; by simplify_eq).
    destruct (mapM_typed k teams (Hm _ eq_refl)) as (ts & -> & Hts). simpl.
    rewrite Hts. eexists. split; [done|]. by rewrite lookup_insert_ne. }
  assert (∀ m, (∀ teams, m !! "teams" = Some (VArr teams) → Forall team_typed teams) →
               (∀ x, m !! "spellCheckerURL" = Some x → url_typed x) →
               ∃ log d, (d' ← replaceTeams (rewrite_of k) (VObj m); dropSpellCheckerURL d')
                        = (log, Returned d)) as Hconfig.
  { intros m Hm Hx. destruct (Hteams m Hm) as (d & -> & Hd). simpl.
    rewrite dropSpellCheckerURL_object, Hd.
    assert (guard_throws (default VUndefined (m !! "spellCheckerURL")) = false) as ->.
    { destruct (m !! "spellCheckerURL") as [x|] eqn:Hsp; [|done].
      apply url_typed_guard. by apply Hx. }
    destruct (_ && _); eauto. }
  destruct k; simpl in Ht |- *; eauto;
    try (destruct Ht as (m & -> & Hm & Hx); by apply (Hconfig m));
    try (destruct Ht as (m & -> & Hm); destruct (Hteams m Hm) as (d & Hd & _);
         simpl in Hd; rewrite Hd; by eauto);
    try (destruct data as [| | | |s| |]; simpl; try done; eauto;
         destruct Ht as [v ->]; eauto).
Qed.

(** C9, as the code has it: on an input of the declared type every
    validator returns, and what it returns is [null] or the record that
    the schema of its kind makes of the prepared input. *)
Theorem C9_validators_return_on_typed_input k data :
  typed k data →
  ∃ log v d, validator k data = (log, Returned v)
             ∧ (sanitize k data).2 = Returned d
             ∧ (v = VNull ∨ schema_validate (schema_of k) d = Joi.Valid v).
Proof.
  intros Ht. rewrite validator_eq.
  destruct (sanitize_typed k data Ht) as (l1 & d & ->). simpl.
  destruct (validateAgainstSchema_returns d (schema_of k)) as (l2 & v & -> & Hv).
  eauto 10.
Qed.

End ValidatorFacts.

(** The window state [{width: 100, height: 100}]. *)
Lemma C3_witness :
  ∃ e, @Validator.validateBoundsInfo Validator.examplePlatform
         (VObj {[ "width" := VNum (int 100); "height" := VNum (int 100) ]})
       = ([Validator.ValidationFailed e], Returned VNull).
Proof.
  apply (C3_bounds_below_minimum_is_null _ (int 100)).
  left. split; reflexivity.
Defined.

(** The empty record [{}]. *)
Lemma C7_witness :
  ∃ e, @Validator.validateBoundsInfo Validator.examplePlatform (VObj ∅)
       = ([Validator.ValidationFailed e], Returned VNull).
Proof. apply C7_bounds_missing_size_is_null. left. reflexivity. Defined.

(** ** Examples *)

Section Examples.

Import Validator.
Existing Instance examplePlatform.


(** The record of one team with backslashes in its URL. *)
Lemma C4_witness :
  validator V3ConfigData
    (record (("teams", VArr [record [("name", VStr "t1"); ("url", VStr "http://a.b/c");
                                     ("lastActiveTab", VNum (int 0)); ("tabs", VArr [])]])
             :: ("lastActiveTeam", VNum (int 0)) :: v2Defaults))
  = ([], Returned
      (record (("teams", VArr [record [("name", VStr "t1"); ("url", VStr "http://a.b/c");
                                       ("lastActiveTab", VNum (int 0)); ("tabs", VArr [])]])
               :: ("lastActiveTeam", VNum (int 0)) :: v2Defaults))).
Proof.
  apply (C4_config_validators_idempotent V3ConfigData
           (record [("teams", VArr [record [("name", VStr "t1");
                                            ("url", VStr "HTTP:\\A.b\c")]])]) []).
  - set_solver.
  - vm_compute. reflexivity.
  - discriminate.
Defined.

(** C5 as stated fails on the empty string: it is present and is no URL,
    yet it is not removed, no diagnostic of the removal is logged, and the
    record, which validates without the field, is rejected.  ([null], which
    the schema allows, is kept as well.)  It fails on a number too: the
    helper throws on it, and the call with it. *)
Lemma C5_counterexample :
  isValidURL (VStr "") = false
  ∧ validateV2ConfigData (record [("spellCheckerURL", VStr "")])
    = ([ValidationFailed (Joi.Error Joi.string_empty [Joi.PKey "spellCheckerURL"])],
       Returned VNull)
  ∧ validateV2ConfigData (record [])
    = ([], Returned (record (("teams", VArr []) :: v2Defaults)))
  ∧ validateV2ConfigData (record [("spellCheckerURL", VNull)])
    = ([], Returned (record (("spellCheckerURL", VNull) :: ("teams", VArr [])
                             :: v2Defaults)))
  ∧ validateV2ConfigData (record [("spellCheckerURL", VNum (int 5))])
    = ([], Threw TypeError).
Proof. repeat split; vm_compute; reflexivity. Qed.

(** A record whose [spellCheckerURL] is a text that is no URL. *)
Lemma C5_witness :
  (validator V2ConfigData (record [("spellCheckerURL", VStr "not a url")])).2
    = (validator V2ConfigData
         (VObj (delete "spellCheckerURL"
                  (list_to_map [("spellCheckerURL", VStr "not a url")])))).2
  ∧ (∀ o, (validator V2ConfigData (record [("spellCheckerURL", VStr "not a url")])).2
            = Returned (VObj o) → o !! "spellCheckerURL" = None)
  ∧ ((∀ e, (validator V2ConfigData (record [("spellCheckerURL", VStr "not a url")])).2
             ≠ Threw e) →
       (validator V2ConfigData (record [("spellCheckerURL", VStr "not a url")])).1
         = InvalidSpellCheckerURL
           :: (validator V2ConfigData
                 (VObj (delete "spellCheckerURL"
                          (list_to_map [("spellCheckerURL", VStr "not a url")])))).1).
Proof.
  apply (C5_bad_spellCheckerURL_removed V2ConfigData _ "not a url").
  - set_solver.
  - reflexivity.
  - discriminate.
  - reflexivity.
Defined.

(** A window state with a field of a later version. *)
Lemma C6_witness :
  (∀ o, (validator BoundsInfo
           (record [("width", VNum (int 500)); ("height", VNum (int 300))])).2
        = Returned (VObj o) → o !! "displayId" = None)
  ∧ (∀ x, (validator BoundsInfo
             (VObj (<["displayId" := x]>
                      (list_to_map [("width", VNum (int 500));
                                    ("height", VNum (int 300))])))).2
          = (validator BoundsInfo
               (VObj (delete "displayId"
                        (list_to_map [("width", VNum (int 500));
                                      ("height", VNum (int 300))])))).2).
Proof.
  apply (C6_undeclared_fields_stripped BoundsInfo _ "displayId").
  reflexivity.
Defined.

(** C9 as stated fails: a team without [url] makes the config validators
    throw a TypeError, as do [null] for a record and, from V2 on, a number
    for [spellCheckerURL], and a text that is not JSON makes the store
    validators throw a SyntaxError. *)
Lemma C9_counterexample :
  validateV2ConfigData (record [("teams", VArr [record [("name", VStr "a")]])])
    = ([], Threw TypeError)
  ∧ validateV3ConfigData (record [("spellCheckerURL", VNum (int 5))])
    = ([], Threw TypeError)
  ∧ validateV1ConfigData VNull = ([], Threw TypeError)
  ∧ JSON_parse "not json" = None
  ∧ validateCertificateStore (VStr "not json") = ([], Threw SyntaxError)
  ∧ validateTrustedOriginsStore (VStr "not json") = ([], Threw SyntaxError)
  ∧ validateOriginPermissions (VStr "not json") = ([], Threw SyntaxError).
Proof. repeat split; vm_compute; reflexivity. Qed.

(** The text of an empty certificate store. *)
Lemma C9_witness :
  ∃ log v d, validator CertificateStore (VStr "{}") = (log, Returned v)
             ∧ (sanitize CertificateStore (VStr "{}")).2 = Returned d
             ∧ (v = VNull
                ∨ schema_validate (schema_of CertificateStore) d = Joi.Valid v).
Proof.
  apply (C9_validators_return_on_typed_input CertificateStore (VStr "{}")).
  simpl. by eexists.
Defined.

(** The two records of the specification: a team and a dictionary URL
    that cannot be repaired are dropped and the rest is defaulted; a V3 team
    without tabs gets none, and 0 for its last active tab. *)
Example v2_bad_team_and_spellCheckerURL :
  validateV2ConfigData
    (record [("teams", VArr [record [("name", VStr "t1"); ("url", VStr "bad url")]]);
             ("spellCheckerURL", VStr "not a url")])
  = ([InvalidSpellCheckerURL], Returned (record (("teams", VArr []) :: v2Defaults))).
Proof. vm_compute. reflexivity. Qed.

Example v3_team_without_tabs :
  validateV3ConfigData
    (record [("teams", VArr [record [("name", VStr "t1"); ("url", VStr "https://a.b")]])])
  = ([], Returned
      (record (("teams", VArr [record [("name", VStr "t1"); ("url", VStr "https://a.b");
                                       ("lastActiveTab", VNum (int 0)); ("tabs", VArr [])]])
               :: ("lastActiveTeam", VNum (int 0)) :: v2Defaults))).
Proof. vm_compute. reflexivity. Qed.

(** C10 as stated fails above the safe integers: 2^53 is a version above
    2, and the record, accepted without a version, is rejected with it. *)
Lemma C10_counterexample :
  (2 <= 9007199254740992)%Q
  ∧ validateV3ConfigData (record [("version", VNum (Fin 9007199254740992))])
    = ([ValidationFailed (Joi.Error Joi.number_unsafe [Joi.PKey "version"])],
       Returned VNull)
  ∧ validateV3ConfigData (record [])
    = ([], Returned (record (("teams", VArr []) :: ("lastActiveTeam", VNum (int 0))
                             :: v2Defaults))).
Proof. split; [done|]. split; vm_compute; reflexivity. Qed.

(** Version 2 itself, on the empty record. *)
Lemma C10_witness :
  validateV3ConfigData (VObj (<["version" := VNum (Fin 2)]> ∅))
  = ([], Returned
      (VObj (<["version" := VNum (Fin 2)]>
               (list_to_map (("teams", VArr []) :: ("lastActiveTeam", VNum (int 0))
                             :: v2Defaults))))).
Proof.
  apply (proj1 (C10_v3_version_from_2 ∅) 2%Q []).
  - done.
  - done.
  - vm_compute. reflexivity.
Defined.

End Examples.

(** * Further properties of the validators *)

(** ** The schema library: what a value that passes looks like *)

Section JoiShapes.

Variable uriRx : string → bool.
Variable numberOfString : string → Joi.coerced_number.

Local Abbreviation validate := (Joi.validate uriRx numberOfString).

Lemma number_valid f rules p v r :
  Joi.f_valids f = [] → v ≠ VUndefined →
  validate (Joi.SNumber f rules) p v = Joi.Valid r →
  ∃ q, r = VNum (Fin q)
       ∧ (MIN_SAFE_INTEGER <= q)%Q ∧ (q <= MAX_SAFE_INTEGER)%Q
       ∧ Joi.first_failure Joi.number_rule_ok rules q = None.
Proof.
  intros Hv Hdef. simpl. rewrite run_defined by done. simpl Joi.flags_of. rewrite Hv.
  destruct (Joi.coerce numberOfString (Joi.SNumber f rules) v) as [|v1]; [done|].
  simpl. destruct (Joi.f_only f); [done|].
  unfold Joi.lift_check, Joi.number_base_check.
  destruct v1 as [| | |[| | |q]| | |]; try done.
  destruct (Qle_bool q MAX_SAFE_INTEGER) eqn:Hhi; [|done].
  destruct (Qle_bool MIN_SAFE_INTEGER q) eqn:Hlo; [|done]. simpl.
  destruct (Joi.first_failure _ _ _) eqn:Hr; [done|]. intros [= <-].
  exists q. by rewrite <- !Qle_bool_iff.
Qed.

Lemma boolean_valid f p v r :
  Joi.f_valids f = [] → v ≠ VUndefined →
  validate (Joi.SBoolean f) p v = Joi.Valid r → ∃ b, r = VBool b.
Proof.
  intros Hv Hdef. simpl. rewrite run_defined by done. simpl Joi.flags_of. rewrite Hv.
  destruct (Joi.coerce numberOfString (Joi.SBoolean f) v) as [|v1]; [done|].
  simpl. destruct (Joi.f_only _); [done|].
  destruct v1; try done. intros [= <-]. eauto.
Qed.

Lemma string_valid f rules p v r :
  Joi.f_valids f = [] → v ≠ VUndefined →
  validate (Joi.SString f rules) p v = Joi.Valid r →
  ∃ s, v = VStr s ∧ r = VStr s ∧ s ≠ ""
       ∧ Joi.first_failure (Joi.string_rule_ok uriRx) rules s = None.
Proof.
  intros Hv Hdef. simpl. rewrite run_defined by done. simpl. rewrite Hv. simpl.
  destruct (Joi.f_only f); [done|]. unfold Joi.lift_check, Joi.string_base_check.
  destruct v as [| | | |s| |]; try done.
  destruct (String.eqb s "") eqn:Hs; [done|].
  destruct (Joi.first_failure _ _ _) eqn:Hr; [done|]. intros [= <-].
  exists s. repeat split; try done. intros ->. done.
Qed.

(** An object schema with declared keys and no pattern accepts an object
    exactly when each declared key accepts its property: the keys are
    checked independently. *)
Lemma validate_object_iff f l p (m : gmap string value) :
  Joi.f_only f = false → NoDup l.*1 →
  Joi.is_valid (validate (Joi.SObject f (Some l) None) p (VObj m)) = true
  ↔ ∀ k s, (k, s) ∈ l →
      Joi.is_valid (validate s (p ++ [Joi.PKey k]) (default VUndefined (m !! k))) = true.
Proof.
  intros Hf Hnd. split.
  - intros Hv k s Hin.
    destruct (validate _ _ (VObj m)) as [out|] eqn:Hout; [|done].
    apply validate_object_accepts in Hout as (o & -> & _ & Hall); [|done..].
    by destruct (Hall k s Hin) as (r & -> & _).
  - intros Hall. rewrite validate_object_eq by done.
    destruct (validate_keys_intro
                (map (λ ksk : string * Joi.schema, (ksk.1, validate ksk.2)) l) p m)
      as [acc ->]; [by rewrite children_keys | | done].
    intros k child Hin. apply elem_of_children in Hin as (s & -> & Hs). by apply Hall.
Qed.

(** The result under a key that is required or has a default of its
    own type: never undefined. *)
Lemma number_key f rules p v r :
  Joi.f_valids f = [] →
  match Joi.f_default f with
  | Some (VNum (Fin q0)) =>
      Validator.safe q0 ∧ Joi.first_failure Joi.number_rule_ok rules q0 = None
  | _ => Joi.f_presence f = Joi.Required
  end →
  validate (Joi.SNumber f rules) p v = Joi.Valid r →
  ∃ q, r = VNum (Fin q) ∧ Validator.safe q
       ∧ Joi.first_failure Joi.number_rule_ok rules q = None.
Proof.
  intros Hf Hd Hv.
  assert (v = VUndefined ∨ v ≠ VUndefined) as [->|Hdef] by (destruct v; auto).
  - rewrite validate_undefined in Hv. simpl in Hv.
    destruct (Joi.f_presence f); [|done].
    destruct (Joi.f_default f) as [[| | |[| | |q0]| | |]|]; try done.
    simpl in Hv. injection Hv as <-. exists q0. tauto.
  - apply number_valid in Hv as (q & -> & ? & ? & ?); [|done..].
    exists q. repeat split; done.
Qed.

Lemma boolean_key f p v r :
  Joi.f_valids f = [] →
  match Joi.f_default f with
  | Some (VBool _) => True
  | _ => Joi.f_presence f = Joi.Required
  end →
  validate (Joi.SBoolean f) p v = Joi.Valid r → ∃ b, r = VBool b.
Proof.
  intros Hf Hd Hv.
  assert (v = VUndefined ∨ v ≠ VUndefined) as [->|Hdef] by (destruct v; auto).
  - rewrite validate_undefined in Hv. simpl in Hv.
    destruct (Joi.f_presence f); [|done].
    destruct (Joi.f_default f) as [[| |b| | | |]|]; try done.
    simpl in Hv. injection Hv as <-. eauto.
  - by apply boolean_valid in Hv.
Qed.

(** A string schema without allowed values changes nothing: what it
    accepts is undefined, or a text that is not empty, and comes out as it
    went in when the schema has no default. *)
Lemma string_key f rules p v r :
  Joi.f_valids f = [] → Joi.f_default f = None →
  validate (Joi.SString f rules) p v = Joi.Valid r →
  r = v ∧ (v = VUndefined
           ∨ ∃ s, v = VStr s ∧ s ≠ ""
                  ∧ Joi.first_failure (Joi.string_rule_ok uriRx) rules s = None).
Proof.
  intros Hf Hd Hv.
  assert (v = VUndefined ∨ v ≠ VUndefined) as [->|Hdef] by (destruct v; auto).
  - rewrite validate_undefined in Hv. simpl in Hv. rewrite Hd in Hv.
    destruct (Joi.f_presence f); [|done]. injection Hv as <-. auto.
  - apply string_valid in Hv as (s & -> & -> & ? & ?); [|done..]. eauto 10.
Qed.

Lemma string_accepts f rules p s :
  Joi.f_only f = false → s ≠ "" →
  Joi.first_failure (Joi.string_rule_ok uriRx) rules s = None →
  validate (Joi.SString f rules) p (VStr s) = Joi.Valid (VStr s).
Proof.
  intros Hf Hs Hr. simpl. unfold Joi.run. simpl.
  destruct (Joi.in_valids _ _); [done|]. rewrite Hf.
  apply String.eqb_neq in Hs. by rewrite Hs, Hr.
Qed.

(** A schema that admits only its allowed values. *)
Lemma only_valid f p v r :
  Joi.f_only f = true → validate (Joi.SAny f) p v = Joi.Valid r →
  (v = VUndefined ∧ r = default VUndefined (Joi.f_default f))
  ∨ (r = v ∧ Joi.in_valids (Joi.f_valids f) v = true).
Proof.
  intros Hf Hv.
  assert (v = VUndefined ∨ v ≠ VUndefined) as [->|Hdef] by (destruct v; auto).
  - rewrite validate_undefined in Hv. simpl in Hv.
    destruct (Joi.f_presence f); [|done]. injection Hv as <-. auto.
  - simpl in Hv. rewrite run_defined in Hv by done. simpl in Hv. rewrite Hf in Hv.
    destruct (Joi.in_valids _ v) eqn:Hin; [|done]. injection Hv as <-. auto.
Qed.

(** *** Objects under a pattern *)

Lemma validate_pattern_eq f ks sk sr p (m : gmap string value) :
  Joi.f_only f = false → default [] ks = [] →
  validate (Joi.SObject f ks (Some (sk, sr))) p (VObj m) =
    match Joi.validate_unknown
            (Some (λ k : string, Joi.is_valid (validate sk p (VStr k)),
                   λ (k : string) (item : value), validate sr (p ++ [Joi.PKey k]) item))
            m with
    | inl e => Joi.Invalid e
    | inr extra => Joi.Valid (VObj extra)
    end.
Proof.
  intros Hf Hks. rewrite validate_object_general by eauto. rewrite Hks.
  unfold Joi.validate_object. simpl.
  rewrite map_filter_id by (intros i x _; apply not_elem_of_nil).
  destruct (Joi.validate_unknown _ m) as [e|extra]; [done|]. do 2 f_equal.
  apply map_eq. intros j. rewrite lookup_union_r; [done|].
  apply map_lookup_filter_None. right. intros x _ Hx. by apply elem_of_nil in Hx.
Qed.

Lemma validate_unknown_inr pat (m extra : gmap string value) j v :
  Joi.validate_unknown pat m = inr extra → extra !! j = Some v →
  ∃ item, m !! j = Some item ∧ Joi.pattern_entry pat j item = Some (Joi.Valid v).
Proof.
  unfold Joi.validate_unknown. destruct (omap _ _); [|done]. intros [= <-].
  rewrite map_lookup_imap. destruct (m !! j) as [item|]; [|done]. simpl.
  intros Hv. exists item. split; [done|].
  destruct (Joi.pattern_entry pat j item) as [[v'|e]|]; simpl in Hv; [|done..].
  by injection Hv as ->.
Qed.

Lemma omap_nil {A B} (g : A → option B) l :
  Forall (λ x, g x = None) l → omap g l = [].
Proof. induction 1 as [|x l Hx _ IH]; simpl; [done|]. by rewrite Hx. Qed.

Lemma validate_unknown_fixed pat (o : gmap string value) :
  (∀ j v, o !! j = Some v → Joi.pattern_entry pat j v = Some (Joi.Valid v)) →
  Joi.validate_unknown pat o = inr o.
Proof.
  intros Ho. unfold Joi.validate_unknown. rewrite omap_nil.
  - f_equal. apply map_eq. intros j. rewrite map_lookup_imap.
    destruct (o !! j) as [v|] eqn:Hj; [|done]. simpl. by rewrite (Ho _ _ Hj).
  - apply Forall_forall. intros [j v] Hin. apply elem_of_map_to_list in Hin.
    simpl. by rewrite (Ho _ _ Hin).
Qed.

Lemma validate_pattern_out f ks sk sr p (m : gmap string value) out :
  Joi.f_only f = false → default [] ks = [] →
  validate (Joi.SObject f ks (Some (sk, sr))) p (VObj m) = Joi.Valid out →
  ∃ o, out = VObj o ∧
    ∀ j v, o !! j = Some v →
      ∃ item, m !! j = Some item
              ∧ Joi.is_valid (validate sk p (VStr j)) = true
              ∧ validate sr (p ++ [Joi.PKey j]) item = Joi.Valid v.
Proof.
  intros Hf Hks. rewrite validate_pattern_eq by done.
  destruct (Joi.validate_unknown _ m) as [e|extra] eqn:Hu; [done|]. intros [= <-].
  exists extra. split; [done|]. intros j v Hj.
  destruct (validate_unknown_inr _ _ _ _ _ Hu Hj) as (item & Hm & He).
  exists item. split; [done|]. simpl in He.
  destruct (Joi.is_valid (validate sk p (VStr j))); [|done]. by injection He as ->.
Qed.

(** An object that a schema with a pattern returns is returned as it is
    when it is validated again. *)
Lemma validate_pattern_twice f ks sk sr p (m : gmap string value) out :
  Joi.f_only f = false → default [] ks = [] →
  Joi.settled uriRx numberOfString sr →
  validate (Joi.SObject f ks (Some (sk, sr))) p (VObj m) = Joi.Valid out →
  validate (Joi.SObject f ks (Some (sk, sr))) p out = Joi.Valid out.
Proof.
  intros Hf Hks Hsr Hv.
  apply validate_pattern_out in Hv as (o & -> & Ho); [|done..].
  rewrite validate_pattern_eq by done. rewrite validate_unknown_fixed; [done|].
  intros j v Hj. destruct (Ho j v Hj) as (item & _ & Hk & Hr). simpl. rewrite Hk.
  by rewrite (validate_twice uriRx numberOfString sr Hsr _ _ _ Hr).
Qed.

End JoiShapes.

(** ** The validators: what they return, and when they throw *)

Section ValidatorShapes.

Import Validator.
Context `{Platform}.

Local Abbreviation validate := (Joi.validate uriRx numberOfString).

(** *** [cleanURL] *)

(** X1: on every string [cleanURL] returns a string that holds no
    backslash, that is the string given exactly when that one holds none,
    and that it returns unchanged when it is given it again. *)
Theorem cleanURL_normal_form (url : string) :
  ∃ u, cleanURL (VStr url) = mret (VStr u)
       ∧ includes_backslash u = false
       ∧ (u = url ↔ includes_backslash url = false)
       ∧ cleanURL (VStr u) = mret (VStr u).
Proof.
  rewrite cleanURL_string. destruct (includes_backslash url) eqn:Hb.
  - exists (replace_backslashes (toLowerCase url)). split; [done|].
    pose proof (replace_backslashes_clean (toLowerCase url)) as Hc.
    split; [done|]. split.
    + split; [|done]. intros Heq. rewrite Heq in Hc. congruence.
    + by rewrite cleanURL_string, Hc.
  - exists url. repeat split; [done|]. by rewrite cleanURL_string, Hb.
Qed.

(** *** When a config validator throws *)

Lemma rewrite_of_can k t :
  can_rewrite t = true →
  ∃ t', rewrite_of k t = ([], Returned t')
        ∧ helper_throws (url_of t') = helper_throws (url_of t).
Proof.
  destruct t as [| | | | | |tm]; try done. simpl.
  destruct (default VUndefined (tm !! "url")) as [| | | |u|l|] eqn:Hu; try done.
  - intros _. destruct k; unfold rewrite_of, rewriteTeam, rewriteTeamV1, cleanURL;
      simpl; rewrite Hu; simpl; destruct (includes_backslash u); simpl;
      (eexists; split; [done|]); simpl; by rewrite lookup_insert_eq.
  - intros Hl. apply negb_true_iff in Hl.
    destruct k; unfold rewrite_of, rewriteTeam, rewriteTeamV1, cleanURL;
      simpl; rewrite Hu; simpl; rewrite Hl; simpl;
      (eexists; split; [done|]); simpl; by rewrite lookup_insert_eq.
Qed.

Lemma rewrite_of_cannot k t :
  can_rewrite t = false → rewrite_of k t = ([], Threw TypeError).
Proof.
  destruct t as [| | | | | |tm]; try (by destruct k). simpl.
  destruct (default VUndefined (tm !! "url")) as [| | | |u|l|] eqn:Hu; try done;
    try (intros _; destruct k; unfold rewrite_of, rewriteTeam, rewriteTeamV1, cleanURL;
         simpl; by rewrite Hu).
  intros Hl. apply negb_false_iff in Hl.
  destruct k; unfold rewrite_of, rewriteTeam, rewriteTeamV1, cleanURL;
    simpl; rewrite Hu; simpl; by rewrite Hl.
Qed.

(** The map over the teams throws at a team that cannot be rewritten;
    where it returns, the filter throws exactly when a team does not
    pass. *)
Lemma mapM_rewrite_outcome k teams :
  if forallb can_rewrite teams
  then ∃ ts, mapM (rewrite_of k) teams = ([], Returned ts)
             ∧ teams_throw ts = negb (forallb team_passes teams)
  else mapM (rewrite_of k) teams = ([], Threw TypeError)
       ∧ forallb team_passes teams = false.
Proof.
  unfold teams_throw, team_passes.
  induction teams as [|t teams IH]; simpl; [by eexists|].
  destruct (can_rewrite t) eqn:Ht; simpl.
  - destruct (rewrite_of_can k t Ht) as (t' & -> & Ht').
    destruct (forallb can_rewrite teams).
    + destruct IH as (ts & -> & Hts). simpl. eexists. split; [done|].
      simpl. rewrite Ht', Hts. by destruct (helper_throws (url_of t)).
    + destruct IH as [-> Hts]. simpl. split; [done|]. rewrite Hts. apply andb_false_r.
  - by rewrite (rewrite_of_cannot k t Ht).
Qed.

Lemma nonempty_array_Some (m : gmap string value) teams :
  nonempty_array (default VUndefined (m !! "teams")) = Some teams
  ↔ ∃ t l, m !! "teams" = Some (VArr (t :: l)) ∧ teams = t :: l.
Proof.
  split.
  - destruct (m !! "teams") as [[| | | | |[|t l]|]|]; try done.
    intros [= <-]. eauto.
  - intros (t & l & -> & ->). done.
Qed.

Lemma replaceTeams_outcome k (m : gmap string value) :
  match nonempty_array (default VUndefined (m !! "teams")) with
  | Some teams =>
      if forallb team_passes teams
      then ∃ d, replaceTeams (rewrite_of k) (VObj m) = ([], Returned (VObj d))
                ∧ d !! "spellCheckerURL" = m !! "spellCheckerURL"
      else replaceTeams (rewrite_of k) (VObj m) = ([], Threw TypeError)
  | None => replaceTeams (rewrite_of k) (VObj m) = ([], Returned (VObj m))
  end.
Proof.
  rewrite (replaceTeams_object (rewrite_of k) m (rewrite_of_silent k)).
  destruct (nonempty_array _) as [teams|]; [|done].
  pose proof (mapM_rewrite_outcome k teams) as Hm.
  destruct (forallb can_rewrite teams).
  - destruct Hm as (ts & -> & Hts). simpl. rewrite Hts.
    destruct (forallb team_passes teams); simpl; [|done].
    eexists. split; [done|]. by rewrite lookup_insert_ne.
  - destruct Hm as [-> ->]. done.
Qed.

Lemma sanitize_config_outcome k (m : gmap string value) :
  k ∈ [V1ConfigData; V2ConfigData; V3ConfigData] →
  if preparation_throws k m
  then sanitize k (VObj m) = ([], Threw TypeError)
  else ∃ log d, sanitize k (VObj m) = (log, Returned d).
Proof.
  intros Hk. unfold preparation_throws.
  pose proof (replaceTeams_outcome k m) as Hr.
  assert (∀ d, d !! "spellCheckerURL" = m !! "spellCheckerURL" →
            if guard_throws (default VUndefined (m !! "spellCheckerURL"))
            then dropSpellCheckerURL (VObj d) = ([], Threw TypeError)
            else ∃ log d', dropSpellCheckerURL (VObj d) = (log, Returned d')) as Hdrop.
  { intros d Hd. rewrite dropSpellCheckerURL_object, Hd.
    destruct (guard_throws _); [done|]. destruct (_ && _); eauto. }
  assert (replaceTeams (rewrite_of k) (VObj m) = ([], Threw TypeError)
          ∧ match nonempty_array (default VUndefined (m !! "teams")) with
            | Some teams => negb (forallb team_passes teams)
            | None => false
            end = true
          ∨ (∃ d, replaceTeams (rewrite_of k) (VObj m) = ([], Returned (VObj d))
                  ∧ d !! "spellCheckerURL" = m !! "spellCheckerURL")
            ∧ match nonempty_array (default VUndefined (m !! "teams")) with
              | Some teams => negb (forallb team_passes teams)
              | None => false
              end = false) as [[Ht ->]|[(d & Ht & Hd) ->]].
  { destruct (nonempty_array _) as [teams|]; [|right; eauto].
    destruct (forallb team_passes teams); [right|left]; eauto. }
  - simpl. destruct (sanitize_config k Hk) as [-> | ->]; [done|]. by rewrite Ht.
  - simpl. specialize (Hdrop d Hd).
    repeat (apply elem_of_cons in Hk as [->|Hk]); [| | |by apply elem_of_nil in Hk];
      simpl in Ht |- *; rewrite Ht; [eauto|..]; simpl;
      (destruct (guard_throws _); [by rewrite Hdrop|]);
      destruct Hdrop as (lg & d' & ->); eauto.
Qed.

(** X2: a config validator throws exactly when it is given [undefined]
    or [null], or an object whose preparation throws: its [teams] is a
    non-empty array with a team that does not pass (it is not an object
    with a string or an array without a backslash string for [url], or the
    helper throws on that array), or, from V2 on, its [spellCheckerURL] is
    truthy and the helper throws on it.  What it throws is a TypeError. *)
Theorem config_validator_throws k data :
  k ∈ [V1ConfigData; V2ConfigData; V3ConfigData] →
  ((validator k data).2 = Threw TypeError
   ↔ data = VUndefined ∨ data = VNull
     ∨ ∃ m, data = VObj m ∧ preparation_throws k m = true)
  ∧ (validator k data).2 ≠ Threw SyntaxError.
Proof.
  intros Hk. rewrite validator_outcome.
  assert (∀ d, ∃ v, (validateAgainstSchema d (Some (schema_of k))).2 = Returned v) as Hv.
  { intros d. destruct (validateAgainstSchema_returns d (schema_of k)) as (l & v & -> & _).
    eauto. }
  assert ((∃ m, data = VObj m) ∨ data = VUndefined ∨ data = VNull
          ∨ (sanitize k data = ([], Returned data)
             ∧ data ≠ VUndefined ∧ data ≠ VNull ∧ ∀ m, data ≠ VObj m)) as Hcases.
  { destruct data; eauto; right; right; right;
      (split; [|done]);
      repeat (apply elem_of_cons in Hk as [->|Hk]; [reflexivity|]);
      by apply elem_of_nil in Hk. }
  destruct Hcases as [[m ->]|[->|[->|(Hs & H1 & H2 & H3)]]].
  - pose proof (sanitize_config_outcome k m Hk) as Hs.
    destruct (preparation_throws k m) eqn:Hthrow.
    + rewrite Hs. simpl. split; [|done]. split; [|done]. eauto.
    + destruct Hs as (lg & d & ->). simpl. destruct (Hv d) as [v ->].
      split; [|done]. split; [done|].
      intros [|[|(m' & [= <-] & Hc)]]; try done. congruence.
  - assert (sanitize k VUndefined = ([], Threw TypeError)) as ->.
    { repeat (apply elem_of_cons in Hk as [->|Hk]; [reflexivity|]).
      by apply elem_of_nil in Hk. }
    simpl. split; [|done]. split; auto.
  - assert (sanitize k VNull = ([], Threw TypeError)) as ->.
    { repeat (apply elem_of_cons in Hk as [->|Hk]; [reflexivity|]).
      by apply elem_of_nil in Hk. }
    simpl. split; [|done]. split; auto.
  - rewrite Hs. simpl. destruct (Hv data) as [v ->]. split; [|done]. split; [done|].
    intros [|[|(m' & Hm & _)]]; try done. destruct (H3 _ Hm).
Qed.

(** *** When a store validator throws *)

Lemma sanitize_store k data :
  k ∈ [CertificateStore; TrustedOriginsStore; OriginPermissions] →
  sanitize k data = parse_unless_object data.
Proof.
  intros Hk. repeat (apply elem_of_cons in Hk as [->|Hk]; [reflexivity|]).
  by apply elem_of_nil in Hk.
Qed.

(** X3: a validator of a store throws exactly when it is given a string
    that [JSON.parse] rejects, or [undefined], NaN or an infinity (whose
    texts it rejects); what it throws is a SyntaxError. *)
Theorem store_validator_throws k data :
  k ∈ [CertificateStore; TrustedOriginsStore; OriginPermissions] →
  ((validator k data).2 = Threw SyntaxError
   ↔ data = VUndefined ∨ data = VNum NaN ∨ data = VNum PosInf ∨ data = VNum NegInf
     ∨ ∃ s, data = VStr s ∧ JSON_parse s = None)
  ∧ (validator k data).2 ≠ Threw TypeError.
Proof.
  intros Hk. rewrite validator_outcome, (sanitize_store k data Hk).
  assert (∀ d, ∃ v, (validateAgainstSchema d (Some (schema_of k))).2 = Returned v) as Hv.
  { intros d. destruct (validateAgainstSchema_returns d (schema_of k)) as (l & v & -> & _).
    eauto. }
  destruct data as [| |b|[| | |q]|s|l|m]; simpl;
    try (destruct (Hv VNull) as [v ->]); try (destruct (Hv (VBool b)) as [v ->]);
    try (destruct (Hv (VNum (Fin q))) as [v ->]); try (destruct (Hv (VArr l)) as [v ->]);
    try (destruct (Hv (VObj m)) as [v ->]);
    try (split; [|done]; split; [done|];
         by intros [|[|[|[|(? & ? & _)]]]]);
    try (split; [|done]; split; auto 6).
  destruct (JSON_parse s) as [d|] eqn:Hp; simpl.
  - destruct (Hv d) as [v ->]. split; [|done]. split; [done|].
    intros [|[|[|[|(s' & [= <-] & Hs)]]]]; try done. congruence.
  - split; [|done]. split; [|done]. intros _. do 4 right. eauto.
Qed.

(** *** The log and the result *)

Lemma replaceTeams_silent rw data :
  (∀ t, ∃ r, rw t = ([], r)) → ∃ r, replaceTeams rw data = ([], r).
Proof.
  intros Hrw. destruct data as [| | | | | |m]; try (by eexists).
  rewrite replaceTeams_object by done.
  destruct (nonempty_array _); [|by eexists].
  destruct (mapM rw l).2; [destruct (teams_throw _)|]; by eexists.
Qed.

Lemma dropSpellCheckerURL_log data l r :
  dropSpellCheckerURL data = (l, r) → l = [] ∨ l = [InvalidSpellCheckerURL].
Proof.
  destruct data as [| | | | | |m]; try (intros [= <- <-]; by left).
  rewrite dropSpellCheckerURL_object.
  destruct (guard_throws _); [intros [= <- <-]; auto|].
  destruct (_ && _); intros [= <- <-]; auto.
Qed.

Lemma sanitize_log k data l r :
  sanitize k data = (l, r) → l = [] ∨ l = [InvalidSpellCheckerURL].
Proof.
  assert (∀ d l r, parse_unless_object d = (l, r) → l = []) as Hparse.
  { intros [| |b|[| | |q]|s|ls|m] l' r'; simpl; try (by intros [= <- <-]).
    destruct (JSON_parse s); by intros [= <- <-]. }
  assert (∀ d l r, (d' ← replaceTeams rewriteTeam d; dropSpellCheckerURL d') = (l, r) →
                   l = [] ∨ l = [InvalidSpellCheckerURL]) as Hconfig.
  { intros d l' r'.
    destruct (replaceTeams_silent rewriteTeam d rewriteTeam_silent) as [[d'|e] ->]; simpl.
    - destruct (dropSpellCheckerURL d') as [l2 r2] eqn:Hd. intros [= <- <-].
      by apply dropSpellCheckerURL_log in Hd.
    - intros [= <- <-]. by left. }
  destruct k; simpl; eauto; try (intros [= <- <-]; by left).
  destruct (replaceTeams_silent rewriteTeamV1 data rewriteTeamV1_silent) as [r' ->].
  intros [= <- <-]. by left.
Qed.

Lemma validateAgainstSchema_result data s l v :
  validateAgainstSchema data (Some s) = (l, Returned v) →
  (v = VNull ∧ ∃ d, l = [d] ∧ is_failure d = true)
  ∨ (l = [] ∧ typeof data = "object" ∧ schema_validate s data = Joi.Valid v).
Proof.
  unfold validateAgainstSchema.
  destruct (String.eqb (typeof data) "object") eqn:Ht; simpl.
  - apply String.eqb_eq in Ht.
    destruct (schema_validate s data) as [v'|e]; simpl; intros [= <- <-]; eauto 10.
  - intros [= <- <-]. eauto 10.
Qed.

Lemma schema_validate_out k d v :
  typeof d = "object" → schema_validate (schema_of k) d = Joi.Valid v →
  (∃ o, v = VObj o) ∨ (∃ l, v = VArr l).
Proof.
  intros Ht. destruct (decide (k = AllowedProtocols)) as [->|Hk].
  - destruct d as [| | | | |l|m]; try done. unfold schema_validate. simpl.
    unfold Joi.run. simpl.
    destruct (Joi.validate_items _ _ _ _); [done|]. intros [= <-]. eauto.
  - destruct d as [| | | | |l|m]; try done; [by destruct k..|].
    destruct (schema_of_object k Hk) as (f & ks & pat & -> & Hf & Hkp).
    unfold schema_validate. rewrite validate_object_general by done.
    unfold Joi.validate_object. destruct (Joi.validate_keys _ _ _); [done|].
    destruct (Joi.validate_unknown _ _); [done|]. intros [= <-]. eauto.
Qed.

(** X4: a validator that returns has returned [null] exactly when the
    last thing it logged is that it gave up: nothing is rejected without
    a log entry, and nothing is logged after a failure.  Before that entry
    the log holds at most the removal of a spell-checker URL; a result
    other than [null] is an object or an array. *)
Theorem null_iff_failure_logged k data log v :
  validator k data = (log, Returned v) →
  ∃ l, (l = [] ∨ l = [InvalidSpellCheckerURL])
       ∧ ((v = VNull ∧ ∃ d, log = l ++ [d] ∧ is_failure d = true)
          ∨ (log = l ∧ ((∃ o, v = VObj o) ∨ (∃ items, v = VArr items)))).
Proof.
  rewrite validator_eq. intros Hr.
  apply M_bind_returned in Hr as (l1 & d & l2 & Hs & Hv & ->).
  exists l1. split; [by eapply sanitize_log|].
  apply validateAgainstSchema_result in Hv as [(-> & e & -> & He)|(-> & Ht & Hv)].
  - left. eauto.
  - right. rewrite app_nil_r. split; [done|]. by eapply schema_validate_out.
Qed.

(** *** The records that come out *)

Lemma keys_of_schema k :
  keys_of k ≠ [] → schema_of k = Joi.SObject Joi.no_flags (Some (keys_of k)) None.
Proof. destruct k; intros Hne; try reflexivity; by destruct Hne. Qed.

Lemma keys_of_NoDup k : NoDup (keys_of k).*1.
Proof. destruct k; apply (bool_decide_unpack _); by vm_compute. Qed.

Lemma elem_of_keys_of k j s : In (j, s) (keys_of k) → (j, s) ∈ keys_of k.
Proof. apply list_elem_of_In. Qed.

Lemma schema_validate_record k (m : gmap string value) out :
  keys_of k ≠ [] →
  schema_validate (schema_of k) (VObj m) = Joi.Valid out →
  ∃ o, out = VObj o
    ∧ (∀ j, j ∉ (keys_of k).*1 → o !! j = None)
    ∧ (∀ j s, (j, s) ∈ keys_of k →
        ∃ r, validate s [Joi.PKey j] (default VUndefined (m !! j)) = Joi.Valid r
             ∧ o !! j = match r with VUndefined => m !! j | _ => Some r end).
Proof.
  intros Hne Hv. unfold schema_validate in Hv. rewrite keys_of_schema in Hv by done.
  apply validate_object_accepts in Hv; [done|done|apply keys_of_NoDup].
Qed.

Lemma validateAgainstSchema_record k data log v :
  validateAgainstSchema data (Some (schema_of k)) = (log, Returned v) →
  v ≠ VNull → keys_of k ≠ [] →
  log = [] ∧ ∃ m, data = VObj m ∧ schema_validate (schema_of k) data = Joi.Valid v.
Proof.
  intros Hv Hnn Hne.
  apply validateAgainstSchema_result in Hv as [[-> _]|(-> & Ht & Hv)]; [done|].
  split; [done|]. destruct data as [| | | | |l|m]; try done.
  - exfalso. unfold schema_validate in Hv. by rewrite keys_of_schema in Hv.
  - exfalso. unfold schema_validate in Hv. by rewrite keys_of_schema in Hv.
  - eauto.
Qed.

Lemma integer_min_ok limit q :
  Joi.first_failure Joi.number_rule_ok [Joi.RInteger; Joi.RMin limit] q = None →
  is_integral q = true ∧ (limit <= q)%Q.
Proof.
  simpl. destruct (is_integral q); [|done].
  destruct (Qle_bool limit q) eqn:Hq; [|done]. by apply Qle_bool_iff in Hq.
Qed.

Lemma integer_ok q :
  Joi.first_failure Joi.number_rule_ok [Joi.RInteger] q = None → is_integral q = true.
Proof. simpl. by destruct (is_integral q). Qed.

(** X5: a window state that [validateBoundsInfo] returns has exactly the
    six fields of the schema: [x], [y], [width] and [height] are safe
    integers, the width and the height at least the minimum, and
    [maximized] and [fullscreen] are booleans; nothing is logged. *)
Theorem validateBoundsInfo_output data log v :
  validateBoundsInfo data = (log, Returned v) → v ≠ VNull →
  log = [] ∧
  ∃ x y width height maximized fullscreen,
    v = record [("x", VNum (Fin x)); ("y", VNum (Fin y));
                ("width", VNum (Fin width)); ("height", VNum (Fin height));
                ("maximized", VBool maximized); ("fullscreen", VBool fullscreen)]
    ∧ Forall (λ q, is_integral q = true ∧ safe q) [x; y; width; height]
    ∧ (minWindowWidth <= width)%Q ∧ (minWindowHeight <= height)%Q.
Proof.
  intros Hv Hnn.
  apply (validateAgainstSchema_record BoundsInfo) in Hv as (-> & m & -> & Hv);
    [|done..].
  split; [done|].
  apply schema_validate_record in Hv as (o & -> & Hnone & Hall); [|done].
  pose proof (λ j s Hin, Hall j s (elem_of_keys_of BoundsInfo j s Hin)) as Hin.
  destruct (Hin "x" _ (or_introl eq_refl)) as (rx & Hrx & Hox).
  destruct (Hin "y" _ (or_intror (or_introl eq_refl))) as (ry & Hry & Hoy).
  destruct (Hin "width" _ (or_intror (or_intror (or_introl eq_refl))))
    as (rw & Hrw & How).
  destruct (Hin "height" _ (or_intror (or_intror (or_intror (or_introl eq_refl)))))
    as (rh & Hrh & Hoh).
  destruct (Hin "maximized" _
              (or_intror (or_intror (or_intror (or_intror (or_introl eq_refl))))))
    as (rm & Hrm & Hom).
  destruct (Hin "fullscreen" _
              (or_intror (or_intror (or_intror (or_intror (or_intror (or_introl eq_refl)))))))
    as (rf & Hrf & Hof).
  clear Hin Hall.
  apply number_key in Hrx as (x & -> & Hsx & Hx); [|done|by vm_compute].
  apply number_key in Hry as (y & -> & Hsy & Hy); [|done|by vm_compute].
  apply number_key in Hrw as (w & -> & Hsw & Hw); [|done|by vm_compute].
  apply number_key in Hrh as (h & -> & Hsh & Hh); [|done|by vm_compute].
  apply boolean_key in Hrm as (mx & ->); [|done..].
  apply boolean_key in Hrf as (fs & ->); [|done..].
  apply integer_ok in Hx, Hy. apply integer_min_ok in Hw as [Hw Hwm], Hh as [Hh Hhm].
  exists x, y, w, h, mx, fs.
  split; [|split; [repeat (apply Forall_cons_2; [done|]); apply Forall_nil_2|done]].
  unfold record. f_equal. apply map_eq. intros j. simpl.
  destruct (decide (j = "x")) as [->|]; [by rewrite Hox|].
  destruct (decide (j = "y")) as [->|]; [by rewrite Hoy|].
  destruct (decide (j = "width")) as [->|]; [by rewrite How|].
  destruct (decide (j = "height")) as [->|]; [by rewrite Hoh|].
  destruct (decide (j = "maximized")) as [->|]; [by rewrite Hom|].
  destruct (decide (j = "fullscreen")) as [->|]; [by rewrite Hof|].
  rewrite !lookup_insert_ne, lookup_empty by done.
  apply Hnone. simpl. rewrite !not_elem_of_cons. repeat split; try done.
  apply not_elem_of_nil.
Qed.

(** X6: [validateV0ConfigData] returns an object as [{url}] when its
    [url] is a text that is not empty, and nothing else of it; it rejects
    every other object, with the error of the [url]. *)
Theorem validateV0ConfigData_object (m : gmap string value) :
  validateV0ConfigData (VObj m) =
    match default VUndefined (m !! "url") with
    | VStr s =>
        if String.eqb s ""
        then ([ValidationFailed (Joi.Error Joi.string_empty [Joi.PKey "url"])],
              Returned VNull)
        else ([], Returned (record [("url", VStr s)]))
    | VUndefined =>
        ([ValidationFailed (Joi.Error Joi.any_required [Joi.PKey "url"])],
         Returned VNull)
    | _ =>
        ([ValidationFailed (Joi.Error Joi.string_base [Joi.PKey "url"])],
         Returned VNull)
    end.
Proof.
  unfold validateV0ConfigData. rewrite validateAgainstSchema_object.
  unfold schema_validate, configDataSchemaV0, Joi.object.
  rewrite validate_object_eq by done.
  cbn [Joi.validate_keys map fst snd app].
  destruct (default VUndefined (m !! "url")) as [| | | |s| |] eqn:Hu; try done.
  simpl. unfold Joi.run. simpl. destruct (String.eqb s ""); [done|]. simpl.
  unfold record. apply (f_equal (λ x, ([], Returned (VObj x)) : M value)).
  apply map_eq. intros j. rewrite lookup_filter_keys. simpl.
  destruct (decide (j = "url")) as [->|Hj].
  - rewrite decide_True by (by apply list_elem_of_singleton).
    by rewrite !lookup_insert_eq.
  - rewrite decide_False by (by rewrite list_elem_of_singleton).
    by rewrite lookup_insert_ne, lookup_empty.
Qed.

(** *** Records without rewriting: each field on its own *)

Lemma sanitize_record k (m : gmap string value) :
  k ∈ [Args; BoundsInfo; AppState; V0ConfigData; OriginPermissions] →
  sanitize k (VObj m) = mret (VObj m).
Proof.
  intros Hk. repeat (apply elem_of_cons in Hk as [->|Hk]; [reflexivity|]).
  by apply elem_of_nil in Hk.
Qed.

Lemma validator_record k (m : gmap string value) :
  k ∈ [Args; BoundsInfo; AppState; V0ConfigData; OriginPermissions] →
  validator k (VObj m) =
    match validate (Joi.SObject Joi.no_flags (Some (keys_of k)) None) [] (VObj m) with
    | Joi.Invalid e => ([ValidationFailed e], Returned VNull)
    | Joi.Valid v => ([], Returned v)
    end.
Proof.
  intros Hk. rewrite validator_eq, sanitize_record, M_bind_ret by done.
  rewrite validateAgainstSchema_object. unfold schema_validate.
  rewrite keys_of_schema; [done|].
  repeat (apply elem_of_cons in Hk as [->|Hk]; [done|]). by apply elem_of_nil in Hk.
Qed.

(** X7: the validators of the arguments, the window state, the state of
    the app, the first config and the permissions of an origin check each
    declared field on its own: an object is returned as a record exactly
    when every declared field passes its schema, whatever else the object
    holds; otherwise the validator logs the failure and returns [null]. *)
Theorem record_accepted_iff k (m : gmap string value) :
  k ∈ [Args; BoundsInfo; AppState; V0ConfigData; OriginPermissions] →
  ((∃ o, validator k (VObj m) = ([], Returned (VObj o)))
   ↔ ∀ j s, (j, s) ∈ keys_of k →
       Joi.is_valid (validate s [Joi.PKey j] (default VUndefined (m !! j))) = true)
  ∧ ((∃ o, validator k (VObj m) = ([], Returned (VObj o)))
     ∨ ∃ e, validator k (VObj m) = ([ValidationFailed e], Returned VNull)).
Proof.
  intros Hk. rewrite validator_record by done.
  pose proof (validate_object_iff uriRx numberOfString Joi.no_flags (keys_of k) [] m
                eq_refl (keys_of_NoDup k)) as Hiff.
  simpl app in Hiff. rewrite <- Hiff.
  destruct (validate _ [] (VObj m)) as [out|e] eqn:Hout.
  - apply validate_object_accepts in Hout as (o & -> & _); [|done|apply keys_of_NoDup].
    split; [|eauto]. split; [done|eauto].
  - split; [|eauto]. split; [|done]. by intros [o [=]].
Qed.

Lemma string_text_or_absent p v :
  Joi.is_valid (validate Joi.string p v) = text_or_absent v.
Proof.
  destruct v as [| | | |s| |]; try done. simpl. unfold Joi.run. simpl.
  by destruct (String.eqb s "").
Qed.

(** X8: [validateAppState] returns an object exactly when each of its
    three fields is left out or is a text that is not empty, and what it
    returns is the object restricted to the three fields, each as it was. *)
Theorem validateAppState_object (m : gmap string value) :
  let fields := ["lastAppVersion"; "skippedVersion"; "updateCheckedDate"] in
  if forallb (λ j, text_or_absent (default VUndefined (m !! j))) fields
  then validateAppState (VObj m)
       = ([], Returned (VObj (filter (λ kv, kv.1 ∈ fields) m)))
  else ∃ e, validateAppState (VObj m) = ([ValidationFailed e], Returned VNull).
Proof.
  intros fields.
  pose proof (validator_record AppState m) as Hv. simpl validator in Hv.
  rewrite Hv by set_solver. clear Hv.
  pose proof (validate_object_iff uriRx numberOfString Joi.no_flags (keys_of AppState) [] m
                eq_refl (keys_of_NoDup AppState)) as Hiff. simpl app in Hiff.
  destruct (forallb _ fields) eqn:Hall.
  - destruct (validate _ [] (VObj m)) as [out|e] eqn:Hout.
    + apply validate_object_accepts in Hout as (o & -> & Hnone & Hkeys);
        [|done|apply keys_of_NoDup].
      do 3 f_equal. apply map_eq. intros j. rewrite lookup_filter_keys.
      case_decide as Hj.
      * assert ((j, Joi.string) ∈ keys_of AppState) as Hin.
        { apply elem_of_keys_of. simpl.
          repeat (apply elem_of_cons in Hj as [->|Hj]; [tauto|]).
          by apply elem_of_nil in Hj. }
        destruct (Hkeys j _ Hin) as (r & Hr & ->).
        apply string_key in Hr as [-> _]; [|done..].
        by destruct (m !! j) as [[]|].
      * by apply Hnone.
    + exfalso. assert (Joi.is_valid (Joi.Invalid e) = true) as Hc; [|done].
      apply Hiff. intros j s Hin. apply list_elem_of_In in Hin. simpl in Hall.
      rewrite !andb_true_iff in Hall. destruct Hall as (H1 & H2 & H3 & _).
      destruct Hin as [[= <- <-]|[[= <- <-]|[[= <- <-]|[]]]];
        by rewrite string_text_or_absent.
  - destruct (validate _ [] (VObj m)) as [out|e] eqn:Hout; [|eauto].
    exfalso. assert (Joi.is_valid (Joi.Valid out) = true) as Hc by done.
    rewrite Hiff in Hc.
    assert (forallb (λ j, text_or_absent (default VUndefined (m !! j))) fields = true);
      [|congruence].
    simpl. rewrite !andb_true_iff. repeat split.
    + rewrite <- (string_text_or_absent [Joi.PKey "lastAppVersion"]).
      apply Hc, elem_of_keys_of. simpl. tauto.
    + rewrite <- (string_text_or_absent [Joi.PKey "skippedVersion"]).
      apply Hc, elem_of_keys_of. simpl. tauto.
    + rewrite <- (string_text_or_absent [Joi.PKey "updateCheckedDate"]).
      apply Hc, elem_of_keys_of. simpl. tauto.
Qed.

Lemma parse_unless_object_log d l r : parse_unless_object d = (l, r) → l = [].
Proof.
  destruct d as [| |b|[| | |q]|s|ls|m]; simpl; try (by intros [= <- <-]).
  destruct (JSON_parse s); by intros [= <- <-].
Qed.

(** X9: the permissions [validateOriginPermissions] returns are exactly
    [{canBasicAuth}] with a boolean, whatever it was given, as an object or
    as a text. *)
Theorem validateOriginPermissions_output data log v :
  validateOriginPermissions data = (log, Returned v) → v ≠ VNull →
  log = [] ∧ ∃ b, v = record [("canBasicAuth", VBool b)].
Proof.
  intros Hv Hnn. unfold validateOriginPermissions in Hv.
  apply M_bind_returned in Hv as (l1 & d & l2 & Hp & Hv & ->).
  apply parse_unless_object_log in Hp as ->.
  apply (validateAgainstSchema_record OriginPermissions) in Hv as (-> & m & -> & Hv);
    [|done..].
  split; [done|].
  apply schema_validate_record in Hv as (o & -> & Hnone & Hall); [|done].
  destruct (Hall "canBasicAuth" _ (elem_of_keys_of OriginPermissions _ _ (or_introl eq_refl)))
    as (r & Hr & Ho).
  apply boolean_key in Hr as (b & ->); [|done..].
  exists b. unfold record. f_equal. apply map_eq. intros j. simpl.
  destruct (decide (j = "canBasicAuth")) as [->|]; [by rewrite Ho|].
  rewrite lookup_insert_ne, lookup_empty by done.
  apply Hnone. simpl. rewrite !not_elem_of_cons. split; [done|]. apply not_elem_of_nil.
Qed.

(** *** Defaults *)

Lemma replaceTeams_lookup rw (m : gmap string value) l d :
  (∀ t, ∃ r, rw t = ([], r)) →
  replaceTeams rw (VObj m) = (l, Returned d) →
  l = [] ∧ ∃ d1, d = VObj d1 ∧ ∀ j, j ≠ "teams" → d1 !! j = m !! j.
Proof.
  intros Hrw. rewrite replaceTeams_object by done.
  destruct (nonempty_array _) as [teams|].
  - destruct (mapM rw teams).2; [destruct (teams_throw _)|]; intros [= <- <-].
    split; [done|].
    eexists. split; [done|]. intros j Hj. by rewrite lookup_insert_ne.
  - intros [= <- <-]. eauto.
Qed.

Lemma replaceTeams_absent rw (m : gmap string value) l d :
  (∀ t, ∃ r, rw t = ([], r)) → m !! "teams" = None →
  replaceTeams rw (VObj m) = (l, Returned d) → d = VObj m.
Proof.
  intros Hrw Hm. rewrite replaceTeams_object by done. rewrite Hm. simpl.
  by intros [= <- <-].
Qed.

Lemma sanitize_absent k (m d : gmap string value) log j :
  sanitize k (VObj m) = (log, Returned (VObj d)) → m !! j = None → d !! j = None.
Proof.
  intros Hs Hm.
  assert (∀ rw l d1, (∀ t, ∃ r, rw t = ([], r)) →
            replaceTeams rw (VObj m) = (l, Returned (VObj d1)) → d1 !! j = None) as Hteams.
  { intros rw l d1 Hrw Hr. destruct (decide (j = "teams")) as [->|Hj].
    - apply replaceTeams_absent in Hr; [|done..]. by injection Hr as <-.
    - apply replaceTeams_lookup in Hr as (_ & d2 & [= <-] & Hl); [|done].
      by rewrite Hl. }
  assert (∀ d1 l d2, d1 !! j = None →
            dropSpellCheckerURL (VObj d1) = (l, Returned (VObj d2)) → d2 !! j = None)
    as Hdrop.
  { intros d1 l d2 Hd1. rewrite dropSpellCheckerURL_object.
    destruct (guard_throws _); [done|].
    destruct (_ && _); intros [= <- <-]; [|done]. apply lookup_delete_None. auto. }
  assert (∀ l, (d' ← replaceTeams rewriteTeam (VObj m); dropSpellCheckerURL d')
               = (l, Returned (VObj d)) → d !! j = None) as Hconfig.
  { intros l Hb. apply M_bind_returned in Hb as (l1 & d1 & l2 & Hr & Hd & _).
    pose proof Hr as Hr'.
    apply replaceTeams_lookup in Hr' as (_ & d2 & -> & _); [|apply rewriteTeam_silent].
    eapply Hdrop; [|done]. by eapply Hteams; [apply rewriteTeam_silent|]. }
  destruct k; simpl in Hs; eauto using rewriteTeamV1_silent;
    by injection Hs as <- <-.
Qed.

Lemma no_undefined_default k j s :
  (j, s) ∈ keys_of k → Joi.f_default (Joi.flags_of s) ≠ Some VUndefined.
Proof.
  intros Hin. apply list_elem_of_In in Hin.
  destruct k; simpl in Hin;
    repeat (destruct Hin as [[= <- <-]|Hin]; [done|]); done.
Qed.

Lemma validator_record_out k (m o : gmap string value) log :
  validator k (VObj m) = (log, Returned (VObj o)) → keys_of k ≠ [] →
  ∃ d, sanitize k (VObj m) = (log, Returned (VObj d))
    ∧ (∀ j, j ∉ (keys_of k).*1 → o !! j = None)
    ∧ (∀ j s, (j, s) ∈ keys_of k →
        ∃ r, validate s [Joi.PKey j] (default VUndefined (d !! j)) = Joi.Valid r
             ∧ o !! j = match r with VUndefined => d !! j | _ => Some r end).
Proof.
  intros Hv Hne. apply validator_returned in Hv as (l1 & d & l2 & Hs & Hv & ->).
  apply validateAgainstSchema_record in Hv as (-> & _ & _ & Hv); [|done..].
  apply schema_validate_record in Hv as (o' & [= <-] & Hnone & Hall); [|done].
  exists d. by rewrite app_nil_r.
Qed.

(** X10: a declared field that the object leaves out comes out with the
    default of its schema, and is left out of the result when its schema
    has none. *)
Theorem defaults_filled k (m o : gmap string value) log j s :
  (j, s) ∈ keys_of k → m !! j = None →
  validator k (VObj m) = (log, Returned (VObj o)) →
  o !! j = Joi.f_default (Joi.flags_of s).
Proof.
  intros Hin Hm Hv.
  apply validator_record_out in Hv as (d & Hs & _ & Hall);
    [|intros Hnil; rewrite Hnil in Hin; by apply elem_of_nil in Hin].
  destruct (Hall j s Hin) as (r & Hr & ->).
  rewrite (sanitize_absent _ _ _ _ _ Hs Hm) in *. simpl in Hr.
  rewrite validate_undefined in Hr. pose proof (no_undefined_default k j s Hin) as Hd.
  destruct (Joi.f_presence _); [|done]. injection Hr as <-.
  destruct (Joi.f_default _) as [[]|]; done.
Qed.

(** *** Fields of a config record *)

Lemma config_keys_of k :
  k ∈ [V1ConfigData; V2ConfigData; V3ConfigData] → keys_of k ≠ [].
Proof.
  intros Hk. repeat (apply elem_of_cons in Hk as [->|Hk]; [done|]).
  by apply elem_of_nil in Hk.
Qed.

Lemma config_field_rejected k (m : gmap string value) j s :
  k ∈ [V1ConfigData; V2ConfigData; V3ConfigData] →
  j ≠ "teams" → j ≠ "spellCheckerURL" → (j, s) ∈ keys_of k →
  Joi.is_valid (validate s [Joi.PKey j] (default VUndefined (m !! j))) = false →
  (validator k (VObj m)).2 = Returned VNull
  ∨ (validator k (VObj m)).2 = Threw TypeError.
Proof.
  intros Hk Hj1 Hj2 Hin Hbad. rewrite validator_outcome.
  destruct (sanitize k (VObj m)) as [l [d|e]] eqn:Hs; simpl.
  - left. destruct (sanitize_object _ _ _ _ Hs) as [d' ->].
    rewrite validateAgainstSchema_value. unfold schema_validate.
    rewrite keys_of_schema by by apply config_keys_of.
    rewrite <- (sanitize_lookup _ _ _ _ j Hj1 Hj2 Hs) in Hbad.
    destruct (validate_object_rejects uriRx numberOfString Joi.no_flags (keys_of k) j s []
                d' eq_refl (keys_of_NoDup k) Hin Hbad) as [e ->].
    done.
  - right. f_equal. by eapply sanitize_config_throws.
Qed.

Lemma config_field_out k (m o : gmap string value) log j s :
  k ∈ [V1ConfigData; V2ConfigData; V3ConfigData] →
  j ≠ "teams" → j ≠ "spellCheckerURL" → (j, s) ∈ keys_of k →
  validator k (VObj m) = (log, Returned (VObj o)) →
  ∃ r, validate s [Joi.PKey j] (default VUndefined (m !! j)) = Joi.Valid r
       ∧ o !! j = match r with VUndefined => m !! j | _ => Some r end.
Proof.
  intros Hk Hj1 Hj2 Hin Hv.
  apply validator_record_out in Hv as (d & Hs & _ & Hall); [|by apply config_keys_of].
  destruct (Hall j s Hin) as (r & Hr & Ho).
  rewrite (sanitize_lookup _ _ _ _ j Hj1 Hj2 Hs) in Hr, Ho. eauto.
Qed.

Lemma config_version_in k :
  k ∈ [V1ConfigData; V2ConfigData; V3ConfigData] →
  ("version", Joi.default (VNum (Fin (min_version k))) (Joi.min (min_version k) Joi.number))
    ∈ keys_of k.
Proof.
  intros Hk. apply elem_of_keys_of.
  repeat (apply elem_of_cons in Hk as [->|Hk]; [simpl; tauto|]).
  by apply elem_of_nil in Hk.
Qed.

(** X11: a config record whose [version] is a number below the minimum
    of its schema (1 for the first, 2 for the later ones) is not returned:
    the validator returns [null], unless the teams make it throw. *)
Theorem version_below_minimum k (m : gmap string value) n :
  k ∈ [V1ConfigData; V2ConfigData; V3ConfigData] →
  m !! "version" = Some (VNum n) → num_ltb n (Fin (min_version k)) = true →
  (validator k (VObj m)).2 = Returned VNull
  ∨ (validator k (VObj m)).2 = Threw TypeError.
Proof.
  intros Hk Hm Hn.
  eapply (config_field_rejected k m "version");
    [done|done|done|by apply config_version_in|].
  rewrite Hm. simpl default.
  exact (number_min_rejects
           (Joi.Flags Joi.Optional (Some (VNum (Fin (min_version k)))) [] false)
           [] (min_version k) [] _ n eq_refl Hn).
Qed.

Lemma theme_validate p v :
  v ≠ VUndefined →
  validate trayIconThemeSchema p v =
    if is_theme v then Joi.Valid v else Joi.Invalid (Joi.Error Joi.any_only p).
Proof.
  intros Hv. destruct v as [| | | |s| |]; try done.
  cbn -[String.eqb]. unfold Joi.run. cbn -[String.eqb].
  rewrite (String.eqb_sym "" s), (String.eqb_sym "light" s), (String.eqb_sym "dark" s).
  rewrite orb_false_r, orb_assoc. by destruct (_ || _).
Qed.

Lemma config_theme_in k :
  k ∈ [V1ConfigData; V2ConfigData; V3ConfigData] →
  ("trayIconTheme", trayIconThemeSchema) ∈ keys_of k.
Proof.
  intros Hk. apply elem_of_keys_of.
  repeat (apply elem_of_cons in Hk as [->|Hk]; [simpl; tauto|]).
  by apply elem_of_nil in Hk.
Qed.

(** X12: the [trayIconTheme] of a config record is one of the empty
    text, [light] and [dark]: a record with one of them keeps it, and a
    record with any other value is not returned. *)
Theorem trayIconTheme_enumerated k (m : gmap string value) v :
  k ∈ [V1ConfigData; V2ConfigData; V3ConfigData] →
  m !! "trayIconTheme" = Some v → v ≠ VUndefined →
  if is_theme v
  then ∀ log o, validator k (VObj m) = (log, Returned (VObj o)) →
                o !! "trayIconTheme" = Some v
  else (validator k (VObj m)).2 = Returned VNull
       ∨ (validator k (VObj m)).2 = Threw TypeError.
Proof.
  intros Hk Hm Hv. pose proof (theme_validate [Joi.PKey "trayIconTheme"] v Hv) as Ht.
  destruct (is_theme v).
  - intros log o Ho.
    eapply (config_field_out k m o log "trayIconTheme") in Ho
      as (r & Hr & ->); [|done|done|done|by apply config_theme_in].
    rewrite Hm in Hr. change (default VUndefined (Some v)) with v in Hr.
    rewrite Ht in Hr. injection Hr as <-. by destruct v.
  - eapply (config_field_rejected k m "trayIconTheme");
      [done|done|done|by apply config_theme_in|].
    rewrite Hm. change (default VUndefined (Some v)) with v. by rewrite Ht.
Qed.

(** *** The spell-checker URL that stays *)

Lemma sanitize_keeps_spellCheckerURL k (m d : gmap string value) log x :
  k ∈ [V2ConfigData; V3ConfigData] →
  m !! "spellCheckerURL" = Some x → truthy x && negb (isValidURL x) = false →
  sanitize k (VObj m) = (log, Returned (VObj d)) →
  log = [] ∧ d !! "spellCheckerURL" = Some x.
Proof.
  intros Hk Hm Hg Hs.
  assert (sanitize k (VObj m)
          = (d' ← replaceTeams rewriteTeam (VObj m); dropSpellCheckerURL d')) as Heq.
  { repeat (apply elem_of_cons in Hk as [->|Hk]; [done|]). by apply elem_of_nil in Hk. }
  rewrite Heq in Hs. apply M_bind_returned in Hs as (l1 & d1 & l2 & Hr & Hd & ->).
  apply replaceTeams_lookup in Hr as (-> & d2 & -> & Hl); [|apply rewriteTeam_silent].
  rewrite dropSpellCheckerURL_object, (Hl "spellCheckerURL"), Hm in Hd by done.
  simpl in Hd. destruct (guard_throws x); [done|].
  rewrite Hg in Hd. injection Hd as <- <-.
  by rewrite (Hl "spellCheckerURL"), Hm.
Qed.

Lemma nullable_string_shape p v r :
  validate (Joi.allow [Joi.LNull] Joi.string) p v = Joi.Valid r →
  v = VUndefined ∨ v = VNull ∨ ∃ s, v = VStr s ∧ s ≠ "".
Proof.
  destruct v as [| | | |s| |]; try done; auto.
  simpl. unfold Joi.run. simpl. destruct (String.eqb s "") eqn:Hs; [done|].
  apply String.eqb_neq in Hs. eauto.
Qed.

(** X13: a [spellCheckerURL] that the test of the validator lets stand
    (it is falsy, or a valid URL) comes out of a V2 or V3 record as it
    went in, and nothing is logged; it is then [null], or a text that is not
    empty (or undefined). *)
Theorem spellCheckerURL_kept k (m o : gmap string value) x log :
  k ∈ [V2ConfigData; V3ConfigData] →
  m !! "spellCheckerURL" = Some x → truthy x && negb (isValidURL x) = false →
  validator k (VObj m) = (log, Returned (VObj o)) →
  log = [] ∧ o !! "spellCheckerURL" = Some x
  ∧ (x = VUndefined ∨ x = VNull ∨ ∃ s, x = VStr s ∧ s ≠ "").
Proof.
  intros Hk Hm Hg Hv.
  assert (("spellCheckerURL", Joi.allow [Joi.LNull] Joi.string) ∈ keys_of k) as Hin.
  { apply elem_of_keys_of.
    repeat (apply elem_of_cons in Hk as [->|Hk]; [simpl; tauto|]).
    by apply elem_of_nil in Hk. }
  apply validator_record_out in Hv as (d & Hs & _ & Hall);
    [|intros Hnil; rewrite Hnil in Hin; by apply elem_of_nil in Hin].
  destruct (sanitize_keeps_spellCheckerURL k m d log x Hk Hm Hg Hs) as [-> Hd].
  destruct (Hall _ _ Hin) as (r & Hr & ->). rewrite Hd in *.
  change (default VUndefined (Some x)) with x in Hr.
  pose proof (validate_nullable_string _ _ _ Hr) as ->.
  apply nullable_string_shape in Hr. split; [done|]. split; [by destruct x|done].
Qed.

(** *** The teams that come out *)

Lemma team_shape k p t out :
  t ≠ VUndefined → validate (teamSchema_of k) p t = Joi.Valid out →
  ∃ om name url, out = VObj om
    ∧ om !! "name" = Some (VStr name) ∧ name ≠ ""
    ∧ om !! "url" = Some (VStr url) ∧ url ≠ ""
    ∧ (∀ j, j ∉ team_fields k → om !! j = None).
Proof.
  intros Hdef Hv. pose proof (team_keys_NoDup k) as Hnd. unfold team_fields.
  destruct (team_schema k) as (l & Hl & Hname & Hurl). rewrite Hl in *.
  destruct (validate_object_defined _ _ Joi.no_flags _ _ _ _ eq_refl eq_refl Hdef Hv)
    as [tm ->].
  apply validate_object_accepts in Hv as (om & -> & Hnone & Hall); [|done|exact Hnd].
  destruct (Hall _ _ Hname) as (rn & Hrn & Hon).
  destruct (Hall _ _ Hurl) as (ru & Hru & Hou).
  pose proof Hrn as Hn. apply validate_required_string in Hn as (n & Hn & ->).
  pose proof Hru as Hu. apply validate_required_string in Hu as (u & Hu & ->).
  rewrite Hn in Hrn. rewrite Hu in Hru.
  apply (string_valid uriRx numberOfString
           (Joi.Flags Joi.Required None [] false) []) in Hrn
    as (? & [= <-] & _ & Hne & _); [|done..].
  apply (string_valid uriRx numberOfString
           (Joi.Flags Joi.Required None [] false) []) in Hru
    as (? & [= <-] & _ & Hue & _); [|done..].
  exists om, n, u. eauto 10.
Qed.

(** X14: every team of a record that a config validator returns is an
    object with a name and a URL that are texts and not empty; the URL
    holds no backslash and is a valid URL; and the team holds no field that
    the schema of a team does not declare. *)
Theorem config_teams_output k (m o : gmap string value) log :
  k ∈ [V1ConfigData; V2ConfigData; V3ConfigData] →
  validator k (VObj m) = (log, Returned (VObj o)) →
  ∃ outs, o !! "teams" = Some (VArr outs)
    ∧ Forall (λ out, ∃ om name url, out = VObj om
                ∧ om !! "name" = Some (VStr name) ∧ name ≠ ""
                ∧ om !! "url" = Some (VStr url) ∧ url ≠ ""
                ∧ includes_backslash url = false ∧ isValidURL (VStr url) = true
                ∧ (∀ j, j ∉ team_fields k → om !! j = None)) outs.
Proof.
  intros Hk Hrun.
  destruct (config_teams_fixed k m o log Hk Hrun) as (outs & Ho & Hfix).
  exists outs. split; [done|].
  apply validator_returned in Hrun as (l1 & d & l2 & Hs & Hv & ->).
  rewrite validateAgainstSchema_object in Hv.
  destruct (schema_validate _ _) as [v|] eqn:Hsv; [|done]. injection Hv as _ ->.
  destruct (config_teams_out k d o Hk Hsv) as (kept & outs' & _ & Ho' & Hitems).
  rewrite Ho in Ho'. injection Ho' as <-.
  apply validate_items_inr in Hitems.
  assert (Forall (λ out, ∃ om name url, out = VObj om
                ∧ om !! "name" = Some (VStr name) ∧ name ≠ ""
                ∧ om !! "url" = Some (VStr url) ∧ url ≠ ""
                ∧ (∀ j, j ∉ team_fields k → om !! j = None)) outs) as Hshape.
  { eapply Forall2_Forall_right; [exact Hitems|]. simpl.
    intros x y (j & Hj & Hx & _). by eapply team_shape. }
  pose proof (conj Hshape Hfix) as Hboth. rewrite <- Forall_and in Hboth.
  eapply Forall_impl; [exact Hboth|]. simpl.
  intros out [(om & name & url & -> & Hn & Hne & Hu & Hue & Hnone) (Hrw & Hvalid & _)].
  assert (url_of (VObj om) = VStr url) as Hurl by (simpl; by rewrite Hu).
  rewrite Hurl in Hvalid.
  apply rewrite_of_returned in Hrw as (u & Hc & Hu'). rewrite Hurl in Hc, Hu'. subst u.
  apply cleanURL_returned in Hc as [Hclean _].
  exists om, name, url. eauto 10.
Qed.

(** *** The allowed protocols *)

Lemma protocolRx_rest_spec s :
  protocolRx_rest s = true ↔ ∃ w, s = (w ++ ":")%string ∧ scheme_units w = true.
Proof.
  induction s as [|c r IH]; simpl.
  - split; [done|]. intros ([|? ?] & ? & _); done.
  - rewrite orb_true_iff, !andb_true_iff, IH. split.
    + intros [[Hc Hr]|[Hc (w & -> & Hw)]].
      * apply Ascii.eqb_eq in Hc as ->. apply String.eqb_eq in Hr as ->.
        by exists EmptyString.
      * exists (String c w). simpl. by rewrite Hc, Hw.
    + intros ([|c' w] & Hs & Hw); simpl in Hs, Hw.
      * injection Hs as -> ->. left. by rewrite Ascii.eqb_refl.
      * injection Hs as <- ->. apply andb_true_iff in Hw as [Hc Hw]. right. eauto.
Qed.

(** X15: the pattern of an allowed protocol accepts exactly the texts
    made of one or more letters or hyphens and a colon after them. *)
Theorem protocolRx_spec s :
  protocolRx s = true
  ↔ ∃ w, s = (w ++ ":")%string ∧ w ≠ EmptyString ∧ scheme_units w = true.
Proof.
  destruct s as [|c r]; simpl.
  - split; [done|]. intros ([|? ?] & ? & ? & _); done.
  - rewrite andb_true_iff, protocolRx_rest_spec. split.
    + intros [Hc (w & -> & Hw)]. exists (String c w). simpl. by rewrite Hc, Hw.
    + intros ([|c' w] & Hs & Hne & Hw); [done|]. simpl in Hs, Hw.
      injection Hs as <- ->. apply andb_true_iff in Hw as [Hc Hw]. eauto.
Qed.

Lemma protocol_item p x :
  if is_protocol x
  then validate (Joi.regex protocolRx Joi.string) p x = Joi.Valid x ∧ x ≠ VUndefined
  else x = VUndefined
       ∨ ∃ e, validate (Joi.regex protocolRx Joi.string) p x = Joi.Invalid e.
Proof.
  destruct x as [| | | |s| |]; simpl; eauto.
  unfold Joi.run. simpl. destruct s as [|c r]; simpl; [eauto|].
  destruct (is_scheme_unit c && protocolRx_rest r); eauto.
Qed.

Lemma protocol_items p i l :
  if forallb is_protocol l
  then Joi.validate_items (validate (Joi.regex protocolRx Joi.string)) p i l = inr l
  else ∃ e, Joi.validate_items (validate (Joi.regex protocolRx Joi.string)) p i l = inl e.
Proof.
  revert i. induction l as [|x l IH]; intros i; [done|].
  cbn [forallb Joi.validate_items].
  pose proof (protocol_item (p ++ [Joi.PIdx i]) x) as Hx.
  destruct (is_protocol x); cbn [andb].
  - destruct Hx as [Hx Hdef]. specialize (IH (S i)).
    destruct (forallb is_protocol l).
    + rewrite Hx, IH. by destruct x.
    + destruct IH as [e He]. rewrite Hx, He. destruct x; eauto.
  - destruct Hx as [->|[e He]]; [eauto|]. rewrite He. destruct x; eauto.
Qed.

(** X16: [validateAllowedProtocols] returns an array as it is when
    every item is a text that the pattern of a protocol accepts, and
    rejects it otherwise: it keeps all the protocols or none.  An object
    that is no array is rejected. *)
Theorem validateAllowedProtocols_array :
  (∀ l, if forallb is_protocol l
        then validateAllowedProtocols (VArr l) = ([], Returned (VArr l))
        else ∃ e, validateAllowedProtocols (VArr l)
                  = ([ValidationFailed e], Returned VNull))
  ∧ (∀ m, validateAllowedProtocols (VObj m)
          = ([ValidationFailed (Joi.Error Joi.array_base [])], Returned VNull))
  ∧ validateAllowedProtocols VNull
    = ([ValidationFailed (Joi.Error Joi.array_base [])], Returned VNull).
Proof.
  split; [|done]. intros l. pose proof (protocol_items [] 0 l) as Hl.
  unfold validateAllowedProtocols, validateAgainstSchema, schema_validate.
  change (negb (String.eqb (typeof (VArr l)) "object")) with false. cbv iota.
  rewrite (validate_array_eq uriRx numberOfString Joi.no_flags
             (Joi.regex protocolRx Joi.string) [] l eq_refl).
  destruct (forallb is_protocol l).
  - by rewrite Hl.
  - destruct Hl as [e ->]. eauto.
Qed.

(** *** What the stores hold *)

Lemma uri_key_valid p j :
  Joi.is_valid (validate (Joi.uri Joi.string) p (VStr j)) = true →
  j ≠ "" ∧ uriRx j = true.
Proof.
  destruct (validate _ p (VStr j)) as [r|] eqn:Hr; [|done]. intros _.
  apply (string_valid uriRx numberOfString Joi.no_flags [Joi.RUri]) in Hr
    as (s & [= <-] & _ & Hne & Hrule); [|done..].
  split; [done|]. simpl in Hrule. by destruct (uriRx j).
Qed.

(** X17: every entry of a store that [validateCertificateStore] or
    [validateTrustedOriginsStore] returns stands under a name that is a
    URI; a certificate holds nothing but [data] and [issuerName], each a
    text that is not empty, and the permissions of an origin are exactly
    [{canBasicAuth}] with a boolean.  (An entry that was undefined stays
    so.) *)
Theorem store_output k data log (o : gmap string value) :
  k ∈ [CertificateStore; TrustedOriginsStore] →
  validator k data = (log, Returned (VObj o)) →
  log = [] ∧
  ∀ j v, o !! j = Some v →
    j ≠ "" ∧ uriRx j = true
    ∧ (v = VUndefined
       ∨ ∃ ov, v = VObj ov ∧
           match k with
           | CertificateStore =>
               ∀ f x, ov !! f = Some x →
                 (f = "data" ∨ f = "issuerName") ∧ text_or_absent x = true
           | _ => ∃ b, ov = {[ "canBasicAuth" := VBool b ]}
           end).
Proof.
  intros Hk Hv. rewrite validator_eq in Hv.
  apply M_bind_returned in Hv as (l1 & d & l2 & Hs & Hv & ->).
  rewrite sanitize_store in Hs by set_solver.
  apply parse_unless_object_log in Hs as ->.
  apply validateAgainstSchema_result in Hv as [[[=] _]|(-> & Ht & Hv)].
  split; [done|]. intros j v Hj.
  assert (∃ m, d = VObj m) as [m ->].
  { destruct d as [| | | | |l|m]; try done; [| |eauto];
      exfalso; repeat (apply elem_of_cons in Hk as [->|Hk]; [done|]);
      by apply elem_of_nil in Hk. }
  apply elem_of_cons in Hk as [->|Hk]; [|apply list_elem_of_singleton in Hk as ->].
  - apply (validate_pattern_out uriRx numberOfString Joi.no_flags None) in Hv
      as (o' & [= <-] & Ho); [|done..].
    destruct (Ho j v Hj) as (item & _ & Hkey & Hr).
    apply uri_key_valid in Hkey as [? ?]. split; [done|]. split; [done|].
    assert (item = VUndefined ∨ item ≠ VUndefined) as [->|Hdef] by (destruct item; auto).
    { left. by injection Hr as <-. }
    right.
    destruct (validate_object_defined _ _ Joi.no_flags _ _ _ _ eq_refl eq_refl Hdef Hr)
      as [im ->].
    apply validate_object_accepts in Hr as (ov & -> & Hnone & Hall);
      [|done|apply (bool_decide_unpack _); by vm_compute].
    exists ov. split; [done|]. intros f x Hf.
    destruct (decide (f = "data")) as [->|Hf1].
    + split; [auto|].
      destruct (Hall "data" Joi.string) as (r & Hr & Hor);
        [apply list_elem_of_In; simpl; tauto|].
      pose proof Hr as Hr'. apply string_key in Hr' as [-> _]; [|done..].
      rewrite <- (string_text_or_absent ([] ++ [Joi.PKey j] ++ [Joi.PKey "data"])).
      rewrite Hf in Hor.
      assert (default VUndefined (im !! "data") = x) as <-;
        [|by simpl; simpl in Hr; rewrite Hr].
      destruct (default VUndefined (im !! "data")) eqn:Hd; try by injection Hor.
      rewrite <- Hor in Hd. done.
    + destruct (decide (f = "issuerName")) as [->|Hf2].
      * split; [auto|].
        destruct (Hall "issuerName" Joi.string) as (r & Hr & Hor);
          [apply list_elem_of_In; simpl; tauto|].
        pose proof Hr as Hr'. apply string_key in Hr' as [-> _]; [|done..].
        rewrite <- (string_text_or_absent ([] ++ [Joi.PKey j] ++ [Joi.PKey "issuerName"])).
        rewrite Hf in Hor.
        assert (default VUndefined (im !! "issuerName") = x) as <-;
          [|by simpl; simpl in Hr; rewrite Hr].
        destruct (default VUndefined (im !! "issuerName")) eqn:Hd; try by injection Hor.
        rewrite <- Hor in Hd. done.
      * rewrite Hnone in Hf; [done|]. simpl. rewrite !not_elem_of_cons.
        repeat split; try done. apply not_elem_of_nil.
  - apply (validate_pattern_out uriRx numberOfString Joi.no_flags (Some [])) in Hv
      as (o' & [= <-] & Ho); [|done..].
    destruct (Ho j v Hj) as (item & _ & Hkey & Hr).
    apply uri_key_valid in Hkey as [? ?]. split; [done|]. split; [done|].
    assert (item = VUndefined ∨ item ≠ VUndefined) as [->|Hdef] by (destruct item; auto).
    { left. by injection Hr as <-. }
    right.
    destruct (validate_object_defined _ _ Joi.no_flags _ _ _ _ eq_refl eq_refl Hdef Hr)
      as [im ->].
    apply validate_object_accepts in Hr as (ov & -> & Hnone & Hall);
      [|done|apply (bool_decide_unpack _); by vm_compute].
    exists ov. split; [done|].
    destruct (Hall "canBasicAuth" _ ltac:(apply list_elem_of_In; simpl; tauto))
      as (r & Hr & Hor).
    apply boolean_key in Hr as (b & ->); [|done..].
    exists b. apply map_eq. intros f.
    destruct (decide (f = "canBasicAuth")) as [->|Hf].
    + by rewrite Hor, lookup_singleton_eq.
    + rewrite lookup_singleton_ne by done. apply Hnone. simpl.
      rewrite !not_elem_of_cons. split; [done|]. apply not_elem_of_nil.
Qed.

(** *** Validating again *)

Lemma plain_settled k :
  k ∈ [Args; BoundsInfo; AppState; V0ConfigData; AllowedProtocols; OriginPermissions] →
  Joi.settled uriRx numberOfString (schema_of k).
Proof.
  intros Hk.
  repeat (apply elem_of_cons in Hk as [->|Hk]); try (by apply elem_of_nil in Hk);
    simpl; unfold Joi.default_ok; simpl;
    repeat split; try (intros ?; reflexivity);
    apply (bool_decide_unpack _); by vm_compute.
Qed.

Lemma store_entry_settled :
  Joi.settled uriRx numberOfString
    (Joi.object (Some [("data", Joi.string); ("issuerName", Joi.string)]))
  ∧ Joi.settled uriRx numberOfString
      (Joi.keys [("canBasicAuth", Joi.default (VBool false) Joi.boolean)]
                (Joi.object None)).
Proof.
  split; simpl; unfold Joi.default_ok; simpl;
    repeat split; try (intros ?; reflexivity);
    apply (bool_decide_unpack _); by vm_compute.
Qed.

Lemma schema_validate_twice k d out :
  k ∉ [V1ConfigData; V2ConfigData; V3ConfigData] →
  typeof d = "object" →
  schema_validate (schema_of k) d = Joi.Valid out →
  schema_validate (schema_of k) out = Joi.Valid out.
Proof.
  intros Hk Ht Hv. unfold schema_validate in *.
  destruct (decide (k = CertificateStore)) as [->|Hc].
  { destruct d as [| | | | |l|m]; try done.
    by apply (validate_pattern_twice uriRx numberOfString Joi.no_flags None _ _ _ m);
      [| |apply store_entry_settled|]. }
  destruct (decide (k = TrustedOriginsStore)) as [->|Hto].
  { destruct d as [| | | | |l|m]; try done.
    by apply (validate_pattern_twice uriRx numberOfString Joi.no_flags (Some []) _ _ _ m);
      [| |apply store_entry_settled|]. }
  eapply validate_twice; [|exact Hv]. apply plain_settled.
  destruct k; try done; set_solver.
Qed.

(** X18: the validators other than those of the config are idempotent
    as well: what one of them returns, when it is not [null], it returns
    unchanged and without a log entry when it is given it again. *)
Theorem validators_idempotent k data log out :
  k ∉ [V1ConfigData; V2ConfigData; V3ConfigData] →
  validator k data = (log, Returned out) → out ≠ VNull →
  validator k out = ([], Returned out).
Proof.
  intros Hk Hv Hnn. rewrite validator_eq in Hv.
  apply M_bind_returned in Hv as (l1 & d & l2 & Hs & Hv & ->).
  apply validateAgainstSchema_result in Hv as [[-> _]|(-> & Ht & Hv)]; [done|].
  pose proof (schema_validate_out k d out Ht Hv) as Hout.
  pose proof (schema_validate_twice k d out Hk Ht Hv) as Hagain.
  assert (sanitize k out = mret out) as Hsan.
  { destruct Hout as [[o ->]|[l ->]]; destruct k; try done; set_solver. }
  rewrite validator_eq, Hsan, M_bind_ret. unfold validateAgainstSchema.
  assert (typeof out = "object") as -> by (by destruct Hout as [[o ->]|[l ->]]).
  simpl. by rewrite Hagain.
Qed.

(** *** The tabs of a team *)

Lemma tab_shape p t out :
  t ≠ VUndefined → validate tabSchema p t = Joi.Valid out →
  ∃ tm name closed, out = VObj tm
    ∧ tm !! "name" = Some (VStr name) ∧ name ≠ ""
    ∧ tm !! "isClosed" = Some (VBool closed).
Proof.
  intros Hdef Hv. unfold tabSchema, Joi.object in Hv.
  destruct (validate_object_defined _ _ Joi.no_flags _ _ _ _ eq_refl eq_refl Hdef Hv)
    as [im ->].
  apply validate_object_accepts in Hv as (tm & -> & _ & Hall);
    [|done|apply (bool_decide_unpack _); by vm_compute].
  destruct (Hall "name" _ ltac:(apply list_elem_of_In; simpl; tauto)) as (rn & Hrn & Hon).
  destruct (Hall "isClosed" _ ltac:(apply list_elem_of_In; simpl; tauto))
    as (rc & Hrc & Hoc).
  pose proof Hrn as Hn. apply validate_required_string in Hn as (n & Hn & ->).
  rewrite Hn in Hrn.
  apply (string_valid uriRx numberOfString
           (Joi.Flags Joi.Required None [] false) []) in Hrn
    as (? & [= <-] & _ & Hne & _); [|done..].
  apply boolean_key in Hrc as (b & ->); [|done..].
  exists tm, n, b. eauto.
Qed.

Lemma team3_shape p t out :
  t ≠ VUndefined → validate teamSchemaV3 p t = Joi.Valid out →
  ∃ om tabs q, out = VObj om
    ∧ om !! "tabs" = Some (VArr tabs)
    ∧ om !! "lastActiveTab" = Some (VNum (Fin q))
    ∧ is_integral q = true ∧ (0 <= q)%Q
    ∧ Forall (λ tab, ∃ tm name closed, tab = VObj tm
                ∧ tm !! "name" = Some (VStr name) ∧ name ≠ ""
                ∧ tm !! "isClosed" = Some (VBool closed)) tabs.
Proof.
  intros Hdef Hv. unfold teamSchemaV3, Joi.object in Hv.
  destruct (validate_object_defined _ _ Joi.no_flags _ _ _ _ eq_refl eq_refl Hdef Hv)
    as [im ->].
  apply validate_object_accepts in Hv as (om & -> & _ & Hall);
    [|done|apply (bool_decide_unpack _); by vm_compute].
  destruct (Hall "lastActiveTab" _ ltac:(apply list_elem_of_In; simpl; tauto))
    as (ra & Hra & Hoa).
  destruct (Hall "tabs" _ ltac:(apply list_elem_of_In; simpl; tauto))
    as (rt & Hrt & Hot).
  apply number_key in Hra as (q & -> & _ & Hq); [|done|by vm_compute].
  apply integer_min_ok in Hq as [Hint Hmin].
  assert (∃ tabs, rt = VArr tabs
            ∧ Forall (λ tab, ∃ tm name closed, tab = VObj tm
                        ∧ tm !! "name" = Some (VStr name) ∧ name ≠ ""
                        ∧ tm !! "isClosed" = Some (VBool closed)) tabs)
    as (tabs & -> & Htabs).
  { assert (default VUndefined (im !! "tabs") = VUndefined
            ∨ default VUndefined (im !! "tabs") ≠ VUndefined) as [Hu|Hu]
      by (destruct (default _ _); auto).
    - rewrite Hu in Hrt. injection Hrt as <-. by exists [].
    - apply validate_array_defined in Hrt as (l & l' & _ & -> & Hitems); [|done..].
      exists l'. split; [done|]. apply validate_items_inr in Hitems.
      eapply Forall2_Forall_right; [exact Hitems|]. simpl.
      intros x y (j & Hj & Hx & _). exact (tab_shape _ x y Hx Hj). }
  exists om, tabs, q. eauto 10.
Qed.

(** X19: every team of a record that [validateV3ConfigData] returns
    has its [tabs], an array, and its [lastActiveTab], an integer from 0
    on; every tab is an object with a name, a text that is not empty, and
    [isClosed], a boolean. *)
Theorem v3_teams_have_tabs (m o : gmap string value) log :
  validateV3ConfigData (VObj m) = (log, Returned (VObj o)) →
  ∃ outs, o !! "teams" = Some (VArr outs) ∧
    Forall (λ out, ∃ om tabs q, out = VObj om
              ∧ om !! "tabs" = Some (VArr tabs)
              ∧ om !! "lastActiveTab" = Some (VNum (Fin q))
              ∧ is_integral q = true ∧ (0 <= q)%Q
              ∧ Forall (λ tab, ∃ tm name closed, tab = VObj tm
                          ∧ tm !! "name" = Some (VStr name) ∧ name ≠ ""
                          ∧ tm !! "isClosed" = Some (VBool closed)) tabs) outs.
Proof.
  intros Hrun. change (validator V3ConfigData (VObj m) = (log, Returned (VObj o))) in Hrun.
  apply validator_returned in Hrun as (l1 & d & l2 & Hs & Hv & ->).
  rewrite validateAgainstSchema_object in Hv.
  destruct (schema_validate _ _) as [v|] eqn:Hsv; [|done]. injection Hv as _ ->.
  destruct (config_teams_out V3ConfigData d o ltac:(set_solver) Hsv)
    as (kept & outs & _ & Ho & Hitems).
  exists outs. split; [done|]. apply validate_items_inr in Hitems.
  eapply Forall2_Forall_right; [exact Hitems|]. simpl.
  intros x y (j & Hj & Hx & _). exact (team3_shape _ x y Hx Hj).
Qed.

(** *** The arguments *)

Lemma boolean_coerced p v r :
  validate Joi.boolean p v = Joi.Valid r →
  match v with
  | VUndefined => r = VUndefined
  | VBool b => r = VBool b
  | VStr s => ∃ b, r = VBool b ∧ toLowerCase s = if b then "true" else "false"
  | _ => False
  end.
Proof.
  destruct v as [| |b| |s| |]; try done; try (by intros [= <-]).
  simpl. unfold Joi.run. cbn -[String.eqb].
  destruct (String.eqb (toLowerCase s) "true") eqn:Ht.
  - apply String.eqb_eq in Ht. intros [= <-]. by exists true.
  - destruct (String.eqb (toLowerCase s) "false") eqn:Hf; [|done].
    apply String.eqb_eq in Hf. intros [= <-]. by exists false.
Qed.

(** X20: the switches of the arguments ([hidden], [disableDevMode],
    [version]) come out of [validateArgs] as booleans: a boolean as it is,
    and a text that spells [true] or [false], in any case of its letters,
    as that boolean; with any other value the arguments are rejected. *)
Theorem validateArgs_booleans (m o : gmap string value) log j :
  j ∈ ["hidden"; "disableDevMode"; "version"] →
  validateArgs (VObj m) = (log, Returned (VObj o)) →
  match default VUndefined (m !! j) with
  | VUndefined => o !! j = m !! j
  | VBool b => o !! j = Some (VBool b)
  | VStr s => ∃ b, o !! j = Some (VBool b)
                   ∧ toLowerCase s = if b then "true" else "false"
  | _ => False
  end.
Proof.
  intros Hj Hrun. change (validator Args (VObj m) = (log, Returned (VObj o))) in Hrun.
  apply validator_record_out in Hrun as (d & Hs & _ & Hall); [|done].
  injection Hs as _ <-.
  assert ((j, Joi.boolean) ∈ keys_of Args) as Hin.
  { apply elem_of_keys_of. simpl.
    repeat (apply elem_of_cons in Hj as [->|Hj]; [tauto|]). by apply elem_of_nil in Hj. }
  destruct (Hall j _ Hin) as (r & Hr & ->). apply boolean_coerced in Hr.
  destruct (default VUndefined (m !! j)) as [| |b| |s| |]; try done; subst; try done.
  destruct Hr as (b & -> & Hb). eauto.
Qed.

(** *** Fields that are always there *)

(** X21: a field whose schema has a default is never missing from a
    record that a validator returns, and never undefined. *)
Theorem defaulted_fields_present k (m o : gmap string value) log j s d0 :
  (j, s) ∈ keys_of k → Joi.f_default (Joi.flags_of s) = Some d0 →
  validator k (VObj m) = (log, Returned (VObj o)) →
  ∃ v, o !! j = Some v ∧ v ≠ VUndefined.
Proof.
  intros Hin Hd Hv.
  apply validator_record_out in Hv as (d & Hs & _ & Hall);
    [|intros Hnil; rewrite Hnil in Hin; by apply elem_of_nil in Hin].
  destruct (Hall j s Hin) as (r & Hr & Ho).
  assert (r ≠ VUndefined) as Hdef.
  { assert (default VUndefined (d !! j) = VUndefined
            ∨ default VUndefined (d !! j) ≠ VUndefined) as [Hu|Hu]
      by (destruct (default _ _); auto).
    - rewrite Hu, validate_undefined, Hd in Hr.
      pose proof (no_undefined_default k j s Hin) as Hnu. rewrite Hd in Hnu.
      destruct (Joi.f_presence _); [|done]. injection Hr as <-. simpl. congruence.
    - by eapply valid_defined. }
  exists r. split; [|done]. rewrite Ho. by destruct r.
Qed.

(** X22: the [version] of a config record that is returned is a safe
    number from the minimum of its schema on. *)
Theorem config_version_output k (m o : gmap string value) log :
  k ∈ [V1ConfigData; V2ConfigData; V3ConfigData] →
  validator k (VObj m) = (log, Returned (VObj o)) →
  ∃ q, o !! "version" = Some (VNum (Fin q)) ∧ (min_version k <= q)%Q ∧ safe q.
Proof.
  intros Hk Hv.
  eapply (config_field_out k m o log "version") in Hv as (r & Hr & ->);
    [|done|done|done|by apply config_version_in].
  apply (number_key uriRx numberOfString
           (Joi.Flags Joi.Optional (Some (VNum (Fin (min_version k)))) [] false)
           [Joi.RMin (min_version k)]) in Hr as (q & -> & Hsafe & Hq);
    [|done|].
  - exists q. split; [done|]. split; [|done]. simpl in Hq.
    destruct (Qle_bool (min_version k) q) eqn:Hle; [|done]. by apply Qle_bool_iff.
  - repeat (apply elem_of_cons in Hk as [->|Hk]; [by vm_compute|]).
    by apply elem_of_nil in Hk.
Qed.

(** *** What is never logged *)

Lemma dropSpellCheckerURL_throws data l e :
  dropSpellCheckerURL data = (l, Threw e) → l = [].
Proof.
  destruct data as [| | | | | |m]; try (by intros [= <- _]); try (by intros [=]).
  rewrite dropSpellCheckerURL_object.
  destruct (guard_throws _); [by intros [= <- _]|]. by destruct (_ && _).
Qed.

Lemma sanitize_throws_silent k data l e : sanitize k data = (l, Threw e) → l = [].
Proof.
  assert (∀ l, (d' ← replaceTeams rewriteTeam data; dropSpellCheckerURL d')
               = (l, Threw e) → l = []) as Hconfig.
  { intros l'.
    destruct (replaceTeams_silent rewriteTeam data rewriteTeam_silent) as [[d'|e'] ->];
      simpl; [|by intros [= <- _]].
    destruct (dropSpellCheckerURL d') as [l2 r2] eqn:Hd. intros [= <- ->].
    by apply dropSpellCheckerURL_throws in Hd. }
  destruct k; simpl; auto; try (by intros [=]); try apply parse_unless_object_log.
  destruct (replaceTeams_silent rewriteTeamV1 data rewriteTeamV1_silent) as [r' ->].
  by intros [= <- _].
Qed.

Lemma sanitize_logs_removal k data l r :
  sanitize k data = (l, r) → l ≠ [] →
  l = [InvalidSpellCheckerURL] ∧ (k = V2ConfigData ∨ k = V3ConfigData).
Proof.
  intros Hs Hl. pose proof (sanitize_log _ _ _ _ Hs) as [Hn | Hn]; [done|].
  split; [done|]. subst l.
  destruct k; auto; simpl in Hs;
    try (by injection Hs); try (by apply parse_unless_object_log in Hs).
  destruct (replaceTeams_silent rewriteTeamV1 data rewriteTeamV1_silent) as [r' Hr].
  rewrite Hr in Hs. by injection Hs.
Qed.

(** X23: none of the validators ever logs that no schema was provided,
    and only those of the V2 and V3 config log the removal of a
    spell-checker URL. *)
Theorem log_entries k data log r :
  validator k data = (log, r) →
  (NoSchema ∉ log)
  ∧ (InvalidSpellCheckerURL ∈ log → k = V2ConfigData ∨ k = V3ConfigData).
Proof.
  rewrite validator_eq. destruct (sanitize k data) as [l1 [d|e]] eqn:Hs; simpl.
  - destruct (validateAgainstSchema d (Some (schema_of k))) as [l2 r2] eqn:Hv.
    intros [= <- <-].
    assert (l2 = [] ∨ ∃ x, l2 = [x] ∧ is_failure x = true ∧ x ≠ NoSchema) as Hl2.
    { unfold validateAgainstSchema in Hv.
      destruct (negb _); simpl in Hv; [injection Hv as <- <-; eauto 10|].
      destruct (schema_validate _ _); simpl in Hv; injection Hv as <- <-; eauto 10. }
    assert (l1 = [] ∨ l1 = [InvalidSpellCheckerURL] ∧ (k = V2ConfigData ∨ k = V3ConfigData))
      as Hl1.
    { destruct l1 as [|x l1]; [by left|]. right. by eapply sanitize_logs_removal. }
    split.
    + rewrite elem_of_app. intros [Hin|Hin].
      * destruct Hl1 as [->|[-> _]]; [by apply elem_of_nil in Hin|].
        by apply list_elem_of_singleton in Hin.
      * destruct Hl2 as [->|(x & -> & _ & Hx)]; [by apply elem_of_nil in Hin|].
        apply list_elem_of_singleton in Hin. congruence.
    + rewrite elem_of_app. intros [Hin|Hin].
      * destruct Hl1 as [->|[_ ?]]; [by apply elem_of_nil in Hin|done].
      * destruct Hl2 as [->|(x & -> & Hf & _)]; [by apply elem_of_nil in Hin|].
        apply list_elem_of_singleton in Hin. by subst x.
  - intros [= <- <-]. apply sanitize_throws_silent in Hs as ->.
    split; [apply not_elem_of_nil|]. intros Hin. by apply elem_of_nil in Hin.
Qed.

(** *** The settings of a config record *)

Local Ltac find_key :=
  apply elem_of_keys_of; simpl; repeat (first [left; reflexivity | right]).

Local Ltac each_config Hk :=
  repeat (apply elem_of_cons in Hk as [->|Hk]); [| | |by apply elem_of_nil in Hk].

Lemma config_flag_out k (m o : gmap string value) log j :
  k ∈ [V1ConfigData; V2ConfigData; V3ConfigData] →
  j ∈ ["showTrayIcon"; "minimizeToTray"; "showUnreadBadge"; "useSpellChecker";
       "enableHardwareAcceleration"; "autostart"] →
  validator k (VObj m) = (log, Returned (VObj o)) →
  ∃ b, o !! j = Some (VBool b).
Proof.
  intros Hk Hj Hv.
  assert (∃ d, (j, Joi.default (VBool d) Joi.boolean) ∈ keys_of k) as [d Hin].
  { repeat (apply elem_of_cons in Hj as [->|Hj]); [..|by apply elem_of_nil in Hj];
      each_config Hk; eexists; find_key. }
  eapply (config_field_out k m o log j) in Hv as (r & Hr & ->);
    [|done| | |exact Hin].
  - apply boolean_key in Hr as (b & ->); [|done..]. eauto.
  - intros ->. set_solver.
  - intros ->. set_solver.
Qed.

Lemma locale_out p v r :
  validate spellCheckerLocaleSchema p v = Joi.Valid r →
  ∃ s, r = VStr s ∧ localeRx s = true.
Proof.
  intros Hv.
  assert (v = VUndefined ∨ v ≠ VUndefined) as [->|Hdef] by (destruct v; auto).
  - injection Hv as <-. by exists "en-US".
  - apply (string_valid uriRx numberOfString
             (Joi.Flags Joi.Optional (Some (VStr "en-US")) [] false)
             [Joi.RPattern localeRx]) in Hv as (s & _ & -> & _ & Hrule); [|done..].
    exists s. split; [done|]. simpl in Hrule. by destruct (localeRx s).
Qed.

(** X24: in a record that a config validator returns, the six switches
    ([showTrayIcon], [minimizeToTray], [showUnreadBadge],
    [useSpellChecker], [enableHardwareAcceleration], [autostart]) are
    booleans, and so is [darkMode] from V2 on; [trayIconTheme] is one of
    its three values; [spellCheckerLocale] is a text of the form of
    [en-US]; and the [lastActiveTeam] of V3 is an integer from 0 on. *)
Theorem config_settings_output k (m o : gmap string value) log :
  k ∈ [V1ConfigData; V2ConfigData; V3ConfigData] →
  validator k (VObj m) = (log, Returned (VObj o)) →
  (∀ j, j ∈ ["showTrayIcon"; "minimizeToTray"; "showUnreadBadge"; "useSpellChecker";
             "enableHardwareAcceleration"; "autostart"] →
        ∃ b, o !! j = Some (VBool b))
  ∧ (k ≠ V1ConfigData → ∃ b, o !! "darkMode" = Some (VBool b))
  ∧ (∃ v, o !! "trayIconTheme" = Some v ∧ is_theme v = true)
  ∧ (∃ s, o !! "spellCheckerLocale" = Some (VStr s) ∧ localeRx s = true)
  ∧ (k = V3ConfigData →
     ∃ q, o !! "lastActiveTeam" = Some (VNum (Fin q))
          ∧ is_integral q = true ∧ (0 <= q)%Q).
Proof.
  intros Hk Hv. split; [|split; [|split; [|split]]].
  - intros j Hj. by eapply config_flag_out.
  - intros Hk1.
    eapply (config_field_out k m o log "darkMode"
              (Joi.default (VBool false) Joi.boolean)) in Hv as (r & Hr & ->);
      [|done|done|done|each_config Hk; [done|find_key..]].
    apply boolean_key in Hr as (b & ->); [|done..]. eauto.
  - eapply (config_field_out k m o log "trayIconTheme") in Hv as (r & Hr & ->);
      [|done|done|done|by apply config_theme_in].
    apply only_valid in Hr as [[Hu ->]|[-> Hin]]; [| |done].
    + exists (VStr "light"). by split.
    + exists (default VUndefined (m !! "trayIconTheme")).
      destruct (default VUndefined (m !! "trayIconTheme")) as [| | | |s| |] eqn:Hd;
        try done.
      split; [done|]. rewrite <- Hin. cbn -[String.eqb].
      rewrite (String.eqb_sym "" s), (String.eqb_sym "light" s), (String.eqb_sym "dark" s).
      by rewrite orb_false_r, orb_assoc.
  - eapply (config_field_out k m o log "spellCheckerLocale" spellCheckerLocaleSchema)
      in Hv as (r & Hr & ->); [|done|done|done|each_config Hk; find_key].
    apply locale_out in Hr as (s & -> & Hs). eauto.
  - intros ->.
    eapply (config_field_out V3ConfigData m o log "lastActiveTeam") in Hv
      as (r & Hr & ->); [|done|done|done|find_key].
    apply number_key in Hr as (q & -> & _ & Hq); [|done|by vm_compute].
    apply integer_min_ok in Hq as [? ?]. eauto.
Qed.

Lemma notifications_shape p v r :
  v ≠ VUndefined → validate notificationsSchema p v = Joi.Valid r →
  ∃ fw bi bt,
    r = record [("flashWindow", VNum (Fin fw)); ("bounceIcon", VBool bi);
                ("bounceIconType", VStr bt)]
    ∧ (fw == 0 ∨ fw == 2)%Q
    ∧ bt ∈ [""; "informational"; "critical"].
Proof.
  intros Hdef Hv. unfold notificationsSchema, Joi.object in Hv.
  destruct (validate_object_defined _ _ Joi.no_flags _ _ _ _ eq_refl eq_refl Hdef Hv)
    as [im ->].
  apply validate_object_accepts in Hv as (ov & -> & Hnone & Hall);
    [|done|apply (bool_decide_unpack _); by vm_compute].
  destruct (Hall "flashWindow" _ ltac:(apply list_elem_of_In; simpl; tauto))
    as (rf & Hrf & Hof).
  destruct (Hall "bounceIcon" _ ltac:(apply list_elem_of_In; simpl; tauto))
    as (rb & Hrb & Hob).
  destruct (Hall "bounceIconType" _ ltac:(apply list_elem_of_In; simpl; tauto))
    as (rt & Hrt & Hot).
  apply boolean_key in Hrb as (bi & ->); [|done..].
  assert (∃ fw, rf = VNum (Fin fw) ∧ (fw == 0 ∨ fw == 2)%Q) as (fw & -> & Hfw).
  { apply only_valid in Hrf as [[_ ->]|[-> Hin]]; [| |done].
    - exists 0%Q. split; [done|]. by left.
    - destruct (default VUndefined (im !! "flashWindow")) as [| | |[| | |q]| | |];
        try done.
      exists q. split; [done|]. simpl in Hin.
      rewrite orb_false_r in Hin. apply orb_true_iff in Hin as [Hq|Hq];
        apply Qeq_bool_iff in Hq; [left|right]; by symmetry. }
  assert (∃ bt, rt = VStr bt ∧ bt ∈ [""; "informational"; "critical"])
    as (bt & -> & Hbt).
  { apply only_valid in Hrt as [[_ ->]|[-> Hin]]; [| |done].
    - exists "informational". split; [done|]. set_solver.
    - destruct (default VUndefined (im !! "bounceIconType")) as [| | | |s| |];
        try done.
      exists s. split; [done|]. cbn -[String.eqb] in Hin.
      rewrite orb_false_r, !orb_true_iff, !String.eqb_eq in Hin.
      destruct Hin as [<-|[<-|<-]]; set_solver. }
  exists fw, bi, bt. split; [|done].
  unfold record. f_equal. apply map_eq. intros j. simpl.
  destruct (decide (j = "flashWindow")) as [->|]; [by rewrite Hof|].
  destruct (decide (j = "bounceIcon")) as [->|]; [by rewrite Hob|].
  destruct (decide (j = "bounceIconType")) as [->|]; [by rewrite Hot|].
  rewrite !lookup_insert_ne, lookup_empty by done.
  apply Hnone. simpl. rewrite !not_elem_of_cons. repeat split; try done.
  apply not_elem_of_nil.
Qed.

(** X25: the [notifications] of a record that a config validator
    returns are, when there are any, exactly [flashWindow], 0 or 2,
    [bounceIcon], a boolean, and [bounceIconType], one of the empty text,
    [informational] and [critical]; and a record that has none is given
    none. *)
Theorem config_notifications_output k (m o : gmap string value) log :
  k ∈ [V1ConfigData; V2ConfigData; V3ConfigData] →
  validator k (VObj m) = (log, Returned (VObj o)) →
  (m !! "notifications" = None → o !! "notifications" = None)
  ∧ (∀ v, o !! "notifications" = Some v → v ≠ VUndefined →
       ∃ fw bi bt,
         v = record [("flashWindow", VNum (Fin fw)); ("bounceIcon", VBool bi);
                     ("bounceIconType", VStr bt)]
         ∧ (fw == 0 ∨ fw == 2)%Q
         ∧ bt ∈ [""; "informational"; "critical"]).
Proof.
  intros Hk Hv.
  eapply (config_field_out k m o log "notifications" notificationsSchema) in Hv
    as (r & Hr & Ho); [|done|done|done|each_config Hk; find_key].
  split.
  - intros Hm. rewrite Hm in Hr, Ho. injection Hr as <-. by rewrite Ho.
  - intros v Hov Hdef.
    assert (default VUndefined (m !! "notifications") ≠ VUndefined ∧ r = v) as [Hin ->].
    { rewrite Hov in Ho.
      assert (default VUndefined (m !! "notifications") = VUndefined
              ∨ default VUndefined (m !! "notifications") ≠ VUndefined) as [Hu|Hu]
        by (destruct (default _ _); auto).
      - rewrite Hu in Hr. injection Hr as <-. rewrite <- Ho in Hu. done.
      - split; [done|].
        pose proof (valid_defined _ _ _ _ _ _ Hu Hr) as Hrd.
        destruct r; try done; by injection Ho. }
    by eapply notifications_shape.
Qed.

End ValidatorShapes.

(** ** Examples of the further properties *)

Section ShapeExamples.

Import Validator.
Existing Instance examplePlatform.

(** A team whose URL is an array: the map passes it on, and the helper
    of the example platform throws on it. *)
Lemma config_validator_throws_witness :
  (validator V2ConfigData
     (record [("teams", VArr [record [("name", VStr "a");
                                      ("url", VArr [VStr "https://a.example"])]])])).2
  = Threw TypeError.
Proof.
  apply (proj1 (config_validator_throws V2ConfigData
                  (record [("teams", VArr [record [("name", VStr "a");
                                                   ("url", VArr [VStr "https://a.example"])]])])
                  ltac:(set_solver))).
  right. right. eexists. split; [reflexivity|]. vm_compute. reflexivity.
Defined.

(** A text that is not JSON. *)
Lemma store_validator_throws_witness :
  (validator CertificateStore (VStr "not json")).2 = Threw SyntaxError.
Proof.
  apply (proj1 (store_validator_throws CertificateStore (VStr "not json")
                  ltac:(set_solver))).
  do 4 right. exists "not json". split; reflexivity.
Defined.

(** A V2 record with a bad spell-checker URL and a version below 2: the
    removal is logged, then the failure. *)
Lemma null_iff_failure_logged_witness :
  ∃ l, (l = [] ∨ l = [InvalidSpellCheckerURL])
       ∧ ((VNull = VNull
           ∧ ∃ d, [InvalidSpellCheckerURL;
                   ValidationFailed (Joi.Error Joi.number_min [Joi.PKey "version"])]
                  = l ++ [d] ∧ is_failure d = true)
          ∨ ([InvalidSpellCheckerURL;
              ValidationFailed (Joi.Error Joi.number_min [Joi.PKey "version"])] = l
             ∧ ((∃ o, VNull = VObj o) ∨ (∃ items, VNull = VArr items)))).
Proof.
  apply (null_iff_failure_logged V2ConfigData
           (record [("spellCheckerURL", VStr "not a url"); ("version", VNum (int 1))])).
  vm_compute. reflexivity.
Defined.

(** The window state [{width: 800, height: 600}]. *)
Lemma validateBoundsInfo_output_witness :
  [] = ([] : list diagnostic) ∧
  ∃ x y width height maximized fullscreen,
    record [("x", VNum (int 0)); ("y", VNum (int 0));
            ("width", VNum (int 800)); ("height", VNum (int 600));
            ("maximized", VBool false); ("fullscreen", VBool false)]
    = record [("x", VNum (Fin x)); ("y", VNum (Fin y));
              ("width", VNum (Fin width)); ("height", VNum (Fin height));
              ("maximized", VBool maximized); ("fullscreen", VBool fullscreen)]
    ∧ Forall (λ q, is_integral q = true ∧ safe q) [x; y; width; height]
    ∧ (minWindowWidth <= width)%Q ∧ (minWindowHeight <= height)%Q.
Proof.
  apply (validateBoundsInfo_output
           (record [("width", VNum (int 800)); ("height", VNum (int 600))])).
  - vm_compute. reflexivity.
  - discriminate.
Defined.

(** The state of an app that was never updated. *)
Lemma record_accepted_iff_witness :
  ((∃ o, validator AppState (VObj ∅) = ([], Returned (VObj o)))
   ↔ ∀ j s, (j, s) ∈ keys_of AppState →
       Joi.is_valid (Joi.validate uriRx numberOfString s [Joi.PKey j]
                       (default VUndefined ((∅ : gmap string value) !! j))) = true)
  ∧ ((∃ o, validator AppState (VObj ∅) = ([], Returned (VObj o)))
     ∨ ∃ e, validator AppState (VObj ∅) = ([ValidationFailed e], Returned VNull)).
Proof. apply (record_accepted_iff AppState ∅). set_solver. Defined.

(** The text of an empty object. *)
Lemma validateOriginPermissions_output_witness :
  [] = ([] : list diagnostic)
  ∧ ∃ b, record [("canBasicAuth", VBool false)] = record [("canBasicAuth", VBool b)].
Proof.
  apply (validateOriginPermissions_output (VStr "{}")).
  - vm_compute. reflexivity.
  - discriminate.
Defined.

(** The empty V3 record, and its [lastActiveTeam]. *)
Lemma defaults_filled_witness :
  (list_to_map (("teams", VArr []) :: ("lastActiveTeam", VNum (int 0)) :: v2Defaults)
     : gmap string value) !! "lastActiveTeam"
  = Some (VNum (int 0)).
Proof.
  apply (defaults_filled V3ConfigData ∅ _ [] "lastActiveTeam"
           (Joi.default (VNum (int 0)) (Joi.min 0 (Joi.integer Joi.number)))).
  - apply list_elem_of_In. simpl. tauto.
  - reflexivity.
  - vm_compute. reflexivity.
Defined.

(** A V2 record of version 1. *)
Lemma version_below_minimum_witness :
  (validator V2ConfigData (VObj {[ "version" := VNum (int 1) ]})).2 = Returned VNull
  ∨ (validator V2ConfigData (VObj {[ "version" := VNum (int 1) ]})).2 = Threw TypeError.
Proof.
  apply (version_below_minimum V2ConfigData {[ "version" := VNum (int 1) ]} (int 1)).
  - set_solver.
  - reflexivity.
  - reflexivity.
Defined.

(** A theme that is not among the three. *)
Lemma trayIconTheme_enumerated_witness :
  (validator V1ConfigData (VObj {[ "trayIconTheme" := VStr "blue" ]})).2 = Returned VNull
  ∨ (validator V1ConfigData (VObj {[ "trayIconTheme" := VStr "blue" ]})).2
    = Threw TypeError.
Proof.
  apply (trayIconTheme_enumerated V1ConfigData {[ "trayIconTheme" := VStr "blue" ]}
           (VStr "blue")).
  - set_solver.
  - reflexivity.
  - discriminate.
Defined.

(** A V2 record with a spell-checker URL that is one. *)
Lemma spellCheckerURL_kept_witness :
  [] = ([] : list diagnostic)
  ∧ (list_to_map (("spellCheckerURL", VStr "https://dict.example/en") :: ("teams", VArr [])
                  :: v2Defaults) : gmap string value) !! "spellCheckerURL"
    = Some (VStr "https://dict.example/en")
  ∧ (VStr "https://dict.example/en" = VUndefined
     ∨ VStr "https://dict.example/en" = VNull
     ∨ ∃ s, VStr "https://dict.example/en" = VStr s ∧ s ≠ "").
Proof.
  apply (spellCheckerURL_kept V2ConfigData
           {[ "spellCheckerURL" := VStr "https://dict.example/en" ]}).
  - set_solver.
  - reflexivity.
  - reflexivity.
  - vm_compute. reflexivity.
Defined.

(** Three teams, of which two are kept. *)
Lemma config_teams_output_witness :
  ∃ outs, (list_to_map (("teams", VArr twoTeamsKept) :: v2Defaults)
             : gmap string value) !! "teams" = Some (VArr outs)
    ∧ Forall (λ out, ∃ om name url, out = VObj om
                ∧ om !! "name" = Some (VStr name) ∧ name ≠ ""
                ∧ om !! "url" = Some (VStr url) ∧ url ≠ ""
                ∧ includes_backslash url = false ∧ isValidURL (VStr url) = true
                ∧ (∀ j, j ∉ team_fields V2ConfigData → om !! j = None)) outs.
Proof.
  apply (config_teams_output V2ConfigData (list_to_map [("teams", VArr threeTeams)]) _ []).
  - set_solver.
  - vm_compute. reflexivity.
Defined.

(** A store with one certificate. *)
Lemma store_output_witness :
  [] = ([] : list diagnostic) ∧
  ∀ j v,
    ({[ "https://a.example" := record [("data", VStr "abc"); ("issuerName", VStr "CA")] ]}
       : gmap string value) !! j = Some v →
    j ≠ "" ∧ uriRx j = true
    ∧ (v = VUndefined
       ∨ ∃ ov, v = VObj ov ∧
           ∀ f x, ov !! f = Some x →
             (f = "data" ∨ f = "issuerName") ∧ text_or_absent x = true).
Proof.
  apply (store_output CertificateStore
           (VObj {[ "https://a.example" :=
                      record [("data", VStr "abc"); ("issuerName", VStr "CA");
                              ("serial", VStr "01")] ]})).
  - set_solver.
  - vm_compute. reflexivity.
Defined.

(** The window state [{width: 800, height: 600}], and what comes of it. *)
Lemma validators_idempotent_witness :
  validator BoundsInfo
    (record [("x", VNum (int 0)); ("y", VNum (int 0));
             ("width", VNum (int 800)); ("height", VNum (int 600));
             ("maximized", VBool false); ("fullscreen", VBool false)])
  = ([], Returned
      (record [("x", VNum (int 0)); ("y", VNum (int 0));
               ("width", VNum (int 800)); ("height", VNum (int 600));
               ("maximized", VBool false); ("fullscreen", VBool false)])).
Proof.
  apply (validators_idempotent BoundsInfo
           (record [("width", VNum (int 800)); ("height", VNum (int 600))]) []).
  - set_solver.
  - vm_compute. reflexivity.
  - discriminate.
Defined.

(** A team without tabs. *)
Lemma v3_teams_have_tabs_witness :
  ∃ outs,
    (list_to_map
       (("teams", VArr [record [("name", VStr "t1"); ("url", VStr "https://a.b");
                                ("lastActiveTab", VNum (int 0)); ("tabs", VArr [])]])
        :: ("lastActiveTeam", VNum (int 0)) :: v2Defaults)
       : gmap string value) !! "teams" = Some (VArr outs) ∧
    Forall (λ out, ∃ om tabs q, out = VObj om
              ∧ om !! "tabs" = Some (VArr tabs)
              ∧ om !! "lastActiveTab" = Some (VNum (Fin q))
              ∧ is_integral q = true ∧ (0 <= q)%Q
              ∧ Forall (λ tab, ∃ tm name closed, tab = VObj tm
                          ∧ tm !! "name" = Some (VStr name) ∧ name ≠ ""
                          ∧ tm !! "isClosed" = Some (VBool closed)) tabs) outs.
Proof.
  apply (v3_teams_have_tabs
           (list_to_map [("teams", VArr [record [("name", VStr "t1");
                                                 ("url", VStr "https://a.b")]])]) _ []).
  vm_compute. reflexivity.
Defined.

(** [hidden] spelled in capitals. *)
Lemma validateArgs_booleans_witness :
  ∃ b, ({[ "hidden" := VBool true ]} : gmap string value) !! "hidden" = Some (VBool b)
       ∧ toLowerCase "TRUE" = if b then "true" else "false".
Proof.
  exact (validateArgs_booleans {[ "hidden" := VStr "TRUE" ]}
           {[ "hidden" := VBool true ]} [] "hidden"
           ltac:(set_solver) ltac:(vm_compute; reflexivity)).
Defined.

(** The [x] of a window state that has none. *)
Lemma defaulted_fields_present_witness :
  ∃ v, (list_to_map [("x", VNum (int 0)); ("y", VNum (int 0));
                     ("width", VNum (int 800)); ("height", VNum (int 600));
                     ("maximized", VBool false); ("fullscreen", VBool false)]
          : gmap string value) !! "x" = Some v
       ∧ v ≠ VUndefined.
Proof.
  apply (defaulted_fields_present BoundsInfo
           (list_to_map [("width", VNum (int 800)); ("height", VNum (int 600))]) _ [] "x"
           (Joi.default (VNum (int 0)) (Joi.integer Joi.number)) (VNum (int 0))).
  - apply list_elem_of_In. simpl. tauto.
  - reflexivity.
  - vm_compute. reflexivity.
Defined.

(** The empty V3 record. *)
Lemma config_version_output_witness :
  ∃ q, (list_to_map (("teams", VArr []) :: ("lastActiveTeam", VNum (int 0)) :: v2Defaults)
          : gmap string value) !! "version" = Some (VNum (Fin q))
       ∧ (min_version V3ConfigData <= q)%Q ∧ safe q.
Proof.
  apply (config_version_output V3ConfigData ∅ _ []).
  - set_solver.
  - vm_compute. reflexivity.
Defined.

(** A V2 record with a bad spell-checker URL. *)
Lemma log_entries_witness :
  (NoSchema ∉ [InvalidSpellCheckerURL])
  ∧ (InvalidSpellCheckerURL ∈ [InvalidSpellCheckerURL] →
     V2ConfigData = V2ConfigData ∨ V2ConfigData = V3ConfigData).
Proof.
  apply (log_entries V2ConfigData (record [("spellCheckerURL", VStr "not a url")])
           _ (Returned (record (("teams", VArr []) :: v2Defaults)))).
  vm_compute. reflexivity.
Defined.

(** The empty V3 record. *)
Lemma config_settings_output_witness :
  (∀ j, j ∈ ["showTrayIcon"; "minimizeToTray"; "showUnreadBadge"; "useSpellChecker";
             "enableHardwareAcceleration"; "autostart"] →
        ∃ b, (list_to_map (("teams", VArr []) :: ("lastActiveTeam", VNum (int 0))
                           :: v2Defaults) : gmap string value) !! j = Some (VBool b))
  ∧ (V3ConfigData ≠ V1ConfigData →
     ∃ b, (list_to_map (("teams", VArr []) :: ("lastActiveTeam", VNum (int 0))
                        :: v2Defaults) : gmap string value) !! "darkMode"
          = Some (VBool b))
  ∧ (∃ v, (list_to_map (("teams", VArr []) :: ("lastActiveTeam", VNum (int 0))
                        :: v2Defaults) : gmap string value) !! "trayIconTheme" = Some v
          ∧ is_theme v = true)
  ∧ (∃ s, (list_to_map (("teams", VArr []) :: ("lastActiveTeam", VNum (int 0))
                        :: v2Defaults) : gmap string value) !! "spellCheckerLocale"
          = Some (VStr s) ∧ localeRx s = true)
  ∧ (V3ConfigData = V3ConfigData →
     ∃ q, (list_to_map (("teams", VArr []) :: ("lastActiveTeam", VNum (int 0))
                        :: v2Defaults) : gmap string value) !! "lastActiveTeam"
          = Some (VNum (Fin q))
          ∧ is_integral q = true ∧ (0 <= q)%Q).
Proof.
  apply (config_settings_output V3ConfigData ∅ _ []).
  - set_solver.
  - vm_compute. reflexivity.
Defined.

(** A V2 record with empty notifications. *)
Lemma config_notifications_output_witness :
  (({[ "notifications" := VObj ∅ ]} : gmap string value) !! "notifications" = None →
   (list_to_map
      (("notifications",
        record [("flashWindow", VNum (int 0)); ("bounceIcon", VBool false);
                ("bounceIconType", VStr "informational")])
       :: ("teams", VArr []) :: v2Defaults) : gmap string value) !! "notifications"
   = None)
  ∧ (∀ v,
       (list_to_map
          (("notifications",
            record [("flashWindow", VNum (int 0)); ("bounceIcon", VBool false);
                    ("bounceIconType", VStr "informational")])
           :: ("teams", VArr []) :: v2Defaults) : gmap string value) !! "notifications"
       = Some v → v ≠ VUndefined →
       ∃ fw bi bt,
         v = record [("flashWindow", VNum (Fin fw)); ("bounceIcon", VBool bi);
                     ("bounceIconType", VStr bt)]
         ∧ (fw == 0 ∨ fw == 2)%Q
         ∧ bt ∈ [""; "informational"; "critical"]).
Proof.
  apply (config_notifications_output V2ConfigData {[ "notifications" := VObj ∅ ]} _ []).
  - set_solver.
  - vm_compute. reflexivity.
Defined.

End ShapeExamples.
